(** * gau2grid: the C utility generator ([gau2grid/c_util_generator.py])

    The Python module drives a code emitter [cg] to produce five C/C++
    routines: two pybind11 wrappers, a naive and a cache-blocked transpose,
    and a strided block copy.  This development embeds

    - the generators, as the sequence of emitter calls each one issues;
    - the emitter they drive (tracked indentation and block stack);
    - the emitted routines, as small syntax trees whose rendering through
      the emitter is proved equal to what the generators issue, together
      with an executable semantics (64-bit [size_t] arithmetic, bounds-checked
      arrays, an access trace).

    The definitions come first: the generators and the emitter, the syntax
    and the semantics of what is emitted, the behaviour the routines are
    compared with (element moves, memory layouts, wrapper contracts) and the
    loop invariants.  The proofs follow; the modules [Kernels] and [Wrappers]
    at the end state the main results. *)

From Stdlib Require Import ZArith Lia Ascii String.
From stdpp Require Import base tactics option list list_numbers strings pretty.
Local Open Scope Z_scope.

(** ** Text helpers *)

(** The double-quote character of the emitted C string literals. *)
Definition dq : string := String "034"%char EmptyString.

(** The line feed inside the multi-line signature literal of [pybind11_func]. *)
Definition nl : string := String "010"%char EmptyString.

(** Python's ["%d" % z] for an integer [z]. *)
Definition fmt_d (z : Z) : string := pretty z.

Arguments fmt_d : simpl never.

(** Python's [str.upper] on ASCII text (the derivative tags are ASCII). *)
Definition upper_ascii (c : ascii) : ascii :=
  let n := nat_of_ascii c in
  if (97 <=? n)%nat && (n <=? 122)%nat then ascii_of_nat (n - 32) else c.

Fixpoint upper (s : string) : string :=
  match s with
  | EmptyString => EmptyString
  | String c s' => String (upper_ascii c) (upper s')
  end.

(** The text a Python loop appends to a string, one piece per element. *)
Definition suffixes (g : string → string) (l : list string) : string :=
  fold_right (λ c r, g c +:+ r) "" l.

(** ** Emitter calls *)

(** One method call on the emitter object [cg].  [Write line endl] is
    [cg.write(line)] when [endl] is [None] and [cg.write(line, endl=e)] when
    it is [Some e]. *)
Inductive call : Type :=
| Write (line : string) (endl : option string)
| Blankline
| StartCBlock (header : string)
| CloseCBlock.

(** ** The block emitter *)

Module Emitter.

Inductive error : Type := UnbalancedBlockError.

(** Modelled from the spec: the emitter class behind [cg] (its module is not
    part of the sources at hand).  The emission context is the text emitted
    so far, the stack of open block headers and the indentation depth; the
    configured indentation unit, default statement terminator and brace
    style travel with it. *)
Record t : Type := mk {
  data : list string;
  stack : list string;
  indent_lvl : nat;
  indent_tab : string;
  line_end : string;
  brace_on_header_line : bool
}.

Fixpoint repeat_string (n : nat) (s : string) : string :=
  match n with
  | O => ""
  | S n' => s +:+ repeat_string n' s
  end.

Definition shift (cg : t) : string := repeat_string (indent_lvl cg) (indent_tab cg).

Definition emit_text (text : string) (cg : t) : t :=
  mk (data cg ++ [text]) (stack cg) (indent_lvl cg)
     (indent_tab cg) (line_end cg) (brace_on_header_line cg).

(** Modelled from the spec: [write] appends the line behind the current
    indentation, closed by the caller's terminator when one is supplied and
    by the configured one otherwise. *)
Definition write (line : string) (endl : option string) (cg : t) : t :=
  emit_text (shift cg +:+ line +:+ default (line_end cg) endl) cg.

(** Modelled from the spec: [blank_line] appends an empty, unindented line. *)
Definition blankline (cg : t) : t := emit_text "" cg.

(** Modelled from the spec: [open_block] emits the header at the current
    indentation with its opening brace (same or next line), pushes the
    header and deepens the indentation. *)
Definition start_c_block (header : string) (cg : t) : t :=
  let cg1 :=
    if brace_on_header_line cg
    then emit_text (shift cg +:+ header +:+ " {") cg
    else emit_text (shift cg +:+ "{") (emit_text (shift cg +:+ header) cg) in
  mk (data cg1) (header :: stack cg1) (S (indent_lvl cg1))
     (indent_tab cg1) (line_end cg1) (brace_on_header_line cg1).

(** Modelled from the spec: [close_block] fails on an empty stack; otherwise
    it steps the indentation back, emits the closing brace at the shallower
    depth and pops the stack. *)
Definition close_c_block (cg : t) : error + t :=
  match stack cg with
  | [] => inl UnbalancedBlockError
  | _ :: rest =>
      let cg1 := mk (data cg) rest (Nat.pred (indent_lvl cg))
                    (indent_tab cg) (line_end cg) (brace_on_header_line cg) in
      inr (emit_text (shift cg1 +:+ "}") cg1)
  end.

Definition step (c : call) (cg : t) : error + t :=
  match c with
  | Write line endl => inr (write line endl cg)
  | Blankline => inr (blankline cg)
  | StartCBlock header => inr (start_c_block header cg)
  | CloseCBlock => close_c_block cg
  end.

(** A generator run: its calls applied in order; the first failure aborts. *)
Fixpoint run (cs : list call) (cg : t) : error + t :=
  match cs with
  | [] => inr cg
  | c :: cs' =>
      match step c cg with
      | inl e => inl e
      | inr cg' => run cs' cg'
      end
  end.

(** The invariant of the emission context: indentation equals stack depth. *)
Definition wf (cg : t) : Prop := indent_lvl cg = length (stack cg).

(** A fresh context. *)
Definition init (tab endl : string) (same_line : bool) : t :=
  mk [] [] 0 tab endl same_line.

End Emitter.

(** Block depth after a call sequence started at depth [d]; [None] when a
    close meets depth zero. *)
Fixpoint depth_after (cs : list call) (d : nat) : option nat :=
  match cs with
  | [] => Some d
  | StartCBlock _ :: cs' => depth_after cs' (S d)
  | CloseCBlock :: cs' =>
      match d with
      | O => None
      | S d' => depth_after cs' d'
      end
  | _ :: cs' => depth_after cs' d
  end.

Definition is_start (c : call) : bool :=
  match c with StartCBlock _ => true | _ => false end.

Definition is_close (c : call) : bool :=
  match c with CloseCBlock => true | _ => false end.

Definition count_starts (cs : list call) : nat := length (List.filter is_start cs).

Definition count_closes (cs : list call) : nat := length (List.filter is_close cs).

Definition balanced (cs : list call) : Prop := depth_after cs 0 = Some 0%nat.

(** ** The generators

    Each generator is the list of calls it issues on [cg], in program order;
    a Python [for cart in deriv_indices] that issues calls is a [flat_map], one
    that extends a string is a [fold_left]. *)

Section Generators.

(** [utility.get_deriv_indices]: the derivative tags of a derivative order,
    in the order in which the kernel expects them. *)
Variable get_deriv_indices : Z → list string.

Definition pybind11_func_sig (name : string) (deriv_indices : list string) : string :=
  let sig :=
    "void " +:+ name +:+
    "(int L, py::array_t<double> arr_xyz, py::array_t<double> arr_coeffs," +:+ nl +:+
    "py::array_t<double> arr_exponents, py::array_t<double> arr_center, bool spherical," +:+ nl +:+
    "py::array_t<double> arr_out" in
  (* Pad out deriv outputs *)
  let sig :=
    fold_left (λ sig cart, sig +:+ (", py::array_t<double> arr_" +:+ cart +:+ "_out"))
              deriv_indices sig in
  sig +:+ ")".

Definition pybind11_func_call (call_name : string) (deriv_indices : list string) : string :=
  let call_func := call_name +:+ "(L, xyz.shape(1)" in
  let call_func := call_func +:+ ", xyz.data(0, 0), xyz.data(1, 0), xyz.data(2, 0)" in
  let call_func := call_func +:+ ", coeffs.shape(0), coeffs.data(0), exponents.data(0)" in
  let call_func := call_func +:+ ", center.data(0)" in
  let call_func := call_func +:+ ", spherical" in
  let call_func := call_func +:+ ", out.mutable_data(0, 0)" in
  let call_func :=
    fold_left (λ call_func cart, call_func +:+ (", out_" +:+ cart +:+ ".mutable_data(0, 0)"))
              deriv_indices call_func in
  call_func +:+ ")".

Definition pybind11_func (name : string) (grad : Z) (call_name : string) (max_L : Z)
  : list call :=
  (* Figure out what we need to add per deriv *)
  let deriv_indices := get_deriv_indices grad in
  (* Write out wrapper functions *)
  [ StartCBlock (pybind11_func_sig name deriv_indices);
    Blankline;
    (* Grab the pointers *)
    Write "// Grab array pointers" None;
    Write "auto xyz = arr_xyz.unchecked<2>()" None;
    Write "auto coeffs = arr_coeffs.unchecked<1>()" None;
    Write "auto exponents = arr_exponents.unchecked<1>()" None;
    Write "auto center = arr_center.unchecked<1>()" None;
    Write "auto out = arr_out.mutable_unchecked<2>()" None ]
  (* Pad out deriv pointers *)
  ++ flat_map (λ cart,
       [ Write ("auto out_" +:+ cart +:+ " = arr_" +:+ cart +:+ "_out.mutable_unchecked<2>()")
               None ]) deriv_indices
  ++ [ Blankline;
    (* Run through checks *)
    Write "// XYZ is of size 3" None;
    StartCBlock ("if (L > " +:+ fmt_d max_L +:+ ")");
    Write ("    throw std::invalid_argument(" +:+ dq +:+
           "Exceeded compiled angular momentum of " +:+ fmt_d max_L +:+
           ". Please recompile with a higher angular momentum.\n" +:+ dq +:+ ")") None;
    CloseCBlock;

    Write "// XYZ is of size 3" None;
    StartCBlock "if (arr_xyz.shape(0) != 3)";
    Write ("    throw std::length_error(" +:+ dq +:+
           "Length of XYZ array must be (3, n).\n" +:+ dq +:+ ")") None;
    CloseCBlock;
    Blankline;

    Write "// Coeff matches exponent shape" None;
    StartCBlock "if (coeffs.shape(0) != exponents.shape(0))";
    Write ("    throw std::length_error(" +:+ dq +:+
           "Length of coefficients and exponents must match.\n" +:+ dq +:+ ")") None;
    CloseCBlock;
    Blankline;

    Write "// Center is of size 3" None;
    StartCBlock "if (center.shape(0) != 3)";
    Write ("    throw std::length_error(" +:+ dq +:+
           "Length of center vector must be 3 (X, Y, Z).\n" +:+ dq +:+ ")") None;
    CloseCBlock;
    Blankline;

    Write "// Make sure output length matches" None;
    Write "size_t nsize" None;
    StartCBlock "if (spherical)";
    Write "    nsize = 2 * L + 1" None;
    Write "} else {" (Some "");
    Write "    nsize = ((L + 2) * (L + 1)) / 2" None;
    CloseCBlock;
    Blankline;

    StartCBlock "if (out.shape(0) != nsize)";
    Write ("    throw std::length_error(" +:+ dq +:+
           "Size of the output array does not match the angular momentum.\n" +:+ dq +:+ ")")
          None;
    CloseCBlock ]
  ++ flat_map (λ cart,
       [ StartCBlock ("if (out_" +:+ cart +:+ ".shape(0) != nsize)");
         Write ("    throw std::length_error(" +:+ dq +:+
                "Size of the output " +:+ upper cart +:+
                " array does not match the angular momentum.\n" +:+ dq +:+ ")") None;
         CloseCBlock ]) deriv_indices
  ++ [ Blankline;

    Write "// Ensure lengths match" None;
    StartCBlock "if (out.shape(1) != arr_xyz.shape(1))";
    Write ("    throw std::length_error(" +:+ dq +:+
           "Size of the output array and XYZ array must be the same.\n" +:+ dq +:+ ")") None;
    CloseCBlock ]
  (* Pad out deriv length checkers *)
  ++ flat_map (λ cart,
       [ StartCBlock ("if (out_" +:+ cart +:+ ".shape(1) != arr_xyz.shape(1))");
         Write ("    throw std::length_error(" +:+ dq +:+
                "Size of the output " +:+ upper cart +:+
                " array and XYZ array must be the same.\n" +:+ dq +:+ ")") None;
         CloseCBlock ]) deriv_indices
  ++ [ Blankline;

    Write "// Call the GG helper function" None;
    Write (pybind11_func_call call_name deriv_indices) None;

    CloseCBlock ].

End Generators.

Definition pybind11_transpose_sig (wrapper_name : string) : string :=
  let sig := "void " +:+ wrapper_name +:+ "(py::array_t<double> arr_input" in
  sig +:+ ", py::array_t<double> arr_output)".

Definition pybind11_transpose (func_name wrapper_name : string) : list call :=
  [ StartCBlock (pybind11_transpose_sig wrapper_name);
    Write "auto input = arr_input.unchecked<2>()" None;
    Write "auto output = arr_output.mutable_unchecked<2>()" None;
    Write "size_t n = input.shape(0)" None;
    Write "size_t m = input.shape(1)" None;
    Blankline;

    Write "// Check shapes" None;
    StartCBlock "if (input.shape(0) != output.shape(1))";
    Write ("    throw std::length_error(" +:+ dq +:+
           "Input tranpose shape 0 does not match output transpose shape 1.\n" +:+ dq +:+ ")")
          None;
    CloseCBlock;
    Blankline;

    StartCBlock "if (input.shape(1) != output.shape(0))";
    Write ("    throw std::length_error(" +:+ dq +:+
           "Input tranpose shape 1 does not match output transpose shape 0.\n" +:+ dq +:+ ")")
          None;
    CloseCBlock;
    Blankline;

    Write (func_name +:+ "(n, m, input.data(0, 0), output.mutable_data(0, 0))") None;

    CloseCBlock ].

(** *** Transposers *)

Definition naive_transpose_sig : string :=
  "void gg_naive_transpose(size_t n, size_t m, const double* __restrict__ input, double* __restrict__ output)".

(** The calls of [naive_transpose(cg)]; the Python function returns
    [naive_transpose_sig]. *)
Definition naive_transpose : list call :=
  [ StartCBlock naive_transpose_sig;

    StartCBlock "for (size_t i = 0; i < n; i++)";

    (* Inner block *)
    StartCBlock "for (size_t j = 0; j < m; j++)";
    Write "output[j * n + i] = input[i * m + j]" None;
    CloseCBlock;

    (* Outer block *)
    CloseCBlock;

    CloseCBlock ].

Definition fast_transpose_sig : string :=
  "void gg_fast_transpose(size_t n, size_t m, const double* __restrict__ input, double* __restrict__ output)".

(** The calls of [fast_transpose(cg, inner_block)]; the Python function
    returns [fast_transpose_sig]. *)
Definition fast_transpose (inner_block : Z) : list call :=
  [ StartCBlock fast_transpose_sig;
    Blankline;

    Write "// Temps" None;
    Write ("double tmp[" +:+ fmt_d (inner_block * inner_block) +:+
           "]  __attribute__((aligned(64)))") None;

    Write "// Sizing" None;
    Write ("size_t nblocks = n / " +:+ fmt_d inner_block) None;
    Write ("nblocks += (n % " +:+ fmt_d inner_block +:+ ") ? 1 : 0") None;

    Write ("size_t mblocks = m / " +:+ fmt_d inner_block) None;
    Write ("mblocks += (m % " +:+ fmt_d inner_block +:+ ") ? 1 : 0") None;

    Write "// Outer blocks" None;
    StartCBlock "for (size_t nb = 0; nb < nblocks; nb++)";
    Write ("const size_t nstart = nb * " +:+ fmt_d inner_block) None;
    Write ("size_t nremain = ((nstart + " +:+ fmt_d inner_block +:+
           ") > n) ? (n - nstart) : " +:+ fmt_d inner_block) None;

    StartCBlock "for (size_t mb = 0; mb < mblocks; mb++)";
    Write ("const size_t mstart = mb * " +:+ fmt_d inner_block) None;
    Write ("size_t mremain = ((mstart + " +:+ fmt_d inner_block +:+
           ") > m) ? (m - mstart) : " +:+ fmt_d inner_block) None;

    (* Pull block *)
    Write "// Copy data to inner block" None;
    StartCBlock "for (size_t l = 0; l < nremain; l++)";
    Write "const size_t start = (nstart + l) * m + mstart" None;
    StartCBlock "for (size_t k = 0; k < mremain; k++)";

    Write ("tmp[k * " +:+ fmt_d inner_block +:+ " + l] = input[start + k]") None;

    CloseCBlock;
    CloseCBlock;

    (* Push block *)
    Write "// Copy data to inner block" None;
    StartCBlock "for (size_t k = 0; k < mremain; k++)";
    Write "const size_t start = (mstart + k) * n + nstart" None;
    StartCBlock "for (size_t l = 0; l < nremain; l++)";

    Write ("output[start + l] = tmp[k * " +:+ fmt_d inner_block +:+ " + l]") None;
    CloseCBlock;
    CloseCBlock;

    (* Outer block *)
    CloseCBlock;
    CloseCBlock;

    CloseCBlock ].

(** *** Data copiers *)

Definition block_copy_sig : string :=
  "void block_copy(size_t n, size_t m, const double* __restrict__ input, size_t is, double* __restrict__ output, size_t os, const int trans)".

(** The calls of [block_copy(cg)]; the Python function returns
    [block_copy_sig]. *)
Definition block_copy : list call :=
  [ StartCBlock block_copy_sig;
    Blankline;
    StartCBlock "for (size_t i = 0; i < n; i++)";
    Write "const size_t out_shift = i * os" None;
    Write "const size_t inp_shift = i * is" None;

    (* Inner copy over block *)
    Blankline;
    StartCBlock "for (size_t j = 0; j < m; j++)";
    Write "output[out_shift + j] = input[inp_shift + j]" None;
    CloseCBlock;

    (* Close i loop *)
    CloseCBlock;

    (* Close func *)
    CloseCBlock ].

(** ** The emitted kernels as syntax

    The loop kernels are written in a small fragment of C: [size_t]
    expressions, counted [for] loops, declarations, and element copies between
    [double] arrays.  [emit] turns a function of the fragment back into emitter
    calls; the generators above are proved to issue exactly the calls of the
    trees [naive_transpose_fn], [fast_transpose_fn] and [block_copy_fn]. *)

Module Kernel.

Inductive binop : Type := Add | Sub | Mul | Div | Mod | Gt.

Inductive expr : Type :=
| Var (x : string)
| Lit (z : Z)
| Bin (op : binop) (a b : expr)
| Paren (e : expr)
| Cond (c a b : expr).
#[local] Unset Elimination Schemes.

Inductive stmt : Type :=
| Comment (text : string)
| Blank
| DeclArray (x : string) (len : Z)
| Decl (const : bool) (x : string) (e : expr)
| AddAssign (x : string) (e : expr)
| Copy (dst : string) (di : expr) (src : string) (si : expr)
| For (v : string) (bound : expr) (body : list stmt).
#[local] Set Elimination Schemes.

Inductive ctype : Type := SizeT | ConstInt | ConstDoublePtr | DoublePtr.

Record func : Type := mkfunc {
  f_name : string;
  f_params : list (ctype * string);
  f_body : list stmt;
  f_blank_after_sig : bool
}.

(** *** Rendering *)

Definition render_binop (op : binop) : string :=
  match op with
  | Add => " + " | Sub => " - " | Mul => " * "
  | Div => " / " | Mod => " % " | Gt => " > "
  end.

Fixpoint render_expr (e : expr) : string :=
  match e with
  | Var x => x
  | Lit z => fmt_d z
  | Bin op a b => render_expr a +:+ render_binop op +:+ render_expr b
  | Paren e' => "(" +:+ render_expr e' +:+ ")"
  | Cond c a b => render_expr c +:+ " ? " +:+ render_expr a +:+ " : " +:+ render_expr b
  end.

Fixpoint emit_stmt (s : stmt) : list call :=
  match s with
  | Comment text => [Write ("// " +:+ text) None]
  | Blank => [Blankline]
  | DeclArray x len =>
      [Write ("double " +:+ x +:+ "[" +:+ fmt_d len +:+ "]  __attribute__((aligned(64)))") None]
  | Decl const x e =>
      [Write ((if const then "const size_t " else "size_t ") +:+ x +:+ " = " +:+ render_expr e)
             None]
  | AddAssign x e => [Write (x +:+ " += " +:+ render_expr e) None]
  | Copy dst di src si =>
      [Write (dst +:+ "[" +:+ render_expr di +:+ "] = " +:+ src +:+ "[" +:+ render_expr si +:+ "]")
             None]
  | For v bound body =>
      StartCBlock ("for (size_t " +:+ v +:+ " = 0; " +:+ v +:+ " < " +:+ render_expr bound +:+
                   "; " +:+ v +:+ "++)")
      :: flat_map emit_stmt body ++ [CloseCBlock]
  end.

Definition render_ctype (ty : ctype) : string :=
  match ty with
  | SizeT => "size_t"
  | ConstInt => "const int"
  | ConstDoublePtr => "const double* __restrict__"
  | DoublePtr => "double* __restrict__"
  end.

Fixpoint render_params (ps : list (ctype * string)) : string :=
  match ps with
  | [] => ""
  | [(ty, x)] => render_ctype ty +:+ " " +:+ x
  | (ty, x) :: ps' => render_ctype ty +:+ " " +:+ x +:+ ", " +:+ render_params ps'
  end.

Definition render_sig (f : func) : string :=
  "void " +:+ f_name f +:+ "(" +:+ render_params (f_params f) +:+ ")".

Definition emit (f : func) : list call :=
  StartCBlock (render_sig f)
  :: (if f_blank_after_sig f then [Blankline] else [])
  ++ flat_map emit_stmt (f_body f) ++ [CloseCBlock].

(** *** The three kernels *)

Definition transpose_params : list (ctype * string) :=
  [ (SizeT, "n"); (SizeT, "m"); (ConstDoublePtr, "input"); (DoublePtr, "output") ].

Definition naive_transpose_fn : func :=
  mkfunc "gg_naive_transpose" transpose_params
    [ For "i" (Var "n")
        [ For "j" (Var "m")
            [ Copy "output" (Bin Add (Bin Mul (Var "j") (Var "n")) (Var "i"))
                   "input" (Bin Add (Bin Mul (Var "i") (Var "m")) (Var "j")) ] ] ]
    false.

(** [size_t x = n / t; x += (n % t) ? 1 : 0] *)
Definition count_blocks (x dim : string) (t : Z) : list stmt :=
  [ Decl false x (Bin Div (Var dim) (Lit t));
    AddAssign x (Cond (Paren (Bin Mod (Var dim) (Lit t))) (Lit 1) (Lit 0)) ].

(** [const size_t xstart = xb * t; size_t xremain = ((xstart + t) > dim) ? (dim - xstart) : t] *)
Definition tile_bounds (xstart xremain xb dim : string) (t : Z) : list stmt :=
  [ Decl true xstart (Bin Mul (Var xb) (Lit t));
    Decl false xremain
      (Cond (Paren (Bin Gt (Paren (Bin Add (Var xstart) (Lit t))) (Var dim)))
            (Paren (Bin Sub (Var dim) (Var xstart)))
            (Lit t)) ].

Definition tmp_index (t : Z) : expr := Bin Add (Bin Mul (Var "k") (Lit t)) (Var "l").

Definition gather (t : Z) : stmt :=
  For "l" (Var "nremain")
    [ Decl true "start" (Bin Add (Bin Mul (Paren (Bin Add (Var "nstart") (Var "l"))) (Var "m"))
                                 (Var "mstart"));
      For "k" (Var "mremain")
        [ Copy "tmp" (tmp_index t) "input" (Bin Add (Var "start") (Var "k")) ] ].

Definition scatter (t : Z) : stmt :=
  For "k" (Var "mremain")
    [ Decl true "start" (Bin Add (Bin Mul (Paren (Bin Add (Var "mstart") (Var "k"))) (Var "n"))
                                 (Var "nstart"));
      For "l" (Var "nremain")
        [ Copy "output" (Bin Add (Var "start") (Var "l")) "tmp" (tmp_index t) ] ].

Definition tile_body (t : Z) : list stmt :=
  tile_bounds "mstart" "mremain" "mb" "m" t
  ++ [ Comment "Copy data to inner block"; gather t;
       Comment "Copy data to inner block"; scatter t ].

Definition fast_transpose_fn (t : Z) : func :=
  mkfunc "gg_fast_transpose" transpose_params
    ([ Comment "Temps"; DeclArray "tmp" (t * t); Comment "Sizing" ]
     ++ count_blocks "nblocks" "n" t
     ++ count_blocks "mblocks" "m" t
     ++ [ Comment "Outer blocks";
          For "nb" (Var "nblocks")
            (tile_bounds "nstart" "nremain" "nb" "n" t
             ++ [ For "mb" (Var "mblocks") (tile_body t) ]) ])
    true.

Definition block_copy_fn : func :=
  mkfunc "block_copy"
    [ (SizeT, "n"); (SizeT, "m"); (ConstDoublePtr, "input"); (SizeT, "is");
      (DoublePtr, "output"); (SizeT, "os"); (ConstInt, "trans") ]
    [ For "i" (Var "n")
        [ Decl true "out_shift" (Bin Mul (Var "i") (Var "os"));
          Decl true "inp_shift" (Bin Mul (Var "i") (Var "is"));
          Blank;
          For "j" (Var "m")
            [ Copy "output" (Bin Add (Var "out_shift") (Var "j"))
                   "input" (Bin Add (Var "inp_shift") (Var "j")) ] ] ]
    true.

End Kernel.

(** ** Execution of the emitted kernels

    [size_t] is 64 bits wide and its arithmetic wraps.  Arrays are lists of
    cells addressed from zero; a cell is [None] until it is first written
    (a local array starts out that way).  Reading or writing outside an array,
    reading a cell never written, dividing by zero and using an undeclared
    name are faults: operations to which C gives no meaning, after which the
    model says nothing of what a compiled routine does.  Every element copy
    is logged. *)

Module Exec.
Import Kernel.

Definition size_bits : Z := 64.

Definition size_mod : Z := 2 ^ size_bits.

Definition wrap (z : Z) : Z := z mod size_mod.
Global Arguments size_mod : simpl never.
Global Arguments wrap : simpl never.

(** An array of that many [double]s fits in the address space. *)
Definition addressable (cells : Z) : Prop := 8 * cells < size_mod.

(** One executed [dst[to_idx] = src[from_idx]]. *)
Record move : Type := mv { to : string; to_idx : Z; from : string; from_idx : Z }.

Inductive outcome (S : Type) : Type :=
| Done (s : S)
| Fault
| OutOfFuel.
Arguments Done {S} s.
Arguments Fault {S}.
Arguments OutOfFuel {S}.

Section WithElements.
Context {A : Type}.

Record state : Type := mkstate {
  vars : string → option Z;
  mem : string → option (list (option A));
  trace : list move
}.

Definition update {V : Type} (x : string) (v : V) (f : string → option V)
  : string → option V :=
  λ y, if String.eqb x y then Some v else f y.

Definition set_var (x : string) (v : Z) (σ : state) : state :=
  mkstate (update x v (vars σ)) (mem σ) (trace σ).

Definition set_mem (x : string) (cells : list (option A)) (σ : state) : state :=
  mkstate (vars σ) (update x cells (mem σ)) (trace σ).

Definition log (e : move) (σ : state) : state :=
  mkstate (vars σ) (mem σ) (trace σ ++ [e]).

Definition eval_binop (op : binop) (a b : Z) : option Z :=
  match op with
  | Add => Some (wrap (a + b))
  | Sub => Some (wrap (a - b))
  | Mul => Some (wrap (a * b))
  | Div => if b =? 0 then None else Some (a / b)
  | Mod => if b =? 0 then None else Some (a mod b)
  | Gt => Some (if b <? a then 1 else 0)
  end.

Fixpoint eval (σ : state) (e : expr) : option Z :=
  match e with
  | Var x => vars σ x
  | Lit z => Some (wrap z)
  | Bin op a b =>
      match eval σ a, eval σ b with
      | Some va, Some vb => eval_binop op va vb
      | _, _ => None
      end
  | Paren e' => eval σ e'
  | Cond c a b =>
      match eval σ c with
      | Some vc => if vc =? 0 then eval σ b else eval σ a
      | None => None
      end
  end.

(** [dst[di] = src[si]] *)
Definition copy (dst : string) (di : Z) (src : string) (si : Z) (σ : state)
  : outcome state :=
  match mem σ src with
  | Some cells =>
      match cells !! Z.to_nat si with
      | Some (Some x) =>
          match mem σ dst with
          | Some cells' =>
              if Z.to_nat di <? length cells'
              then Done (log (mv dst di src si)
                           (set_mem dst (<[Z.to_nat di := Some x]> cells') σ))
              else Fault
          | None => Fault
          end
      | _ => Fault
      end
  | None => Fault
  end%nat.

(** Statements in sequence, stopping at the first that does not finish. *)
Fixpoint exec_seq (ex : stmt → state → outcome state) (ss : list stmt) (σ : state)
  : outcome state :=
  match ss with
  | [] => Done σ
  | s :: ss' =>
      match ex s σ with
      | Done σ' => exec_seq ex ss' σ'
      | r => r
      end
  end.

(** [for (...; v < bound; v++) body], entered after [v = 0]: test, body,
    increment, at most [k] times. *)
Fixpoint iterate (body : state → outcome state) (v : string) (bound : expr)
  (k : nat) (σ : state) : outcome state :=
  match k with
  | O => OutOfFuel
  | S k' =>
      match vars σ v, eval σ bound with
      | Some i, Some n =>
          if i <? n then
            match body σ with
            | Done σ' =>
                match vars σ' v with
                | Some i' => iterate body v bound k' (set_var v (wrap (i' + 1)) σ')
                | None => Fault
                end
            | r => r
            end
          else Done σ
      | _, _ => Fault
      end
  end.

Fixpoint exec (fuel : nat) (s : stmt) (σ : state) : outcome state :=
  match fuel with
  | O => OutOfFuel
  | S fuel' =>
      match s with
      | Comment _ => Done σ
      | Blank => Done σ
      | DeclArray x len =>
          if len <? 0 then Fault
          else Done (set_mem x (replicate (Z.to_nat len) None) σ)
      | Decl _ x e =>
          match eval σ e with
          | Some v => Done (set_var x v σ)
          | None => Fault
          end
      | AddAssign x e =>
          match vars σ x, eval σ e with
          | Some a, Some b => Done (set_var x (wrap (a + b)) σ)
          | _, _ => Fault
          end
      | Copy dst di src si =>
          match eval σ di, eval σ si with
          | Some vd, Some vs => copy dst vd src vs σ
          | _, _ => Fault
          end
      | For v bound body =>
          iterate (exec_seq (exec fuel') body) v bound fuel' (set_var v 0 σ)
      end
  end.

Definition exec_body (fuel : nat) : list stmt → state → outcome state :=
  exec_seq (exec fuel).

(** *** Calls *)

Inductive arg : Type :=
| ASize (z : Z)
| AInt (z : Z)
| ABuf (cells : list (option A)).

Definition empty_state : state := mkstate (λ _, None) (λ _, None) [].

Fixpoint bind_params (ps : list (ctype * string)) (args : list arg) (σ : state)
  : option state :=
  match ps, args with
  | [], [] => Some σ
  | (SizeT, x) :: ps', ASize z :: args' =>
      if (0 <=? z) && (z <? size_mod) then bind_params ps' args' (set_var x z σ) else None
  | (ConstInt, x) :: ps', AInt z :: args' =>
      if (- 2 ^ 31 <=? z) && (z <? 2 ^ 31) then bind_params ps' args' (set_var x z σ)
      else None
  | (ConstDoublePtr, x) :: ps', ABuf cells :: args' =>
      bind_params ps' args' (set_mem x cells σ)
  | (DoublePtr, x) :: ps', ABuf cells :: args' =>
      bind_params ps' args' (set_mem x cells σ)
  | _, _ => None
  end.

(** A call of [f]: the parameters are bound, then the body runs. *)
Definition run (fuel : nat) (f : func) (args : list arg) : outcome state :=
  match bind_params (f_params f) args empty_state with
  | Some σ => exec_body fuel (f_body f) σ
  | None => Fault
  end.

(** The array a finished call leaves under a name. *)
Definition result_of (r : outcome state) (x : string) : option (list (option A)) :=
  match r with
  | Done σ => mem σ x
  | _ => None
  end.

Definition trace_of (r : outcome state) : option (list move) :=
  match r with
  | Done σ => Some (trace σ)
  | _ => None
  end.

End WithElements.
Arguments state : clear implicits.
Arguments arg : clear implicits.

End Exec.

(** ** Finished runs

    A statement or a body finishes in a state when some amount of fuel takes
    it there. *)

Module ExecRuns.
Import Kernel Exec.

Section WithElements.
Context {A : Type}.
Implicit Types (σ : state A) (s : stmt) (ss : list stmt).

Definition steps s σ σ' : Prop := ∃ fuel, exec fuel s σ = Done σ'.

Definition runs ss σ σ' : Prop := ∃ fuel, exec_body fuel ss σ = Done σ'.

End WithElements.

(** An outcome that more fuel cannot change. *)
Definition settled {A : Type} (r : outcome (state A)) : Prop := r ≠ OutOfFuel.

End ExecRuns.

(** ** States a run passes through

    The states in which a loop tests its bound, and the states in which a
    run comes to a statement of a body, be it inside loops. *)

Module Passes.
Import Kernel Exec ExecRuns.

Section WithElements.
Context {A : Type}.
Implicit Types (σ : state A) (s : stmt) (ss : list stmt).

(** [heads v bound body σ σh]: the loop [For v bound body], entered in [σ],
    tests its bound in [σh]: first after [v = 0], then after each turn of
    the body and [v++]. *)
Inductive heads (v : string) (bound : expr) (body : list stmt) σ : state A → Prop :=
| heads_first : heads v bound body σ (set_var v 0 σ)
| heads_next σh σ' i n i' :
    heads v bound body σ σh →
    vars σh v = Some i → eval σh bound = Some n → i < n →
    runs body σh σ' → vars σ' v = Some i' →
    heads v bound body σ (set_var v (wrap (i' + 1)) σ').

(** [reaches ss σ s σ1]: the run of [ss] from [σ] comes to [s] in [σ1],
    either as one of the statements of [ss] or inside a turn of one of its
    loops. *)
Inductive reaches : list stmt → state A → stmt → state A → Prop :=
| reaches_here pre s post σ σ1 :
    runs pre σ σ1 → reaches (pre ++ s :: post) σ s σ1
| reaches_inside pre v bound body post σ σl σh i n s σ1 :
    runs pre σ σl → heads v bound body σl σh →
    vars σh v = Some i → eval σh bound = Some n → i < n →
    reaches body σh s σ1 →
    reaches (pre ++ For v bound body :: post) σ s σ1.

End WithElements.

End Passes.

(** ** What a finished kernel leaves in memory *)

Module Layout.
Import Exec.

Section WithElements.
Context {A : Type}.
Implicit Types (old new src : list (option A)) (P : Z → Z → Prop) (f g : Z → Z → Z).

(** [new] is [old] with, for every pair in [P], the cell at [f x y]
    replaced by the cell of [src] at [g x y]. *)
Definition written_as P f g old new src : Prop :=
  length new = length old ∧
  (∀ x y, P x y → new !! Z.to_nat (f x y) = src !! Z.to_nat (g x y)) ∧
  (∀ p, (∀ x y, P x y → Z.to_nat (f x y) ≠ p) → new !! p = old !! p).

(** Every position of an [n]-by-[m] matrix. *)
Definition everywhere (n m : Z) : Z → Z → Prop := λ i j, 0 ≤ i < n ∧ 0 ≤ j < m.

(** [out] is [out0] with the transpose of the row-major [n]-by-[m] matrix
    [X] stored row-major over its first [n * m] cells. *)
Definition transposed (n m : Z) (X : list A) (out0 out : list (option A)) : Prop :=
  written_as (everywhere n m) (λ i j, j * n + i) (λ i j, i * m + j) out0 out (Some <$> X).

End WithElements.

End Layout.

(** ** The element moves the kernels are to perform *)

Module Moves.
Import Exec.

(** Row by row, [output[j*n + i] = input[i*m + j]]. *)
Definition naive_row (n m i : Z) : list move :=
  (λ j, mv "output" (j * n + i) "input" (i * m + j)) <$> seqZ 0 m.

Definition naive_moves (n m : Z) : list move := flat_map (naive_row n m) (seqZ 0 n).

(** Row by row, [output[i*os + j] = input[i*is + j]]. *)
Definition block_copy_row (m is_ os_ i : Z) : list move :=
  (λ j, mv "output" (i * os_ + j) "input" (i * is_ + j)) <$> seqZ 0 m.

Definition block_copy_moves (n m is_ os_ : Z) : list move :=
  flat_map (block_copy_row m is_ os_) (seqZ 0 n).

(** The tile at origin [(nstart, mstart)], clamped to [nremain] rows and
    [mremain] columns: gathered into [tmp] transposed, then scattered. *)
Definition gather_row (m t nstart mstart mremain l : Z) : list move :=
  (λ k, mv "tmp" (k * t + l) "input" ((nstart + l) * m + mstart + k)) <$> seqZ 0 mremain.

Definition gather_moves (m t nstart nremain mstart mremain : Z) : list move :=
  flat_map (gather_row m t nstart mstart mremain) (seqZ 0 nremain).

Definition scatter_row (n t nstart nremain mstart k : Z) : list move :=
  (λ l, mv "output" ((mstart + k) * n + nstart + l) "tmp" (k * t + l)) <$> seqZ 0 nremain.

Definition scatter_moves (n t nstart nremain mstart mremain : Z) : list move :=
  flat_map (scatter_row n t nstart nremain mstart) (seqZ 0 mremain).

Definition remain (t dim start : Z) : Z := Z.min t (dim - start).

Definition tile_moves (n m t nb mb : Z) : list move :=
  let nstart := nb * t in
  let mstart := mb * t in
  gather_moves m t nstart (remain t n nstart) mstart (remain t m mstart)
  ++ scatter_moves n t nstart (remain t n nstart) mstart (remain t m mstart).

(** Number of tiles along a dimension. *)
Definition blocks (t dim : Z) : Z := dim / t + (if dim mod t =? 0 then 0 else 1).

Definition tile_row_moves (n m t nb : Z) : list move :=
  flat_map (tile_moves n m t nb) (seqZ 0 (blocks t m)).

Definition fast_moves (n m t : Z) : list move :=
  flat_map (tile_row_moves n m t) (seqZ 0 (blocks t n)).

(** A gather move fills [tmp] from [input], a scatter move empties it into
    [output]; either way the index into [tmp] is below [t * t]. *)
Definition tile_move (t : Z) (e : move) : Prop :=
  (to e = "tmp" ∧ from e = "input" ∧ 0 ≤ to_idx e < t * t)
  ∨ (to e = "output" ∧ from e = "tmp" ∧ 0 ≤ from_idx e < t * t).

End Moves.

(** ** Loop invariants of the kernels

    What holds of the state of a kernel at the head of each of its loops: the
    parameters as passed, the counters, the part of the output written so
    far and the copies logged so far. *)

Module NaiveTransposeInv.
Import Kernel Exec ExecRuns Layout Moves.

Section Run.
Context {A : Type}.
Variables (n m : Z) (X : list A) (out0 : list (option A)).

Definition base (σ : state A) : Prop :=
  vars σ "n" = Some n ∧ vars σ "m" = Some m ∧ mem σ "input" = Some (Some <$> X).

Definition done_to (i j : Z) : Z → Z → Prop :=
  λ i' j', 0 ≤ i' < n ∧ 0 ≤ j' < m ∧ (i' < i ∨ (i' = i ∧ j' < j)).

Definition inner_inv (i j : Z) (σ : state A) : Prop :=
  base σ ∧ vars σ "i" = Some i ∧ vars σ "j" = Some j ∧
  ∃ out, mem σ "output" = Some out ∧
         written_as (done_to i j) (λ i j, j * n + i) (λ i j, i * m + j) out0 out (Some <$> X) ∧
         trace σ = flat_map (naive_row n m) (seqZ 0 i)
                   ++ ((λ j, mv "output" (j * n + i) "input" (i * m + j)) <$> seqZ 0 j).

Definition outer_inv (i : Z) (σ : state A) : Prop :=
  base σ ∧ vars σ "i" = Some i ∧
  ∃ out, mem σ "output" = Some out ∧
         written_as (done_to i 0) (λ i j, j * n + i) (λ i j, i * m + j) out0 out (Some <$> X) ∧
         trace σ = flat_map (naive_row n m) (seqZ 0 i).

End Run.

End NaiveTransposeInv.

Module BlockCopyInv.
Import Kernel Exec ExecRuns Layout Moves.

Section Run.
Context {A : Type}.
Variables (n m is_ os_ : Z) (X : list A) (out0 : list (option A)).

Definition base (σ : state A) : Prop :=
  vars σ "n" = Some n ∧ vars σ "m" = Some m ∧
  vars σ "is" = Some is_ ∧ vars σ "os" = Some os_ ∧
  mem σ "input" = Some (Some <$> X).

Definition done_to (i j : Z) : Z → Z → Prop :=
  λ i' j', 0 ≤ i' < n ∧ 0 ≤ j' < m ∧ (i' < i ∨ (i' = i ∧ j' < j)).

(** The output so far: same length, and, when rows do not overlap, the
    copied cells in place and every other cell untouched. *)
Definition out_inv (i j : Z) (σ : state A) : Prop :=
  ∃ out, mem σ "output" = Some out ∧ length out = length out0 ∧
         (m ≤ os_ →
          written_as (done_to i j) (λ i j, i * os_ + j) (λ i j, i * is_ + j)
                     out0 out (Some <$> X)).

Definition inner_inv (i j : Z) (σ : state A) : Prop :=
  base σ ∧ vars σ "i" = Some i ∧ vars σ "j" = Some j ∧
  vars σ "out_shift" = Some (wrap (i * os_)) ∧
  vars σ "inp_shift" = Some (wrap (i * is_)) ∧
  out_inv i j σ ∧
  trace σ = flat_map (block_copy_row m is_ os_) (seqZ 0 i)
            ++ ((λ j, mv "output" (i * os_ + j) "input" (i * is_ + j)) <$> seqZ 0 j).

Definition outer_inv (i : Z) (σ : state A) : Prop :=
  base σ ∧ vars σ "i" = Some i ∧ out_inv i 0 σ ∧
  trace σ = flat_map (block_copy_row m is_ os_) (seqZ 0 i).

End Run.

End BlockCopyInv.

Module FastTransposeInv.
Import Kernel Exec ExecRuns Layout Moves.

Section Run.
Context {A : Type}.
Implicit Types σ : state A.
Variables (n m t : Z) (X : list A) (out0 : list (option A)).

Definition consts σ : Prop :=
  vars σ "n" = Some n ∧ vars σ "m" = Some m ∧
  vars σ "nblocks" = Some (blocks t n) ∧ vars σ "mblocks" = Some (blocks t m) ∧
  mem σ "input" = Some (Some <$> X).

(** Inside the tile [(nb, mb)]. *)
Definition counters (nb mb : Z) σ : Prop :=
  vars σ "nb" = Some nb ∧ vars σ "mb" = Some mb.

Definition tile_ctx (nb mb : Z) σ : Prop :=
  consts σ ∧ counters nb mb σ ∧
  vars σ "nstart" = Some (nb * t) ∧ vars σ "nremain" = Some (remain t n (nb * t)) ∧
  vars σ "mstart" = Some (mb * t) ∧ vars σ "mremain" = Some (remain t m (mb * t)).

Definition out_as (P : Z → Z → Prop) σ : Prop :=
  ∃ out, mem σ "output" = Some out ∧
         written_as P (λ i j, j * n + i) (λ i j, i * m + j) out0 out (Some <$> X).

(** [tmp] holds, transposed, the cells of tile [(nb, mb)] listed by [Q]. *)
Definition staged (nb mb : Z) (Q : Z → Z → Prop) σ : Prop :=
  ∃ tmp, mem σ "tmp" = Some tmp ∧ length tmp = Z.to_nat (t * t) ∧
         ∀ l k, Q l k →
                tmp !! Z.to_nat (k * t + l)
                = (Some <$> X) !! Z.to_nat ((nb * t + l) * m + mb * t + k).

Definition tmp_ok σ : Prop :=
  ∃ tmp, mem σ "tmp" = Some tmp ∧ length tmp = Z.to_nat (t * t).

(** Regions of the matrix already in place in [output]. *)
Definition rows_done (nb : Z) : Z → Z → Prop :=
  λ i j, 0 ≤ i < n ∧ 0 ≤ j < m ∧ i < nb * t.

Definition scattered (nb mb k l : Z) : Z → Z → Prop :=
  λ i j, 0 ≤ i < n ∧ 0 ≤ j < m ∧
         (i < nb * t ∨
          (nb * t ≤ i < nb * t + t ∧
           (j < mb * t + k ∨ (j = mb * t + k ∧ i < nb * t + l)))).

Definition tiles_done (nb mb : Z) : Z → Z → Prop := scattered nb mb 0 0.

(** Cells of the tile already in [tmp]. *)
Definition gathered (nb mb l k : Z) : Z → Z → Prop :=
  λ l' k', 0 ≤ l' < remain t n (nb * t) ∧ 0 ≤ k' < remain t m (mb * t) ∧
           (l' < l ∨ (l' = l ∧ k' < k)).

Definition whole_tile (nb mb : Z) : Z → Z → Prop :=
  λ l' k', 0 ≤ l' < remain t n (nb * t) ∧ 0 ≤ k' < remain t m (mb * t).

(** *** Gather *)

Definition gather_k_inv (T : list move) (nb mb l k : Z) σ : Prop :=
  tile_ctx nb mb σ ∧ vars σ "l" = Some l ∧ vars σ "k" = Some k ∧
  vars σ "start" = Some ((nb * t + l) * m + mb * t) ∧
  out_as (tiles_done nb mb) σ ∧ staged nb mb (gathered nb mb l k) σ ∧
  trace σ = (T ++ flat_map (gather_row m t (nb * t) (mb * t) (remain t m (mb * t)))
                           (seqZ 0 l))
            ++ ((λ k, mv "tmp" (k * t + l) "input" ((nb * t + l) * m + mb * t + k))
                  <$> seqZ 0 k).

Definition gather_l_inv (T : list move) (nb mb l : Z) σ : Prop :=
  tile_ctx nb mb σ ∧ vars σ "l" = Some l ∧
  out_as (tiles_done nb mb) σ ∧ staged nb mb (gathered nb mb l 0) σ ∧
  trace σ = T ++ flat_map (gather_row m t (nb * t) (mb * t) (remain t m (mb * t)))
                          (seqZ 0 l).

(** *** Scatter *)

Definition scatter_l_inv (T : list move) (nb mb k l : Z) σ : Prop :=
  tile_ctx nb mb σ ∧ vars σ "k" = Some k ∧ vars σ "l" = Some l ∧
  vars σ "start" = Some ((mb * t + k) * n + nb * t) ∧
  out_as (scattered nb mb k l) σ ∧ staged nb mb (whole_tile nb mb) σ ∧
  trace σ = (T ++ flat_map (scatter_row n t (nb * t) (remain t n (nb * t)) (mb * t))
                           (seqZ 0 k))
            ++ ((λ l, mv "output" ((mb * t + k) * n + nb * t + l) "tmp" (k * t + l))
                  <$> seqZ 0 l).

Definition scatter_k_inv (T : list move) (nb mb k : Z) σ : Prop :=
  tile_ctx nb mb σ ∧ vars σ "k" = Some k ∧
  out_as (scattered nb mb k 0) σ ∧ staged nb mb (whole_tile nb mb) σ ∧
  trace σ = T ++ flat_map (scatter_row n t (nb * t) (remain t n (nb * t)) (mb * t))
                          (seqZ 0 k).

(** *** Tiles *)

Definition mb_inv (T : list move) (nb mb : Z) σ : Prop :=
  consts σ ∧ counters nb mb σ ∧ vars σ "nstart" = Some (nb * t) ∧
  (∃ v, vars σ "nremain" = Some v ∧ (0 < m → v = remain t n (nb * t))) ∧
  out_as (tiles_done nb mb) σ ∧ tmp_ok σ ∧
  trace σ = T ++ flat_map (tile_moves n m t nb) (seqZ 0 mb).

Definition nb_inv (nb : Z) σ : Prop :=
  consts σ ∧ vars σ "nb" = Some nb ∧ out_as (rows_done nb) σ ∧ tmp_ok σ ∧
  trace σ = flat_map (tile_row_moves n m t) (seqZ 0 nb).

End Run.

End FastTransposeInv.

(** ** The gather of one tile

    What holds at the head of the two loops of the gather, started in any
    state in which the tile is set up: [tmp0] is what the staging buffer held
    before, [out] the output buffer, [T] the copies logged before. *)

Module GatherInv.
Import Kernel Exec ExecRuns Layout Moves.

Section Run.
Context {A : Type}.
Implicit Types σ : state A.
Variables (m t nstart nremain mstart mremain : Z) (X : list A).
Variables (tmp0 : list (option A)) (out : option (list (option A))) (T : list move).

(** The variables the gather reads and the arrays it leaves alone. *)
Definition tile_set σ : Prop :=
  vars σ "m" = Some m ∧
  vars σ "nstart" = Some nstart ∧ vars σ "nremain" = Some nremain ∧
  vars σ "mstart" = Some mstart ∧ vars σ "mremain" = Some mremain ∧
  mem σ "input" = Some (Some <$> X) ∧ mem σ "output" = out.

(** [tmp] is [tmp0] with the cells of the tile listed by [Q] stored
    transposed: cell [(l, k)] of the tile at [k * t + l]. *)
Definition staged (Q : Z → Z → Prop) σ : Prop :=
  ∃ tmp, mem σ "tmp" = Some tmp ∧
         written_as Q (λ l k, k * t + l) (λ l k, (nstart + l) * m + mstart + k)
                    tmp0 tmp (Some <$> X).

Definition gathered (l k : Z) : Z → Z → Prop :=
  λ l' k', 0 ≤ l' < nremain ∧ 0 ≤ k' < mremain ∧ (l' < l ∨ (l' = l ∧ k' < k)).

Definition whole_tile : Z → Z → Prop := λ l k, 0 ≤ l < nremain ∧ 0 ≤ k < mremain.

Definition gather_k_inv (l k : Z) σ : Prop :=
  tile_set σ ∧ vars σ "l" = Some l ∧ vars σ "k" = Some k ∧
  vars σ "start" = Some ((nstart + l) * m + mstart) ∧
  staged (gathered l k) σ ∧
  trace σ = (T ++ flat_map (gather_row m t nstart mstart mremain) (seqZ 0 l))
            ++ ((λ k, mv "tmp" (k * t + l) "input" ((nstart + l) * m + mstart + k))
                  <$> seqZ 0 k).

Definition gather_l_inv (l : Z) σ : Prop :=
  tile_set σ ∧ vars σ "l" = Some l ∧
  staged (gathered l 0) σ ∧
  trace σ = T ++ flat_map (gather_row m t nstart mstart mremain) (seqZ 0 l).

End Run.

End GatherInv.

(** ** Names a kernel never mentions do not matter *)

Module Unused.
Import Kernel Exec.

Fixpoint expr_mentions (x : string) (e : expr) : bool :=
  match e with
  | Var y => String.eqb x y
  | Lit _ => false
  | Bin _ a b => expr_mentions x a || expr_mentions x b
  | Paren e' => expr_mentions x e'
  | Cond c a b => expr_mentions x c || expr_mentions x a || expr_mentions x b
  end.

(** [x] occurs in [s]: read in an expression, declared, assigned, used as a
    loop counter or as an array name. *)
Fixpoint mentions (x : string) (s : stmt) : bool :=
  match s with
  | Comment _ => false
  | Blank => false
  | DeclArray y _ => String.eqb x y
  | Decl _ y e => String.eqb x y || expr_mentions x e
  | AddAssign y e => String.eqb x y || expr_mentions x e
  | Copy dst di src si =>
      String.eqb x dst || expr_mentions x di || String.eqb x src || expr_mentions x si
  | For v bound body =>
      String.eqb x v || expr_mentions x bound || existsb (mentions x) body
  end.

(** [s] holds a copy out of the array [x] into [x] itself. *)
Fixpoint copies_within (x : string) (s : stmt) : bool :=
  match s with
  | Copy dst _ src _ => String.eqb x dst && String.eqb x src
  | For _ _ body => existsb (copies_within x) body
  | _ => false
  end.

Section WithElements.
Context {A : Type}.
Implicit Types σ : state A.
Variable x : string.

(** Equal except for the value of the variable [x]. *)
Definition agree σ1 σ2 : Prop :=
  (∀ y, y ≠ x → vars σ1 y = vars σ2 y) ∧ (∀ a, mem σ1 a = mem σ2 a)
  ∧ trace σ1 = trace σ2.

Definition sim (r1 r2 : outcome (state A)) : Prop :=
  match r1, r2 with
  | Done σ1, Done σ2 => agree σ1 σ2
  | Fault, Fault => True
  | OutOfFuel, OutOfFuel => True
  | _, _ => False
  end.

End WithElements.

End Unused.

(** ** The emitted wrappers as syntax

    The pybind11 wrappers are straight-line C++: views taken on the array
    arguments, guarded [throw]s, the computation of [nsize], one call. *)

Module Wrapper.

Inductive binop : Type := Add | Mul | Div.

Inductive expr : Type :=
| Var (x : string)
| Int (z : Z)
| Shape (obj : string) (dim : Z)
| Data (obj : string) (idx : list Z)
| MutData (obj : string) (idx : list Z)
| Bin (op : binop) (a b : expr)
| Paren (e : expr).

Inductive cmp : Type := Gt | Ne.

Inductive exn : Type := invalid_argument | length_error.

Inductive stmt : Type :=
| Comment (text : string)
| Blank
| Auto (x obj : string) (mutable : bool) (ndim : Z)
| DeclSize (x : string) (init : option expr)
| Check (a : expr) (c : cmp) (b : expr) (e : exn) (msg : string)
| IfElseAssign (cond x : string) (e1 e2 : expr)
| Call (f : string) (args : list expr).

Inductive wtype : Type := TInt | TBool | TArray.

(** A parameter; [p_break] says that the signature breaks the line before it. *)
Record param : Type := mkparam { p_type : wtype; p_name : string; p_break : bool }.

Record func : Type := mkfunc {
  f_name : string;
  f_params : list param;
  f_body : list stmt;
  f_blank_after_sig : bool
}.

(** *** Rendering *)

Fixpoint join (sep : string) (l : list string) : string :=
  match l with
  | [] => ""
  | [a] => a
  | a :: l' => a +:+ sep +:+ join sep l'
  end.

Definition render_binop (op : binop) : string :=
  match op with Add => " + " | Mul => " * " | Div => " / " end.

Fixpoint render_expr (e : expr) : string :=
  match e with
  | Var x => x
  | Int z => fmt_d z
  | Shape obj dim => obj +:+ ".shape(" +:+ fmt_d dim +:+ ")"
  | Data obj idx => obj +:+ ".data(" +:+ join ", " (fmt_d <$> idx) +:+ ")"
  | MutData obj idx => obj +:+ ".mutable_data(" +:+ join ", " (fmt_d <$> idx) +:+ ")"
  | Bin op a b => render_expr a +:+ render_binop op +:+ render_expr b
  | Paren e' => "(" +:+ render_expr e' +:+ ")"
  end.

Definition render_cmp (c : cmp) : string :=
  match c with Gt => " > " | Ne => " != " end.

Definition render_exn (e : exn) : string :=
  match e with invalid_argument => "invalid_argument" | length_error => "length_error" end.

Definition emit_stmt (s : stmt) : list call :=
  match s with
  | Comment text => [Write ("// " +:+ text) None]
  | Blank => [Blankline]
  | Auto x obj mutable ndim =>
      [Write ("auto " +:+ x +:+ " = " +:+ obj +:+
              (if mutable then ".mutable_unchecked<" else ".unchecked<") +:+
              fmt_d ndim +:+ ">()") None]
  | DeclSize x None => [Write ("size_t " +:+ x) None]
  | DeclSize x (Some e) => [Write ("size_t " +:+ x +:+ " = " +:+ render_expr e) None]
  | Check a c b e msg =>
      [ StartCBlock ("if (" +:+ render_expr a +:+ render_cmp c +:+ render_expr b +:+ ")");
        Write ("    throw std::" +:+ render_exn e +:+ "(" +:+ dq +:+ msg +:+ dq +:+ ")") None;
        CloseCBlock ]
  | IfElseAssign cond x e1 e2 =>
      [ StartCBlock ("if (" +:+ cond +:+ ")");
        Write ("    " +:+ x +:+ " = " +:+ render_expr e1) None;
        Write "} else {" (Some "");
        Write ("    " +:+ x +:+ " = " +:+ render_expr e2) None;
        CloseCBlock ]
  | Call f args => [Write (f +:+ "(" +:+ join ", " (render_expr <$> args) +:+ ")") None]
  end.

Definition render_wtype (ty : wtype) : string :=
  match ty with TInt => "int" | TBool => "bool" | TArray => "py::array_t<double>" end.

Definition render_param (p : param) : string := render_wtype (p_type p) +:+ " " +:+ p_name p.

Fixpoint render_more_params (ps : list param) : string :=
  match ps with
  | [] => ""
  | p :: ps' =>
      (if p_break p then "," +:+ nl else ", ") +:+ render_param p +:+ render_more_params ps'
  end.

Definition render_params (ps : list param) : string :=
  match ps with
  | [] => ""
  | p :: ps' => render_param p +:+ render_more_params ps'
  end.

Definition render_sig (f : func) : string :=
  "void " +:+ f_name f +:+ "(" +:+ render_params (f_params f) +:+ ")".

Definition emit (f : func) : list call :=
  StartCBlock (render_sig f)
  :: (if f_blank_after_sig f then [Blankline] else [])
  ++ flat_map emit_stmt (f_body f) ++ [CloseCBlock].

(** *** The two wrappers *)

Definition deriv_param (cart : string) : param :=
  mkparam TArray ("arr_" +:+ cart +:+ "_out") false.

Definition deriv_view (cart : string) : stmt :=
  Auto ("out_" +:+ cart) ("arr_" +:+ cart +:+ "_out") true 2.

Definition rows_check (cart : string) : stmt :=
  Check (Shape ("out_" +:+ cart) 0) Ne (Var "nsize") length_error
        ("Size of the output " +:+ upper cart +:+
         " array does not match the angular momentum.\n").

Definition cols_check (cart : string) : stmt :=
  Check (Shape ("out_" +:+ cart) 1) Ne (Shape "arr_xyz" 1) length_error
        ("Size of the output " +:+ upper cart +:+
         " array and XYZ array must be the same.\n").

Definition deriv_pointer (cart : string) : expr := MutData ("out_" +:+ cart) [0; 0].

Definition order_check (max_L : Z) : stmt :=
  Check (Var "L") Gt (Int max_L) invalid_argument
        ("Exceeded compiled angular momentum of " +:+ fmt_d max_L +:+
         ". Please recompile with a higher angular momentum.\n").

Definition nsize_spherical : expr := Bin Add (Bin Mul (Int 2) (Var "L")) (Int 1).

Definition nsize_cartesian : expr :=
  Bin Div (Paren (Bin Mul (Paren (Bin Add (Var "L") (Int 2)))
                          (Paren (Bin Add (Var "L") (Int 1)))))
          (Int 2).

Definition kernel_args (deriv_indices : list string) : list expr :=
  [ Var "L"; Shape "xyz" 1;
    Data "xyz" [0; 0]; Data "xyz" [1; 0]; Data "xyz" [2; 0];
    Shape "coeffs" 0; Data "coeffs" [0]; Data "exponents" [0];
    Data "center" [0];
    Var "spherical";
    MutData "out" [0; 0] ]
  ++ (deriv_pointer <$> deriv_indices).

Definition pybind11_func_fn (deriv_indices : list string)
  (name call_name : string) (max_L : Z) : func :=
  mkfunc name
    ([ mkparam TInt "L" false; mkparam TArray "arr_xyz" false;
       mkparam TArray "arr_coeffs" false; mkparam TArray "arr_exponents" true;
       mkparam TArray "arr_center" false; mkparam TBool "spherical" false;
       mkparam TArray "arr_out" true ]
     ++ (deriv_param <$> deriv_indices))
    ([ Comment "Grab array pointers";
       Auto "xyz" "arr_xyz" false 2;
       Auto "coeffs" "arr_coeffs" false 1;
       Auto "exponents" "arr_exponents" false 1;
       Auto "center" "arr_center" false 1;
       Auto "out" "arr_out" true 2 ]
     ++ (deriv_view <$> deriv_indices)
     ++ [ Blank;
          Comment "XYZ is of size 3";
          order_check max_L;
          Comment "XYZ is of size 3";
          Check (Shape "arr_xyz" 0) Ne (Int 3) length_error
                "Length of XYZ array must be (3, n).\n";
          Blank;
          Comment "Coeff matches exponent shape";
          Check (Shape "coeffs" 0) Ne (Shape "exponents" 0) length_error
                "Length of coefficients and exponents must match.\n";
          Blank;
          Comment "Center is of size 3";
          Check (Shape "center" 0) Ne (Int 3) length_error
                "Length of center vector must be 3 (X, Y, Z).\n";
          Blank;
          Comment "Make sure output length matches";
          DeclSize "nsize" None;
          IfElseAssign "spherical" "nsize" nsize_spherical nsize_cartesian;
          Blank;
          Check (Shape "out" 0) Ne (Var "nsize") length_error
                "Size of the output array does not match the angular momentum.\n" ]
     ++ (rows_check <$> deriv_indices)
     ++ [ Blank;
          Comment "Ensure lengths match";
          Check (Shape "out" 1) Ne (Shape "arr_xyz" 1) length_error
                "Size of the output array and XYZ array must be the same.\n" ]
     ++ (cols_check <$> deriv_indices)
     ++ [ Blank;
          Comment "Call the GG helper function";
          Call call_name (kernel_args deriv_indices) ])
    true.

Definition pybind11_transpose_fn (func_name wrapper_name : string) : func :=
  mkfunc wrapper_name
    [ mkparam TArray "arr_input" false; mkparam TArray "arr_output" false ]
    [ Auto "input" "arr_input" false 2;
      Auto "output" "arr_output" true 2;
      DeclSize "n" (Some (Shape "input" 0));
      DeclSize "m" (Some (Shape "input" 1));
      Blank;
      Comment "Check shapes";
      Check (Shape "input" 0) Ne (Shape "output" 1) length_error
            "Input tranpose shape 0 does not match output transpose shape 1.\n";
      Blank;
      Check (Shape "input" 1) Ne (Shape "output" 0) length_error
            "Input tranpose shape 1 does not match output transpose shape 0.\n";
      Blank;
      Call func_name [ Var "n"; Var "m"; Data "input" [0; 0]; MutData "output" [0; 0] ] ]
    false.

End Wrapper.

(** ** Execution of the emitted wrappers

    A wrapper is called with an [int], a [bool] and array arguments, given by
    parameter name; of an array only its shape matters here.  [int]
    arithmetic that leaves the range of [int] is undefined, a value stored in
    a [size_t] wraps, and a view of the wrong rank is outside the model
    (pybind11 raises a [std::domain_error] of its own from [unchecked<N>()]
    there, before any of the emitted checks). *)

Module WrapperExec.
Import Wrapper.

Inductive value : Type :=
| VInt (z : Z)
| VBool (b : bool)
| VPtr (base : string) (idx : list Z).

(** One call made by the wrapper. *)
Record invocation : Type := invoke { callee : string; actuals : list value }.

Record arguments : Type := mkargs {
  arg_int : string → Z;
  arg_bool : string → bool;
  arg_shape : string → list Z
}.

(** Variables in scope: integers, booleans, and arrays or views of arrays
    (the argument viewed, and its shape). *)
Record env : Type := mkenv {
  ints : string → option Z;
  bools : string → option bool;
  arrays : string → option (string * list Z)
}.

Inductive result : Type :=
| Next (e : env) (calls : list invocation)
| Raise (ex : exn) (msg : string) (calls : list invocation)
| Wrong.

Definition update {V : Type} (x : string) (v : option V) (f : string → option V)
  : string → option V :=
  λ y, if String.eqb x y then v else f y.

Definition int_ok (z : Z) : Prop := - 2 ^ 31 ≤ z < 2 ^ 31.

Definition int_okb (z : Z) : bool := (- 2 ^ 31 <=? z) && (z <? 2 ^ 31).

Definition eval_binop (op : binop) (a b : Z) : option Z :=
  let r := match op with
           | Add => Some (a + b)
           | Mul => Some (a * b)
           | Div => if b =? 0 then None else Some (Z.quot a b)
           end in
  match r with
  | Some z => if int_okb z then Some z else None
  | None => None
  end.

Fixpoint eval_int (e : env) (x : expr) : option Z :=
  match x with
  | Var y => ints e y
  | Int z => Some z
  | Shape obj dim =>
      match arrays e obj with
      | Some (_, shape) => if dim <? 0 then None else shape !! Z.to_nat dim
      | None => None
      end
  | Bin op a b =>
      match eval_int e a, eval_int e b with
      | Some va, Some vb => eval_binop op va vb
      | _, _ => None
      end
  | Paren x' => eval_int e x'
  | Data _ _ => None
  | MutData _ _ => None
  end.

Definition eval_pointer (e : env) (obj : string) (idx : list Z) : option value :=
  match arrays e obj with
  | Some (base, shape) =>
      if (length idx =? length shape)%nat then Some (VPtr base idx) else None
  | None => None
  end.

Definition eval_value (e : env) (x : expr) : option value :=
  match x with
  | Var y =>
      match ints e y, bools e y with
      | Some z, _ => Some (VInt z)
      | None, Some b => Some (VBool b)
      | None, None => None
      end
  | Data obj idx => eval_pointer e obj idx
  | MutData obj idx => eval_pointer e obj idx
  | _ => VInt <$> eval_int e x
  end.

Definition violated (c : cmp) (a b : Z) : bool :=
  match c with
  | Gt => b <? a
  | Ne => negb (a =? b)
  end.

Fixpoint eval_values (e : env) (xs : list expr) : option (list value) :=
  match xs with
  | [] => Some []
  | x :: xs' =>
      match eval_value e x, eval_values e xs' with
      | Some v, Some vs => Some (v :: vs)
      | _, _ => None
      end
  end.

Definition set_int (x : string) (z : option Z) (e : env) : env :=
  mkenv (update x z (ints e)) (bools e) (arrays e).

Definition set_array (x : string) (a : string * list Z) (e : env) : env :=
  mkenv (ints e) (bools e) (update x (Some a) (arrays e)).

Definition exec (s : stmt) (e : env) (calls : list invocation) : result :=
  match s with
  | Comment _ => Next e calls
  | Blank => Next e calls
  | Auto x obj _ ndim =>
      match arrays e obj with
      | Some (base, shape) =>
          if Z.of_nat (length shape) =? ndim then Next (set_array x (base, shape) e) calls
          else Wrong
      | None => Wrong
      end
  | DeclSize x None => Next (set_int x None e) calls
  | DeclSize x (Some init) =>
      match eval_int e init with
      | Some z => Next (set_int x (Some (Exec.wrap z)) e) calls
      | None => Wrong
      end
  | Check a c b ex msg =>
      match eval_int e a, eval_int e b with
      | Some va, Some vb => if violated c va vb then Raise ex msg calls else Next e calls
      | _, _ => Wrong
      end
  | IfElseAssign cond x e1 e2 =>
      match bools e cond with
      | Some b =>
          match eval_int e (if b then e1 else e2) with
          | Some z => Next (set_int x (Some (Exec.wrap z)) e) calls
          | None => Wrong
          end
      | None => Wrong
      end
  | Call f args =>
      match eval_values e args with
      | Some vs => Next e (calls ++ [invoke f vs])
      | None => Wrong
      end
  end.

Fixpoint run (ss : list stmt) (e : env) (calls : list invocation) : result :=
  match ss with
  | [] => Next e calls
  | s :: ss' =>
      match exec s e calls with
      | Next e' calls' => run ss' e' calls'
      | r => r
      end
  end.

Definition has_param (ty : wtype) (x : string) (ps : list param) : bool :=
  existsb (λ p, match p_type p, ty with
                | TInt, TInt | TBool, TBool | TArray, TArray => String.eqb (p_name p) x
                | _, _ => false
                end) ps.

(** The parameters bound to the arguments passed under their names. *)
Definition bind (ps : list param) (a : arguments) : env :=
  mkenv (λ x, if has_param TInt x ps then Some (arg_int a x) else None)
        (λ x, if has_param TBool x ps then Some (arg_bool a x) else None)
        (λ x, if has_param TArray x ps then Some (x, arg_shape a x) else None).

(** What a caller observes of a call of [f]. *)
Inductive observation : Type :=
| Returned (calls : list invocation)
| Threw (ex : exn) (msg : string) (calls : list invocation)
| Undefined.

Definition call (f : func) (a : arguments) : observation :=
  match run (f_body f) (bind (f_params f) a) [] with
  | Next _ calls => Returned calls
  | Raise ex msg calls => Threw ex msg calls
  | Wrong => Undefined
  end.

(** The checks of a body, in program order. *)
Definition checks (ss : list stmt) : list stmt :=
  List.filter (λ s, match s with Check _ _ _ _ _ => true | _ => false end) ss.

(** The calls of a body, in program order. *)
Definition calls_in (ss : list stmt) : list stmt :=
  List.filter (λ s, match s with Call _ _ => true | _ => false end) ss.



End WrapperExec.

(** ** The wrapper contracts

    The validation contracts of the kernel wrapper in the order in which they
    are to be enforced, and what a call is to do: raise on the first contract
    that fails, call the kernel once when none does. *)

Module Contract.
Import Wrapper WrapperExec.

Inductive buffer : Type := Primary | Derivative (tag : string).

Inductive contract : Type :=
| OrderSupported
| CoordsThreeRows
| CoeffsMatchExponents
| CenterLengthThree
| RowCount (b : buffer)
| PointCount (b : buffer).

Definition buffers (derivs : list string) : list buffer := Primary :: (Derivative <$> derivs).

Definition contracts (derivs : list string) : list contract :=
  [ OrderSupported; CoordsThreeRows; CoeffsMatchExponents; CenterLengthThree ]
  ++ (RowCount <$> buffers derivs) ++ (PointCount <$> buffers derivs).

(** The argument that carries a buffer. *)
Definition buffer_param (b : buffer) : string :=
  match b with
  | Primary => "arr_out"
  | Derivative tag => "arr_" +:+ tag +:+ "_out"
  end.

Definition dim (a : arguments) (x : string) (k : nat) : Z := default 0 (arg_shape a x !! k).

(** Rows an output buffer must have for an order. *)
Definition expected_rows (spherical : bool) (order : Z) : Z :=
  if spherical then 2 * order + 1 else ((order + 2) * (order + 1)) / 2.

Definition satisfied (max_L : Z) (a : arguments) (c : contract) : bool :=
  match c with
  | OrderSupported => arg_int a "L" <=? max_L
  | CoordsThreeRows => dim a "arr_xyz" 0 =? 3
  | CoeffsMatchExponents => dim a "arr_coeffs" 0 =? dim a "arr_exponents" 0
  | CenterLengthThree => dim a "arr_center" 0 =? 3
  | RowCount b =>
      dim a (buffer_param b) 0 =? expected_rows (arg_bool a "spherical") (arg_int a "L")
  | PointCount b => dim a (buffer_param b) 1 =? dim a "arr_xyz" 1
  end.

Definition first_violation (max_L : Z) (derivs : list string) (a : arguments)
  : option contract :=
  find (λ c, negb (satisfied max_L a c)) (contracts derivs).

(** The check the wrapper emits for a contract. *)
Definition check_of (max_L : Z) (c : contract) : stmt :=
  match c with
  | OrderSupported => order_check max_L
  | CoordsThreeRows =>
      Check (Shape "arr_xyz" 0) Ne (Int 3) length_error
            "Length of XYZ array must be (3, n).\n"
  | CoeffsMatchExponents =>
      Check (Shape "coeffs" 0) Ne (Shape "exponents" 0) length_error
            "Length of coefficients and exponents must match.\n"
  | CenterLengthThree =>
      Check (Shape "center" 0) Ne (Int 3) length_error
            "Length of center vector must be 3 (X, Y, Z).\n"
  | RowCount Primary =>
      Check (Shape "out" 0) Ne (Var "nsize") length_error
            "Size of the output array does not match the angular momentum.\n"
  | RowCount (Derivative tag) => rows_check tag
  | PointCount Primary =>
      Check (Shape "out" 1) Ne (Shape "arr_xyz" 1) length_error
            "Size of the output array and XYZ array must be the same.\n"
  | PointCount (Derivative tag) => cols_check tag
  end.

(** The exception a check throws. *)
Definition thrown (s : stmt) : exn * string :=
  match s with
  | Check _ _ _ ex msg => (ex, msg)
  | _ => (length_error, "")
  end.

(** The values the kernel is to receive, in order. *)
Definition kernel_values (derivs : list string) (a : arguments) : list value :=
  [ VInt (arg_int a "L"); VInt (dim a "arr_xyz" 1);
    VPtr "arr_xyz" [0; 0]; VPtr "arr_xyz" [1; 0]; VPtr "arr_xyz" [2; 0];
    VInt (dim a "arr_coeffs" 0); VPtr "arr_coeffs" [0]; VPtr "arr_exponents" [0];
    VPtr "arr_center" [0];
    VBool (arg_bool a "spherical");
    VPtr "arr_out" [0; 0] ]
  ++ ((λ tag, VPtr (buffer_param (Derivative tag)) [0; 0]) <$> derivs).

Definition wrapper_contract (max_L : Z) (derivs : list string) (call_name : string)
  (a : arguments) : observation :=
  match first_violation max_L derivs a with
  | Some c => Threw (thrown (check_of max_L c)).1 (thrown (check_of max_L c)).2 []
  | None => Returned [invoke call_name (kernel_values derivs a)]
  end.

(** Arguments of the right types: a small order, arrays of the ranks the
    wrapper views them at, extents within [ssize_t]. *)
Definition small_order (L : Z) : Prop := - 2 ^ 15 < L < 2 ^ 15.

Record well_typed (derivs : list string) (a : arguments) : Prop := mk_well_typed {
  wt_order : small_order (arg_int a "L");
  wt_xyz : length (arg_shape a "arr_xyz") = 2%nat;
  wt_coeffs : length (arg_shape a "arr_coeffs") = 1%nat;
  wt_exponents : length (arg_shape a "arr_exponents") = 1%nat;
  wt_center : length (arg_shape a "arr_center") = 1%nat;
  wt_buffers : ∀ b, b ∈ buffers derivs → length (arg_shape a (buffer_param b)) = 2%nat;
  wt_extents : ∀ x d, d ∈ arg_shape a x → 0 ≤ d < 2 ^ 63
}.


End Contract.

(** ** The views a wrapper takes of its derivative buffers *)

Module WrapperViews.
Import Wrapper WrapperExec Contract.

Section Run.
Variable a : arguments.
Abbreviation deriv_shape tag := (arg_shape a ("arr_" +:+ tag +:+ "_out")).

Definition add_view (e : env) (tag : string) : env :=
  set_array ("out_" +:+ tag) ("arr_" +:+ tag +:+ "_out", deriv_shape tag) e.

Definition with_views (l : list string) (e : env) : env := fold_left add_view l e.

End Run.

End WrapperViews.

(** ** The contract of the transpose wrapper *)

Module TransposeContract.
Import Wrapper WrapperExec Contract.

(** The two shape contracts in order, then the call of the transpose. *)
Definition transpose_contract (func_name : string) (a : arguments) : observation :=
  if negb (dim a "arr_input" 0 =? dim a "arr_output" 1) then
    Threw length_error "Input tranpose shape 0 does not match output transpose shape 1.\n" []
  else if negb (dim a "arr_input" 1 =? dim a "arr_output" 0) then
    Threw length_error "Input tranpose shape 1 does not match output transpose shape 0.\n" []
  else
    Returned [ invoke func_name
                 [ VInt (dim a "arr_input" 0); VInt (dim a "arr_input" 1);
                   VPtr "arr_input" [0; 0]; VPtr "arr_output" [0; 0] ] ].

Record well_typed (a : arguments) : Prop := mk_well_typed {
  wt_input : length (arg_shape a "arr_input") = 2%nat;
  wt_output : length (arg_shape a "arr_output") = 2%nat;
  wt_extents : ∀ x d, d ∈ arg_shape a x → 0 ≤ d < 2 ^ 63
}.

End TransposeContract.

(** ** Copies by target *)

Module Copies.
Import Exec.

(** The copies that write [output]. *)
Definition writes_output (e : move) : bool := String.eqb (to e) "output".

End Copies.

(** ** Calls without a defined behaviour

    A fault of the model stands for an operation to which C gives no meaning:
    an access outside an array, the read of a cell never written, a division
    by zero.  A call that reaches one has no defined behaviour, and what a
    compiled routine does on it is not determined by the program. *)

Module Behaviour.
Import Kernel Exec.

Definition undefined {A : Type} (f : func) (args : list (arg A)) : Prop :=
  ∃ fuel, run fuel f args = Fault.

End Behaviour.

(** * Sample inputs *)

(** An order-2 spherical call on five points, four primitives and output
    buffers of five rows. *)
Definition xyz35 : WrapperExec.arguments :=
  WrapperExec.mkargs (λ _, 2) (λ _, true)
    (λ x, if String.eqb x "arr_xyz" then [3; 5]
          else if String.eqb x "arr_coeffs" then [4]
          else if String.eqb x "arr_exponents" then [4]
          else if String.eqb x "arr_center" then [3]
          else [5; 5]).

(** An order-4 call in which the coordinates have two rows and the
    exponents outnumber the coefficients. *)
Definition xyz25_order4 : WrapperExec.arguments :=
  WrapperExec.mkargs (λ _, 4) (λ _, true)
    (λ x, if String.eqb x "arr_xyz" then [2; 5]
          else if String.eqb x "arr_coeffs" then [4]
          else if String.eqb x "arr_exponents" then [7]
          else if String.eqb x "arr_center" then [3]
          else [5; 5]).

(** A 2-by-3 matrix and an output buffer of six cells, none written yet. *)
Definition matrix_2x3 : list Z := [1; 2; 3; 4; 5; 6].

Definition blank_2x3 : list (option Z) := replicate 6 None.

(** An output buffer of two rows of stride 4. *)
Definition blank_2x4 : list (option Z) := replicate 8 None.

(** A 2-by-3 input and a 3-by-2 output. *)
Definition shapes_2x3 : WrapperExec.arguments :=
  WrapperExec.mkargs (λ _, 0) (λ _, false)
    (λ x, if String.eqb x "arr_input" then [2; 3] else [3; 2]).

(** A state set up for the gather, with tile size 2, of the last tile of a
    2-by-3 matrix (rows 0 and 1, column 2): the bounds of the tile, the
    input and a staging buffer of four cells, none written yet. *)
Definition last_tile_of_2x3 : Exec.state Z :=
  Exec.mkstate
    (λ x, if String.eqb x "m" then Some 3
          else if String.eqb x "nstart" then Some 0
          else if String.eqb x "nremain" then Some 2
          else if String.eqb x "mstart" then Some 2
          else if String.eqb x "mremain" then Some 1
          else None)
    (λ x, if String.eqb x "input" then Some (Some <$> matrix_2x3)
          else if String.eqb x "tmp" then Some (replicate 4 None)
          else None)
    [].


(** * Proofs *)

(** ** The generators issue the calls of the kernel trees *)

Lemma append_assoc (a b c : string) : (a +:+ b) +:+ c = a +:+ (b +:+ c).
Proof.
  induction a as [|x a IH]; [reflexivity|].
  change (String x ((a +:+ b) +:+ c) = String x (a +:+ b +:+ c)). by rewrite IH.
Qed.

Lemma naive_transpose_emits : naive_transpose = Kernel.emit Kernel.naive_transpose_fn.
Proof. reflexivity. Qed.

Lemma block_copy_emits : block_copy = Kernel.emit Kernel.block_copy_fn.
Proof. reflexivity. Qed.

Lemma fast_transpose_emits (t : Z) : fast_transpose t = Kernel.emit (Kernel.fast_transpose_fn t).
Proof.
  unfold fast_transpose, Kernel.emit, Kernel.fast_transpose_fn. cbn.
  change (fmt_d 1) with "1". change (fmt_d 0) with "0".
  generalize (fmt_d t) (fmt_d (t * t)). intros s s2.
  rewrite !append_assoc. reflexivity.
Qed.

(** ** The kernels on small matrices *)

Example naive_transpose_2x3 :
  Exec.result_of
    (Exec.run 50 Kernel.naive_transpose_fn
       [ Exec.ASize 2; Exec.ASize 3;
         Exec.ABuf (Some <$> [1; 2; 3; 4; 5; 6]); Exec.ABuf (replicate 6 None) ])
    "output"
  = Some (Some <$> [1; 4; 2; 5; 3; 6]).
Proof. vm_compute. reflexivity. Qed.

Example fast_transpose_3x5_tile2 :
  Exec.result_of
    (Exec.run 50 (Kernel.fast_transpose_fn 2)
       [ Exec.ASize 3; Exec.ASize 5;
         Exec.ABuf (Some <$> [1; 2; 3; 4; 5; 6; 7; 8; 9; 10; 11; 12; 13; 14; 15]);
         Exec.ABuf (replicate 15 None) ])
    "output"
  = Some (Some <$> [1; 6; 11; 2; 7; 12; 3; 8; 13; 4; 9; 14; 5; 10; 15]).
Proof. vm_compute. reflexivity. Qed.

(** ** Reasoning about executions *)

Module ExecFacts.
Import Kernel Exec ExecRuns.

Section WithElements.
Context {A : Type}.
Implicit Types (σ : state A) (s : stmt) (ss : list stmt).

(** *** More fuel never changes a finished run *)

Lemma exec_seq_mono (ex ex' : stmt → state A → outcome (state A)) ss σ σ' :
  (∀ s σ1 σ2, ex s σ1 = Done σ2 → ex' s σ1 = Done σ2) →
  exec_seq ex ss σ = Done σ' → exec_seq ex' ss σ = Done σ'.
Proof.
  intros Hex. revert σ. induction ss as [|s ss IH]; intros σ; simpl; [done|].
  destruct (ex s σ) as [σ1| |] eqn:E; try done.
  rewrite (Hex _ _ _ E). apply IH.
Qed.

Lemma iterate_mono (body body' : state A → outcome (state A)) v bound k k' σ σ' :
  (∀ σ1 σ2, body σ1 = Done σ2 → body' σ1 = Done σ2) →
  (k ≤ k')%nat →
  iterate body v bound k σ = Done σ' → iterate body' v bound k' σ = Done σ'.
Proof.
  intros Hb. revert k' σ. induction k as [|k IH]; intros k' σ Hk; simpl; [done|].
  destruct k' as [|k']; [lia|]. simpl.
  destruct (vars σ v) as [i|]; [|done].
  destruct (eval σ bound) as [n|]; [|done].
  destruct (i <? n); [|done].
  destruct (body σ) as [σ1| |] eqn:E; try done.
  rewrite (Hb _ _ E).
  destruct (vars σ1 v) as [i'|]; [|done].
  apply IH. lia.
Qed.

Lemma exec_mono fuel fuel' s σ σ' :
  (fuel ≤ fuel')%nat → exec fuel s σ = Done σ' → exec fuel' s σ = Done σ'.
Proof.
  revert fuel' s σ σ'. induction fuel as [|fuel IH]; intros fuel' s σ σ' Hle; [done|].
  destruct fuel' as [|fuel']; [lia|].
  destruct s; simpl; try done.
  apply iterate_mono; [|lia].
  intros σ1 σ2. apply exec_seq_mono. intros s1 σ3 σ4. apply IH. lia.
Qed.

Lemma exec_body_mono fuel fuel' ss σ σ' :
  (fuel ≤ fuel')%nat → exec_body fuel ss σ = Done σ' → exec_body fuel' ss σ = Done σ'.
Proof. intros Hle. apply exec_seq_mono. intros s σ1 σ2. by apply exec_mono. Qed.

Lemma runs_nil σ : runs [] σ σ.
Proof. by exists O. Qed.

Lemma runs_cons s ss σ σ1 σ' : steps s σ σ1 → runs ss σ1 σ' → runs (s :: ss) σ σ'.
Proof.
  intros [f1 H1] [f2 H2]. exists (f1 `max` f2)%nat. unfold exec_body. simpl.
  rewrite (exec_mono f1 _ _ _ _ (Nat.le_max_l _ _) H1).
  by apply (exec_body_mono f2); [lia|].
Qed.

Lemma runs_app ss1 ss2 σ σ1 σ' : runs ss1 σ σ1 → runs ss2 σ1 σ' → runs (ss1 ++ ss2) σ σ'.
Proof.
  revert σ. induction ss1 as [|s ss1 IH]; intros σ [f1 H1] H2.
  - unfold exec_body in H1. simpl in H1. by simplify_eq.
  - unfold exec_body in H1. simpl in H1.
    destruct (exec f1 s σ) as [σ2| |] eqn:E; try done.
    simpl. eapply runs_cons; [by exists f1|]. apply IH; [by exists f1|done].
Qed.

Lemma steps_comment text σ : steps (Comment text) σ σ.
Proof. by exists 1%nat. Qed.

Lemma steps_blank σ : steps Blank σ σ.
Proof. by exists 1%nat. Qed.

Lemma steps_decl_array x len σ :
  0 ≤ len → steps (DeclArray x len) σ (set_mem x (replicate (Z.to_nat len) None) σ).
Proof.
  intros Hlen. exists 1%nat. simpl.
  by destruct (Z.ltb_spec len 0); [lia|].
Qed.

Lemma steps_decl const x e v σ :
  eval σ e = Some v → steps (Decl const x e) σ (set_var x v σ).
Proof. intros He. exists 1%nat. simpl. by rewrite He. Qed.

Lemma steps_add_assign x e a b σ :
  vars σ x = Some a → eval σ e = Some b →
  steps (AddAssign x e) σ (set_var x (wrap (a + b)) σ).
Proof. intros Hx He. exists 1%nat. simpl. by rewrite Hx, He. Qed.

Lemma copy_done dst di src si σ cs cd x :
  mem σ src = Some cs → cs !! Z.to_nat si = Some (Some x) →
  mem σ dst = Some cd → (Z.to_nat di < length cd)%nat →
  copy dst di src si σ
  = Done (log (mv dst di src si) (set_mem dst (<[Z.to_nat di := Some x]> cd) σ)).
Proof.
  intros Hs Hx Hd Hlt. unfold copy. rewrite Hs, Hx, Hd.
  by destruct (Nat.ltb_spec (Z.to_nat di) (length cd)); [|lia].
Qed.

Lemma steps_copy dst di src si vd vs σ cs cd x :
  eval σ di = Some vd → eval σ si = Some vs →
  mem σ src = Some cs → cs !! Z.to_nat vs = Some (Some x) →
  mem σ dst = Some cd → (Z.to_nat vd < length cd)%nat →
  steps (Copy dst di src si) σ
        (log (mv dst vd src vs) (set_mem dst (<[Z.to_nat vd := Some x]> cd) σ)).
Proof.
  intros Hd Hs Hms Hx Hmd Hlt. exists 1%nat. simpl. rewrite Hd, Hs.
  by eapply copy_done.
Qed.

(** *** The counted loop

    [Inv i] describes the state at the loop test when the counter is [i].
    The counter and the bound are read afresh at every test, so the
    invariant has to determine both. *)

Lemma steps_for v bound body (N : Z) (Inv : Z → state A → Prop) σ :
  0 ≤ N < size_mod →
  Inv 0 (set_var v 0 σ) →
  (∀ i σi, 0 ≤ i ≤ N → Inv i σi → vars σi v = Some i ∧ eval σi bound = Some N) →
  (∀ i σi, 0 ≤ i < N → Inv i σi →
     ∃ σ', runs body σi σ' ∧ vars σ' v = Some i ∧ Inv (i + 1) (set_var v (i + 1) σ')) →
  ∃ σ', steps (For v bound body) σ σ' ∧ Inv N σ'.
Proof.
  intros HN H0 Hread Hstep.
  assert (∀ (d : nat) i σi, i = N - Z.of_nat d → 0 ≤ i → Inv i σi →
            ∃ fuel σ', iterate (exec_body fuel body) v bound fuel σi = Done σ' ∧ Inv N σ')
    as Hloop.
  { induction d as [|d IH]; intros i σi Hi Hi0 HI.
    - exists 1%nat, σi. replace i with N in * by lia.
      destruct (Hread N σi) as [Hv Hb]; [lia|done|]. simpl. rewrite Hv, Hb.
      by rewrite Z.ltb_irrefl.
    - destruct (Hread i σi) as [Hv Hb]; [lia|done|].
      destruct (Hstep i σi) as (σ1 & [f1 Hbody] & Hv1 & HI1); [lia|done|].
      destruct (IH (i + 1) (set_var v (i + 1) σ1)) as (f2 & σ' & Hrest & HN');
        [lia|lia|done|].
      exists (S (f1 `max` f2))%nat, σ'. split; [|done]. simpl. rewrite Hv, Hb.
      destruct (Z.ltb_spec i N); [|lia].
      rewrite (exec_body_mono f1 (S (f1 `max` f2)) _ _ _ ltac:(lia) Hbody), Hv1.
      unfold wrap. rewrite Z.mod_small by lia.
      apply (iterate_mono (exec_body f2 body) _ _ _ f2); [|lia|done].
      intros σ2 σ3. apply exec_body_mono. lia. }
  destruct (Hloop (Z.to_nat N) 0 (set_var v 0 σ)) as (fuel & σ' & Hit & HN');
    [lia|lia|done|].
  exists σ'. split; [|done]. by exists (S fuel).
Qed.

End WithElements.

End ExecFacts.

(** ** Facts about memory layouts *)

Module LayoutFacts.
Import Exec Layout.

Section WithElements.
Context {A : Type}.
Implicit Types (old new src : list (option A)) (P : Z → Z → Prop) (f g : Z → Z → Z).

Lemma written_as_none P f g old src :
  (∀ x y, ¬ P x y) → written_as P f g old old src.
Proof. intros HP. split_and!; [done|intros x y H; by destruct (HP x y)|done]. Qed.

Lemma written_as_equiv P Q f g old new src :
  (∀ x y, P x y ↔ Q x y) → written_as P f g old new src → written_as Q f g old new src.
Proof.
  intros HPQ (Hlen & Hin & Hout). split_and!; [done| |].
  - intros x y HQ. apply Hin. by apply HPQ.
  - intros p Hp. apply Hout. intros x y HP. apply Hp. by apply HPQ.
Qed.

Lemma written_as_insert P f g old new src x0 y0 c :
  written_as P f g old new src →
  src !! Z.to_nat (g x0 y0) = Some c →
  (Z.to_nat (f x0 y0) < length new)%nat →
  (∀ x y, P x y → Z.to_nat (f x y) ≠ Z.to_nat (f x0 y0)) →
  written_as (λ x y, P x y ∨ (x = x0 ∧ y = y0)) f g old
             (<[Z.to_nat (f x0 y0) := c]> new) src.
Proof.
  intros (Hlen & Hin & Hout) Hc Hlt Hfresh. split_and!.
  - by rewrite length_insert.
  - intros x y [HP|[-> ->]].
    + rewrite list_lookup_insert_ne; [by apply Hin|]. intros E. by apply (Hfresh x y).
    + by rewrite list_lookup_insert_eq, Hc.
  - intros p Hp. rewrite list_lookup_insert_ne.
    + apply Hout. intros x y HP. apply Hp. by left.
    + apply Hp. by right.
Qed.

(** No cell is written when nothing was to be written. *)
Lemma written_as_empty P f g old new src :
  (∀ x y, ¬ P x y) → written_as P f g old new src → new = old.
Proof.
  intros HP (_ & _ & Hout). apply list_eq. intros p. apply Hout.
  intros x y H. by destruct (HP x y).
Qed.

Lemma transposed_unique n m (X : list A) out0 out1 out2 :
  transposed n m X out0 out1 → transposed n m X out0 out2 → out1 = out2.
Proof.
  intros (Hl1 & Hin1 & Hout1) (Hl2 & Hin2 & Hout2). apply list_eq. intros p.
  destruct (decide (0 < n ∧ 0 < m ∧ Z.of_nat p < n * m)) as [(Hn & Hm & Hp)|Hno].
  - set (i := Z.of_nat p mod n). set (j := Z.of_nat p / n).
    assert (0 ≤ i < n) by (apply Z.mod_pos_bound; lia).
    assert (Z.of_nat p = j * n + i) as Hpij
        by (unfold i, j; rewrite (Z.div_mod (Z.of_nat p) n) at 1 by lia; lia).
    assert (0 ≤ j < m) by nia.
    replace p with (Z.to_nat (j * n + i)) by lia.
    rewrite (Hin1 i j), (Hin2 i j); done.
  - rewrite Hout1, Hout2; [done| |]; intros i j [Hi Hj] E;
      apply Hno; split_and!; try lia; nia.
Qed.

End WithElements.

Lemma wrap_small (z : Z) : 0 ≤ z < size_mod → wrap z = z.
Proof. intros. unfold wrap. by apply Z.mod_small. Qed.

Lemma size_mod_eq : size_mod = 18446744073709551616.
Proof. reflexivity. Qed.

(** Row-major addressing with rows of width [w] is injective. *)
Lemma row_major_inj (w x y x' y' : Z) :
  0 ≤ x < w → 0 ≤ x' < w → 0 ≤ y → 0 ≤ y' →
  Z.to_nat (y * w + x) = Z.to_nat (y' * w + x') → x = x' ∧ y = y'.
Proof.
  intros Hx Hx' Hy Hy' E. apply Z2Nat.inj in E; [|nia|nia].
  assert (y = y') by nia. subst. lia.
Qed.

Lemma fmap_seqZ_succ {B : Type} (h : Z → B) (i : Z) :
  0 ≤ i → h <$> seqZ 0 (i + 1) = (h <$> seqZ 0 i) ++ [h i].
Proof.
  intros Hi. rewrite seqZ_app by lia. by rewrite fmap_app.
Qed.

Lemma flat_map_seqZ_succ {B : Type} (h : Z → list B) (i : Z) :
  0 ≤ i → flat_map h (seqZ 0 (i + 1)) = flat_map h (seqZ 0 i) ++ h i.
Proof.
  intros Hi. rewrite seqZ_app by lia. rewrite flat_map_app. f_equal.
  change (seqZ (0 + i) 1) with [0 + i]. simpl. by rewrite app_nil_r.
Qed.

End LayoutFacts.

(** ** The states a run passes through *)

Module PassesFacts.
Import Kernel Exec ExecRuns ExecFacts Passes LayoutFacts.

(** A loop with an invariant tests its bound once for every count up to the
    bound, in a state of the invariant. *)
Lemma heads_inv {A : Type} v bound body (N : Z) (Inv : Z → state A → Prop) (σ : state A) :
  0 ≤ N < size_mod →
  Inv 0 (set_var v 0 σ) →
  (∀ i σi, 0 ≤ i ≤ N → Inv i σi → vars σi v = Some i ∧ eval σi bound = Some N) →
  (∀ i σi, 0 ≤ i < N → Inv i σi →
     ∃ σ', runs body σi σ' ∧ vars σ' v = Some i ∧ Inv (i + 1) (set_var v (i + 1) σ')) →
  ∀ i, 0 ≤ i ≤ N → ∃ σi, heads v bound body σ σi ∧ Inv i σi.
Proof.
  intros HN H0 Hread Hstep.
  assert (∀ d : nat, Z.of_nat d ≤ N →
            ∃ σi, heads v bound body σ σi ∧ Inv (Z.of_nat d) σi) as Hall.
  { induction d as [|d IH]; intros Hd.
    - exists (set_var v 0 σ). split; [constructor|done].
    - destruct IH as (σi & Hh & HI); [lia|].
      destruct (Hread (Z.of_nat d) σi) as [Hv Hb]; [lia|done|].
      destruct (Hstep (Z.of_nat d) σi) as (σ' & Hbody & Hv' & HI'); [lia|done|].
      exists (set_var v (Z.of_nat d + 1) σ'). split.
      + rewrite <- (wrap_small (Z.of_nat d + 1)) by lia.
        eapply heads_next; [exact Hh|exact Hv|exact Hb|lia|exact Hbody|exact Hv'].
      + by replace (Z.of_nat (S d)) with (Z.of_nat d + 1) by lia. }
  intros i Hi. destruct (Hall (Z.to_nat i)) as (σi & Hh & HI); [lia|].
  exists σi. split; [done|]. by replace i with (Z.of_nat (Z.to_nat i)) by lia.
Qed.

(** *** What is reached is executed

    A finished run is the only one, and it splits at every statement. *)

Lemma runs_det {A : Type} ss (σ σ1 σ2 : state A) : runs ss σ σ1 → runs ss σ σ2 → σ1 = σ2.
Proof.
  intros [f1 H1] [f2 H2].
  apply (exec_body_mono f1 (f1 `max` f2)%nat) in H1; [|lia].
  apply (exec_body_mono f2 (f1 `max` f2)%nat) in H2; [|lia].
  congruence.
Qed.

Lemma runs_cons_inv {A : Type} s ss (σ σ' : state A) :
  runs (s :: ss) σ σ' → ∃ σm, steps s σ σm ∧ runs ss σm σ'.
Proof.
  intros [fuel H]. unfold exec_body in H. simpl in H.
  destruct (exec fuel s σ) as [σm| |] eqn:E; try done.
  exists σm. split; by exists fuel.
Qed.

Lemma runs_app_inv {A : Type} ss1 ss2 (σ σ' : state A) :
  runs (ss1 ++ ss2) σ σ' → ∃ σm, runs ss1 σ σm ∧ runs ss2 σm σ'.
Proof.
  revert σ. induction ss1 as [|s ss1 IH]; intros σ H.
  - exists σ. split; [apply runs_nil|done].
  - apply runs_cons_inv in H as (σa & Hs & H).
    destruct (IH _ H) as (σm & H1 & H2). exists σm. split; [|done].
    by eapply runs_cons.
Qed.

(** A loop that finishes goes on from each state in which it tests its
    bound. *)
Lemma heads_finish {A : Type} v bound body (σl σh σx : state A) :
  steps (For v bound body) σl σx → heads v bound body σl σh →
  ∃ fuel, iterate (exec_body fuel body) v bound fuel σh = Done σx.
Proof.
  intros [fuel Hfor] Hh. induction Hh as [|σh σ' i n i' Hh IH Hv Hb Hlt Hbody Hv'].
  - destruct fuel as [|f]; [done|]. by exists f.
  - destruct IH as [f Hit]. destruct f as [|f]; [done|].
    simpl in Hit. rewrite Hv, Hb in Hit.
    destruct (Z.ltb_spec i n); [|lia].
    destruct (exec_body (S f) body σh) as [σb| |] eqn:E; try done.
    assert (σb = σ') as -> by (eapply runs_det; [by exists (S f)|done]).
    rewrite Hv' in Hit. exists (S f).
    eapply iterate_mono; [|constructor; reflexivity|exact Hit]. done.
Qed.

Lemma reaches_executed {A : Type} ss (σ σ' : state A) s σ1 :
  reaches ss σ s σ1 → runs ss σ σ' → ∃ σ2, steps s σ1 σ2.
Proof.
  intros Hr. revert σ'.
  induction Hr as [pre s post σ σ1 Hpre
                  |pre v bound body post σ σl σh i n s σ1 Hpre Hh Hv Hb Hlt Hr IH];
    intros σ' Hrun.
  - apply runs_app_inv in Hrun as (σm & Hpre' & Hrest).
    rewrite <- (runs_det _ _ _ _ Hpre Hpre') in Hrest.
    apply runs_cons_inv in Hrest as (σ2 & Hs & _). by exists σ2.
  - apply runs_app_inv in Hrun as (σm & Hpre' & Hrest).
    rewrite <- (runs_det _ _ _ _ Hpre Hpre') in Hrest.
    apply runs_cons_inv in Hrest as (σx & Hfor & _).
    destruct (heads_finish _ _ _ _ _ _ Hfor Hh) as [f Hit].
    destruct f as [|f]; [done|]. simpl in Hit. rewrite Hv, Hb in Hit.
    destruct (Z.ltb_spec i n); [|lia].
    destruct (exec_body (S f) body σh) as [σb| |] eqn:E; try done.
    apply (IH σb). by exists (S f).
Qed.

End PassesFacts.

(** ** Symbolic execution helpers *)

Ltac unwrap :=
  repeat match goal with
    | |- context [Exec.wrap ?z] => rewrite (LayoutFacts.wrap_small z) by lia
    end.

Ltac lookup_vars :=
  repeat match goal with
    | H : Exec.vars ?σ ?x = Some _ |- context [Exec.vars ?σ ?x] => rewrite H
    end.

Ltac eval_now := cbn; lookup_vars; cbn; unwrap; try reflexivity.

Ltac enter_loop N Inv σ' Hsteps Hinv :=
  lazymatch goal with
  | |- ∃ _, ExecRuns.runs (Kernel.For ?v ?b ?body :: _) ?σ _ ∧ _ =>
      destruct (ExecFacts.steps_for v b body N Inv σ) as (σ' & Hsteps & Hinv)
  end.

(** ** The naive transpose, executed *)

Module NaiveTranspose.
Import Kernel Exec ExecRuns ExecFacts Layout LayoutFacts Moves.

Section Run.
Context {A : Type}.
Variables (n m : Z) (X : list A) (out0 : list (option A)).
Hypothesis Hn : 0 ≤ n < size_mod.
Hypothesis Hm : 0 ≤ m < size_mod.
Hypothesis Hnm : n * m < size_mod.
Hypothesis HX : (Z.to_nat (n * m) ≤ length X)%nat.
Hypothesis Hout : (Z.to_nat (n * m) ≤ length out0)%nat.

Abbreviation base := (NaiveTransposeInv.base n m X).
Abbreviation done_to := (NaiveTransposeInv.done_to n m).
Abbreviation inner_inv := (NaiveTransposeInv.inner_inv n m X out0).
Abbreviation outer_inv := (NaiveTransposeInv.outer_inv n m X out0).

Lemma naive_inner_step i j σ :
  0 ≤ i < n → 0 ≤ j < m → inner_inv i j σ →
  ∃ σ', runs [ Copy "output" (Bin Add (Bin Mul (Var "j") (Var "n")) (Var "i"))
                   "input" (Bin Add (Bin Mul (Var "i") (Var "m")) (Var "j")) ] σ σ'
        ∧ vars σ' "j" = Some j ∧ inner_inv i (j + 1) (set_var "j" (j + 1) σ').
Proof.
  intros Hi Hj ((Hvn & Hvm & Hin) & Hvi & Hvj & out & Hmo & Hw & Htr).
  assert (0 ≤ j * n + i < n * m) by nia.
  assert (0 ≤ i * m + j < n * m) by nia.
  assert (0 ≤ j * n) by nia. assert (0 ≤ i * m) by nia.
  destruct (lookup_lt_is_Some_2 X (Z.to_nat (i * m + j))) as [x Hx]; [lia|].
  eexists. split; [|split].
  - eapply runs_cons; [|apply runs_nil].
    eapply steps_copy.
    + cbn [eval]. rewrite Hvj, Hvn, Hvi. cbn [eval_binop].
      unwrap. reflexivity.
    + cbn [eval]. rewrite Hvj, Hvm, Hvi. cbn [eval_binop].
      unwrap. reflexivity.
    + exact Hin.
    + rewrite list_lookup_fmap, Hx. reflexivity.
    + exact Hmo.
    + destruct Hw as (Hl & _). lia.
  - exact Hvj.
  - split_and!; try done.
    exists (<[Z.to_nat (j * n + i) := Some x]> out). split_and!.
    + reflexivity.
    + eapply written_as_equiv;
        [|apply (written_as_insert _ (λ i j, j * n + i) (λ i j, i * m + j) _ _ _ i j (Some x) Hw)].
      * intros i' j'. unfold NaiveTransposeInv.done_to. lia.
      * by rewrite list_lookup_fmap, Hx.
      * destruct Hw as (Hl & _). lia.
      * intros i' j' (? & ? & ?) E. apply row_major_inj in E; lia.
    + cbn [trace log set_mem set_var]. rewrite Htr, fmap_seqZ_succ by lia.
      by rewrite app_assoc.
Qed.

Lemma inner_loop i σ :
  0 ≤ i < n → outer_inv i σ →
  ∃ σ', runs [ For "j" (Var "m")
                 [ Copy "output" (Bin Add (Bin Mul (Var "j") (Var "n")) (Var "i"))
                        "input" (Bin Add (Bin Mul (Var "i") (Var "m")) (Var "j")) ] ] σ σ'
        ∧ vars σ' "i" = Some i ∧ outer_inv (i + 1) (set_var "i" (i + 1) σ').
Proof.
  intros Hi ((Hvn & Hvm & Hin) & Hvi & out & Hmo & Hw & Htr).
  enter_loop m (inner_inv i) σ' Hsteps Hinv; [lia| | |by intros; apply naive_inner_step|].
  - split_and!; try done. exists out. split_and!; try done.
    cbn [trace set_var]. by rewrite Htr, app_nil_r.
  - intros j σj _ ((? & ? & ?) & ? & ? & _). done.
  - destruct Hinv as ((Hvn' & Hvm' & Hin') & Hvi' & Hvj' & out' & Hmo' & Hw' & Htr').
    exists σ'. split; [|split; [done|]].
    + eapply runs_cons; [done|apply runs_nil].
    + split_and!; try done. exists out'. split_and!; try done.
      * eapply written_as_equiv; [|exact Hw']. intros i' j'. unfold NaiveTransposeInv.done_to. lia.
      * cbn [trace set_var]. by rewrite Htr', flat_map_seqZ_succ by lia.
Qed.

Lemma naive_transpose_runs :
  ∃ fuel σ', run fuel naive_transpose_fn
               [ ASize n; ASize m; ABuf (Some <$> X); ABuf out0 ] = Done σ'
    ∧ trace σ' = naive_moves n m
    ∧ mem σ' "input" = Some (Some <$> X)
    ∧ ∃ out, mem σ' "output" = Some out ∧ transposed n m X out0 out.
Proof.
  unfold run. cbn [f_params naive_transpose_fn transpose_params bind_params].
  destruct (Z.leb_spec 0 n); [|lia]. destruct (Z.ltb_spec n size_mod); [|lia].
  destruct (Z.leb_spec 0 m); [|lia]. destruct (Z.ltb_spec m size_mod); [|lia].
  cbn [andb f_body].
  match goal with |- context [exec_body _ _ ?s] => set (σ0 := s) end.
  destruct (steps_for "i" (Var "n")
              [ For "j" (Var "m")
                 [ Copy "output" (Bin Add (Bin Mul (Var "j") (Var "n")) (Var "i"))
                        "input" (Bin Add (Bin Mul (Var "i") (Var "m")) (Var "j")) ] ]
              n outer_inv σ0)
    as (σ' & [fuel Hsteps] & Hinv); [lia| | |by intros; apply inner_loop|].
  - split_and!; try done. exists out0. split_and!; try done.
    apply written_as_none. unfold NaiveTransposeInv.done_to. lia.
  - intros i σi _ ((? & ? & ?) & ? & _). done.
  - destruct Hinv as ((Hvn' & Hvm' & Hin') & Hvi' & out' & Hmo' & Hw' & Htr').
    exists fuel, σ'. split_and!; try done.
    + unfold exec_body. simpl. by rewrite Hsteps.
    + exists out'. split; [done|].
      eapply written_as_equiv; [|exact Hw']. intros i' j'. unfold NaiveTransposeInv.done_to, everywhere. lia.
Qed.

End Run.

End NaiveTranspose.

(** ** The block copy, executed *)

Module BlockCopy.
Import Kernel Exec ExecRuns ExecFacts Layout LayoutFacts Moves.

Section Run.
Context {A : Type}.
Variables (n m is_ os_ trans : Z) (X : list A) (out0 : list (option A)).
Hypothesis Hn : 0 ≤ n < size_mod.
Hypothesis Hm : 0 ≤ m < size_mod.
Hypothesis His : 0 ≤ is_ < size_mod.
Hypothesis Hos : 0 ≤ os_ < size_mod.
Hypothesis Htrans : - 2 ^ 31 ≤ trans < 2 ^ 31.
Hypothesis HX : addressable (Z.of_nat (length X)).
Hypothesis Hout : addressable (Z.of_nat (length out0)).
Hypothesis Hsrc : 0 < n → 0 < m → (n - 1) * is_ + m ≤ Z.of_nat (length X).
Hypothesis Hdst : 0 < n → 0 < m → (n - 1) * os_ + m ≤ Z.of_nat (length out0).

Abbreviation base := (BlockCopyInv.base n m is_ os_ X).
Abbreviation done_to := (BlockCopyInv.done_to n m).
Abbreviation out_inv := (BlockCopyInv.out_inv n m is_ os_ X out0).
Abbreviation inner_inv := (BlockCopyInv.inner_inv n m is_ os_ X out0).
Abbreviation outer_inv := (BlockCopyInv.outer_inv n m is_ os_ X out0).

Lemma copy_inner_step i j σ :
  0 ≤ i < n → 0 ≤ j < m → inner_inv i j σ →
  ∃ σ', runs [ Copy "output" (Bin Add (Var "out_shift") (Var "j"))
                    "input" (Bin Add (Var "inp_shift") (Var "j")) ] σ σ'
        ∧ vars σ' "j" = Some j ∧ inner_inv i (j + 1) (set_var "j" (j + 1) σ').
Proof.
  intros Hi Hj ((Hvn & Hvm & Hvis & Hvos & Hin) & Hvi & Hvj & Hvo & Hvs
                & (out & Hmo & Hlen & Hw) & Htr).
  unfold addressable in HX, Hout.
  assert (0 ≤ i * os_ ∧ i * os_ + j < Z.of_nat (length out0)) as [? ?] by nia.
  assert (0 ≤ i * is_ ∧ i * is_ + j < Z.of_nat (length X)) as [? ?] by nia.
  destruct (lookup_lt_is_Some_2 X (Z.to_nat (i * is_ + j))) as [x Hx]; [lia|].
  rewrite (wrap_small (i * os_)) in Hvo by lia.
  rewrite (wrap_small (i * is_)) in Hvs by lia.
  eexists. split; [|split].
  - eapply runs_cons; [|apply runs_nil].
    eapply steps_copy; [eval_now|eval_now|exact Hin| |exact Hmo|lia].
    by rewrite list_lookup_fmap, Hx.
  - exact Hvj.
  - split_and!; try done.
    + cbn. by rewrite wrap_small by lia.
    + cbn. by rewrite wrap_small by lia.
    + exists (<[Z.to_nat (i * os_ + j) := Some x]> out). split_and!.
      * reflexivity.
      * by rewrite length_insert.
      * intros Hmos. eapply written_as_equiv;
          [|apply (written_as_insert _ (λ i j, i * os_ + j) (λ i j, i * is_ + j)
                     _ _ _ i j (Some x) (Hw Hmos))].
        -- intros i' j'. unfold BlockCopyInv.done_to. lia.
        -- by rewrite list_lookup_fmap, Hx.
        -- lia.
        -- intros i' j' (? & ? & ?) E. apply row_major_inj in E; lia.
    + cbn [trace log set_mem set_var]. rewrite Htr, fmap_seqZ_succ by lia.
      by rewrite app_assoc.
Qed.

Lemma copy_outer_step i σ :
  0 ≤ i < n → outer_inv i σ →
  ∃ σ', runs [ Decl true "out_shift" (Bin Mul (Var "i") (Var "os"));
               Decl true "inp_shift" (Bin Mul (Var "i") (Var "is"));
               Blank;
               For "j" (Var "m")
                 [ Copy "output" (Bin Add (Var "out_shift") (Var "j"))
                        "input" (Bin Add (Var "inp_shift") (Var "j")) ] ] σ σ'
        ∧ vars σ' "i" = Some i ∧ outer_inv (i + 1) (set_var "i" (i + 1) σ').
Proof.
  intros Hi ((Hvn & Hvm & Hvis & Hvos & Hin) & Hvi & (out & Hmo & Hlen & Hw) & Htr).
  set (σ1 := set_var "inp_shift" (wrap (i * is_)) (set_var "out_shift" (wrap (i * os_)) σ)).
  assert (∃ σ', runs [ For "j" (Var "m")
                         [ Copy "output" (Bin Add (Var "out_shift") (Var "j"))
                                "input" (Bin Add (Var "inp_shift") (Var "j")) ] ] σ1 σ'
                ∧ inner_inv i m σ') as (σ' & Hruns & Hinv).
  { enter_loop m (inner_inv i) σ' Hsteps Hinv; [lia| | |by intros; apply copy_inner_step|].
    - split_and!; try done. { by exists out. }
      cbn [trace set_var σ1]. by rewrite Htr, app_nil_r.
    - intros j σj _ ((? & ? & ?) & ? & ? & _). done.
    - exists σ'. split; [|done]. eapply runs_cons; [done|apply runs_nil]. }
  destruct Hinv as ((Hvn' & Hvm' & Hvis' & Hvos' & Hin') & Hvi' & Hvj' & _ & _
                    & (out' & Hmo' & Hlen' & Hw') & Htr').
  exists σ'. split; [|split; [done|]].
  - eapply runs_cons; [eapply steps_decl; eval_now|].
    eapply runs_cons; [eapply steps_decl; eval_now|].
    eapply runs_cons; [apply steps_blank|]. exact Hruns.
  - split_and!; try done.
    + exists out'. split_and!; try done. intros Hmos.
      eapply written_as_equiv; [|exact (Hw' Hmos)]. intros i' j'. unfold BlockCopyInv.done_to. lia.
    + cbn [trace set_var]. by rewrite Htr', flat_map_seqZ_succ by lia.
Qed.

Lemma block_copy_runs :
  ∃ fuel σ', run fuel block_copy_fn
               [ ASize n; ASize m; ABuf (Some <$> X); ASize is_;
                 ABuf out0; ASize os_; AInt trans ] = Done σ'
    ∧ trace σ' = block_copy_moves n m is_ os_
    ∧ mem σ' "input" = Some (Some <$> X)
    ∧ ∃ out, mem σ' "output" = Some out ∧ length out = length out0 ∧
             (m ≤ os_ →
              written_as (everywhere n m) (λ i j, i * os_ + j) (λ i j, i * is_ + j)
                         out0 out (Some <$> X)).
Proof.
  unfold run. cbn [f_params block_copy_fn bind_params].
  destruct (Z.leb_spec 0 n); [|lia]. destruct (Z.ltb_spec n size_mod); [|lia].
  destruct (Z.leb_spec 0 m); [|lia]. destruct (Z.ltb_spec m size_mod); [|lia].
  destruct (Z.leb_spec 0 is_); [|lia]. destruct (Z.ltb_spec is_ size_mod); [|lia].
  destruct (Z.leb_spec 0 os_); [|lia]. destruct (Z.ltb_spec os_ size_mod); [|lia].
  destruct (Z.leb_spec (- 2 ^ 31) trans); [|lia]. destruct (Z.ltb_spec trans (2 ^ 31)); [|lia].
  cbn [andb f_body].
  match goal with |- context [exec_body _ _ ?s] => set (σ0 := s) end.
  destruct (steps_for "i" (Var "n")
              [ Decl true "out_shift" (Bin Mul (Var "i") (Var "os"));
                Decl true "inp_shift" (Bin Mul (Var "i") (Var "is"));
                Blank;
                For "j" (Var "m")
                  [ Copy "output" (Bin Add (Var "out_shift") (Var "j"))
                         "input" (Bin Add (Var "inp_shift") (Var "j")) ] ]
              n outer_inv σ0)
    as (σ' & [fuel Hsteps] & Hinv); [lia| | |by intros; apply copy_outer_step|].
  - split_and!; try done. exists out0. split_and!; try done. intros _.
    apply written_as_none. unfold BlockCopyInv.done_to. lia.
  - intros i σi _ ((? & ? & ?) & ? & _). done.
  - destruct Hinv as ((Hvn' & Hvm' & Hvis' & Hvos' & Hin') & Hvi'
                      & (out' & Hmo' & Hlen' & Hw') & Htr').
    exists fuel, σ'. split_and!; try done.
    + unfold exec_body. simpl. by rewrite Hsteps.
    + exists out'. split_and!; try done. intros Hmos.
      eapply written_as_equiv; [|exact (Hw' Hmos)].
      intros i' j'. unfold BlockCopyInv.done_to, everywhere. lia.
Qed.

End Run.

End BlockCopy.

(** ** The blocked transpose, executed *)

Module FastTranspose.
Import Kernel Exec ExecRuns ExecFacts Layout LayoutFacts Moves.

(** [lia] without the hypotheses that mention [Z.to_nat]. *)
Ltac zlia :=
  repeat match goal with
    | H : context [Z.to_nat _] |- _ => clear H
    end;
  lia.

Ltac zunwrap :=
  repeat match goal with
    | |- context [wrap ?z] => rewrite (wrap_small z) by zlia
    end.

Ltac zeval := cbn; lookup_vars; cbn; zunwrap; try reflexivity.

Global Arguments remain : simpl never.

Global Arguments blocks : simpl never.

(** *** Tile arithmetic *)

Lemma blocks_range (t d : Z) : 1 ≤ t → 0 ≤ d → 0 ≤ blocks t d ≤ d.
Proof.
  intros Ht Hd. unfold blocks.
  pose proof (Z.div_mod d t ltac:(lia)). pose proof (Z.mod_pos_bound d t ltac:(lia)).
  assert (0 ≤ d / t) by (apply Z.div_pos; lia).
  destruct (Z.eqb_spec (d mod t) 0); nia.
Qed.

Lemma blocks_cover (t d : Z) : 1 ≤ t → 0 ≤ d → d ≤ blocks t d * t.
Proof.
  intros Ht Hd. unfold blocks.
  pose proof (Z.div_mod d t ltac:(lia)). pose proof (Z.mod_pos_bound d t ltac:(lia)).
  destruct (Z.eqb_spec (d mod t) 0); nia.
Qed.

Lemma blocks_start (t d b : Z) : 1 ≤ t → 0 ≤ d → 0 ≤ b < blocks t d → 0 ≤ b * t < d.
Proof.
  intros Ht Hd Hb. unfold blocks in Hb.
  pose proof (Z.div_mod d t ltac:(lia)). pose proof (Z.mod_pos_bound d t ltac:(lia)).
  destruct (Z.eqb_spec (d mod t) 0); nia.
Qed.

Lemma cell_in_range (n m s l ms k : Z) :
  0 ≤ s → 0 ≤ l → s + l < n → 0 ≤ ms → 0 ≤ k → ms + k < m →
  0 ≤ (s + l) * m ∧ (s + l) * m + ms + k < n * m.
Proof. intros. set (i := s + l) in *. nia. Qed.

Lemma tmp_in_range (t k l : Z) : 0 ≤ k < t → 0 ≤ l < t → 0 ≤ k * t ∧ k * t + l < t * t.
Proof. intros. nia. Qed.

Lemma remain_range (t d s : Z) : 1 ≤ t → 0 ≤ s < d → 0 < remain t d s ≤ t ∧ s + remain t d s ≤ d.
Proof. unfold remain. lia. Qed.

Section Pieces.
Context {A : Type}.
Implicit Types σ : state A.
Variable t : Z.
Hypothesis Ht : 1 ≤ t < size_mod.

Lemma vars_set_var_eq x v σ : vars (set_var x v σ) x = Some v.
Proof. unfold set_var, update. cbn [vars]. by rewrite String.eqb_refl. Qed.

Lemma vars_set_var_ne x y v σ : x ≠ y → vars (set_var x v σ) y = vars σ y.
Proof.
  intros Hne. unfold set_var, update. cbn [vars].
  by rewrite (proj2 (String.eqb_neq x y) Hne).
Qed.

(** [size_t x = dim / t; x += (dim % t) ? 1 : 0] leaves [blocks t dim] in [x]. *)
Lemma runs_count_blocks σ x dim d :
  vars σ dim = Some d → x ≠ dim → 0 ≤ d < size_mod →
  runs (count_blocks x dim t) σ (set_var x (blocks t d) (set_var x (d / t) σ)).
Proof.
  intros Hd Hne Hrange. unfold count_blocks.
  pose proof (blocks_range t d ltac:(lia) ltac:(lia)) as Hb.
  assert (0 ≤ d / t) by (apply Z.div_pos; lia).
  eapply runs_cons.
  { eapply steps_decl. cbn [eval]. rewrite Hd. cbn [eval_binop]. rewrite wrap_small by lia.
    destruct (Z.eqb_spec t 0); [lia|]. reflexivity. }
  eapply runs_cons; [|apply runs_nil].
  replace (blocks t d) with (wrap (d / t + (if d mod t =? 0 then 0 else 1))).
  2:{ unfold blocks in *. apply wrap_small. lia. }
  eapply steps_add_assign.
  - apply vars_set_var_eq.
  - cbn [eval]. rewrite vars_set_var_ne, Hd by done. cbn [eval_binop].
    rewrite (wrap_small t) by lia.
    destruct (Z.eqb_spec t 0); [lia|]. destruct (d mod t =? 0); by rewrite wrap_small.
Qed.

(** The clamped tile extent is computed whenever the start is in range,
    and is [remain] unless [xstart + t] wraps. *)
Lemma runs_tile_bounds σ xstart xremain xb dim b d :
  vars σ xb = Some b → vars σ dim = Some d → xstart ≠ dim →
  0 ≤ b * t < size_mod → 0 ≤ d < size_mod →
  ∃ v, runs (tile_bounds xstart xremain xb dim t) σ
            (set_var xremain v (set_var xstart (b * t) σ))
       ∧ (b * t ≤ d → b * t + t < size_mod → v = remain t d (b * t)).
Proof.
  intros Hb Hd Hne Hs Hrange. unfold tile_bounds.
  set (c := if d <? wrap (b * t + t) then 1 else 0).
  exists (if c =? 0 then t else wrap (d - b * t)). split.
  - eapply runs_cons.
    { eapply steps_decl. cbn [eval]. rewrite Hb. cbn [eval_binop].
      by rewrite (wrap_small t), wrap_small by lia. }
    eapply runs_cons; [|apply runs_nil].
    eapply steps_decl. cbn [eval]. rewrite vars_set_var_eq, vars_set_var_ne, Hd by done.
    cbn [eval_binop]. rewrite (wrap_small t) by lia. fold c. by destruct (c =? 0).
  - intros Hle Hsum. unfold c, remain. rewrite (wrap_small (b * t + t)) by lia.
    destruct (Z.ltb_spec d (b * t + t)); simpl.
    + rewrite wrap_small by lia. lia.
    + lia.
Qed.

End Pieces.

Section Run.
Context {A : Type}.
Implicit Types σ : state A.
Variables (n m t : Z) (X : list A) (out0 : list (option A)).
Hypothesis Hn : 0 ≤ n < size_mod.
Hypothesis Hm : 0 ≤ m < size_mod.
Hypothesis Ht : 1 ≤ t.
Hypothesis Htt : addressable (t * t).
Hypothesis Hnm : addressable (n * m).
Hypothesis HX : (Z.to_nat (n * m) ≤ length X)%nat.
Hypothesis Hout : (Z.to_nat (n * m) ≤ length out0)%nat.

Abbreviation consts := (FastTransposeInv.consts n m t X).
Abbreviation counters := (FastTransposeInv.counters).
Abbreviation tile_ctx := (FastTransposeInv.tile_ctx n m t X).
Abbreviation out_as := (FastTransposeInv.out_as n m X out0).
Abbreviation staged := (FastTransposeInv.staged m t X).
Abbreviation tmp_ok := (FastTransposeInv.tmp_ok t).
Abbreviation rows_done := (FastTransposeInv.rows_done n m t).
Abbreviation scattered := (FastTransposeInv.scattered n m t).
Abbreviation tiles_done := (FastTransposeInv.tiles_done n m t).
Abbreviation gathered := (FastTransposeInv.gathered n m t).
Abbreviation whole_tile := (FastTransposeInv.whole_tile n m t).
Abbreviation gather_k_inv := (FastTransposeInv.gather_k_inv n m t X out0).
Abbreviation gather_l_inv := (FastTransposeInv.gather_l_inv n m t X out0).
Abbreviation scatter_l_inv := (FastTransposeInv.scatter_l_inv n m t X out0).
Abbreviation scatter_k_inv := (FastTransposeInv.scatter_k_inv n m t X out0).
Abbreviation mb_inv := (FastTransposeInv.mb_inv n m t X out0).
Abbreviation nb_inv := (FastTransposeInv.nb_inv n m t X out0).

Lemma t_small : 1 ≤ t < size_mod ∧ t * t < size_mod.
Proof. unfold addressable in Htt. nia. Qed.

(** Facts about a tile inside the matrix. *)
Lemma tile_facts nb mb :
  0 ≤ nb < blocks t n → 0 ≤ mb < blocks t m →
  0 ≤ nb * t < n ∧ 0 ≤ mb * t < m ∧
  0 < remain t n (nb * t) ≤ t ∧ nb * t + remain t n (nb * t) ≤ n ∧
  0 < remain t m (mb * t) ≤ t ∧ mb * t + remain t m (mb * t) ≤ m ∧
  n * m < size_mod ∧ 0 < n ∧ 0 < m.
Proof.
  intros Hnb Hmb.
  pose proof (blocks_start t n nb Ht ltac:(lia) Hnb).
  pose proof (blocks_start t m mb Ht ltac:(lia) Hmb).
  pose proof (remain_range t n (nb * t) Ht ltac:(lia)).
  pose proof (remain_range t m (mb * t) Ht ltac:(lia)).
  unfold addressable in Hnm. split_and!; lia.
Qed.

Lemma gather_k_step T nb mb l k σ :
  0 ≤ nb < blocks t n → 0 ≤ mb < blocks t m →
  0 ≤ l < remain t n (nb * t) → 0 ≤ k < remain t m (mb * t) →
  gather_k_inv T nb mb l k σ →
  ∃ σ', runs [ Copy "tmp" (tmp_index t) "input" (Bin Add (Var "start") (Var "k")) ] σ σ'
        ∧ vars σ' "k" = Some k ∧ gather_k_inv T nb mb l (k + 1) (set_var "k" (k + 1) σ').
Proof.
  intros Hnb Hmb Hl Hk
    (((Hvn & Hvm & Hvnb & Hvmb & Hin) & Hcnt & Hns & Hnr & Hms & Hmr) & Hvl & Hvk & Hvs
     & Hout' & (tmp & Hmt & Htl & Hst) & Htr).
  destruct (tile_facts nb mb Hnb Hmb) as (? & ? & ? & ? & ? & ? & ? & ? & ?).
  destruct t_small as [? ?].
  destruct (tmp_in_range t k l) as [? ?]; [lia|lia|].
  destruct (cell_in_range n m (nb * t) l (mb * t) k) as [? ?]; [lia..|].
  destruct (lookup_lt_is_Some_2 X (Z.to_nat ((nb * t + l) * m + mb * t + k)))
    as [x Hx]; [lia|].
  eexists. split; [|split].
  - eapply runs_cons; [|apply runs_nil].
    eapply steps_copy; [unfold tmp_index; zeval|zeval|exact Hin|
                        |exact Hmt|lia].
    by rewrite list_lookup_fmap, Hx.
  - exact Hvk.
  - split_and!; try done.
    + exists (<[Z.to_nat (k * t + l) := Some x]> tmp). split_and!.
      * reflexivity.
      * by rewrite length_insert.
      * intros l' k' (Hl' & Hk' & Hlk).
        destruct (decide (l' = l ∧ k' = k)) as [[-> ->]|Hne].
        -- rewrite list_lookup_insert_eq by lia. by rewrite list_lookup_fmap, Hx.
        -- rewrite list_lookup_insert_ne.
           ++ apply Hst. unfold FastTransposeInv.gathered. zlia.
           ++ intros E. apply row_major_inj in E; zlia.
    + cbn [trace log set_mem set_var]. rewrite Htr, fmap_seqZ_succ by lia.
      by rewrite app_assoc.
Qed.

Lemma gather_l_step T nb mb l σ :
  0 ≤ nb < blocks t n → 0 ≤ mb < blocks t m →
  0 ≤ l < remain t n (nb * t) →
  gather_l_inv T nb mb l σ →
  ∃ σ', runs [ Decl true "start"
                 (Bin Add (Bin Mul (Paren (Bin Add (Var "nstart") (Var "l"))) (Var "m"))
                          (Var "mstart"));
               For "k" (Var "mremain")
                 [ Copy "tmp" (tmp_index t) "input" (Bin Add (Var "start") (Var "k")) ] ]
             σ σ'
        ∧ vars σ' "l" = Some l ∧ gather_l_inv T nb mb (l + 1) (set_var "l" (l + 1) σ').
Proof.
  intros Hnb Hmb Hl
    (((Hvn & Hvm & Hvnb & Hvmb & Hin) & Hcnt & Hns & Hnr & Hms & Hmr) & Hvl
     & Hout' & Hst & Htr).
  destruct (tile_facts nb mb Hnb Hmb) as (? & ? & ? & ? & ? & ? & ? & ? & ?).
  destruct (cell_in_range n m (nb * t) l (mb * t) 0) as [? ?]; [lia..|].
  set (σ1 := set_var "start" ((nb * t + l) * m + mb * t) σ).
  assert (∃ σ', runs [ For "k" (Var "mremain")
                         [ Copy "tmp" (tmp_index t) "input"
                                (Bin Add (Var "start") (Var "k")) ] ] σ1 σ'
                ∧ gather_k_inv T nb mb l (remain t m (mb * t)) σ')
    as (σ' & Hruns & Hinv).
  { enter_loop (remain t m (mb * t)) (gather_k_inv T nb mb l) σ' Hsteps Hinv;
      [lia| | |by intros; apply gather_k_step|].
    - split_and!; try done. cbn [trace set_var σ1]. by rewrite Htr, app_nil_r.
    - intros k σk _ ((_ & _ & _ & _ & _ & ?) & _ & ? & _). done.
    - exists σ'. split; [|done]. eapply runs_cons; [done|apply runs_nil]. }
  destruct Hinv as (Hctx & Hvl' & Hvk' & _ & Hout'' & (tmp & Hmt & Htl & Hst') & Htr').
  exists σ'. split; [|split; [done|]].
  - eapply runs_cons; [eapply steps_decl; eval_now|]. exact Hruns.
  - split_and!; try done.
    + exists tmp. split_and!; try done. intros l' k' Hlk. apply Hst'.
      unfold FastTransposeInv.gathered in *. lia.
    + cbn [trace set_var]. rewrite Htr', flat_map_seqZ_succ by lia.
      by rewrite app_assoc.
Qed.

Lemma gather_runs T nb mb σ :
  0 ≤ nb < blocks t n → 0 ≤ mb < blocks t m →
  tile_ctx nb mb σ → out_as (tiles_done nb mb) σ → tmp_ok σ → trace σ = T →
  ∃ σ', steps (gather t) σ σ'
        ∧ tile_ctx nb mb σ' ∧ out_as (tiles_done nb mb) σ'
        ∧ staged nb mb (whole_tile nb mb) σ'
        ∧ trace σ' = T ++ gather_moves m t (nb * t) (remain t n (nb * t))
                                       (mb * t) (remain t m (mb * t)).
Proof.
  intros Hnb Hmb Hctx Hout' (tmp & Hmt & Htl) Htr.
  destruct (tile_facts nb mb Hnb Hmb) as (? & ? & ? & ? & ? & ? & ? & ? & ?).
  destruct (steps_for "l" (Var "nremain")
              [ Decl true "start"
                  (Bin Add (Bin Mul (Paren (Bin Add (Var "nstart") (Var "l"))) (Var "m"))
                           (Var "mstart"));
                For "k" (Var "mremain")
                  [ Copy "tmp" (tmp_index t) "input" (Bin Add (Var "start") (Var "k")) ] ]
              (remain t n (nb * t)) (gather_l_inv T nb mb) σ)
    as (σ' & Hsteps & Hinv); [lia| | |by intros; apply gather_l_step|].
  - destruct Hctx as (Hc & ? & ? & ? & ? & ?). split_and!; try done.
    + exists tmp. split_and!; try done. intros l' k'. unfold FastTransposeInv.gathered. lia.
    + cbn [trace set_var]. by rewrite Htr, app_nil_r.
  - intros l σl _ ((_ & _ & _ & ? & _) & ? & _). done.
  - destruct Hinv as (Hctx' & _ & Hout'' & (tmp' & Hmt' & Htl' & Hst') & Htr').
    exists σ'. split_and!; try done.
    exists tmp'. split_and!; try done. intros l' k' Hlk. apply Hst'.
    unfold FastTransposeInv.gathered, FastTransposeInv.whole_tile in *. lia.
Qed.

Lemma scatter_l_step T nb mb k l σ :
  0 ≤ nb < blocks t n → 0 ≤ mb < blocks t m →
  0 ≤ k < remain t m (mb * t) → 0 ≤ l < remain t n (nb * t) →
  scatter_l_inv T nb mb k l σ →
  ∃ σ', runs [ Copy "output" (Bin Add (Var "start") (Var "l")) "tmp" (tmp_index t) ] σ σ'
        ∧ vars σ' "l" = Some l ∧ scatter_l_inv T nb mb k (l + 1) (set_var "l" (l + 1) σ').
Proof.
  intros Hnb Hmb Hk Hl
    (((Hvn & Hvm & Hvnb & Hvmb & Hin) & Hcnt & Hns & Hnr & Hms & Hmr) & Hvk & Hvl & Hvs
     & (out & Hmo & Hw) & (tmp & Hmt & Htl & Hst) & Htr).
  destruct (tile_facts nb mb Hnb Hmb) as (? & ? & ? & ? & ? & ? & ? & ? & ?).
  destruct t_small as [? ?].
  destruct (tmp_in_range t k l) as [? ?]; [lia|lia|].
  destruct (cell_in_range n m (nb * t) l (mb * t) k) as [? ?]; [lia..|].
  destruct (cell_in_range m n (mb * t) k (nb * t) l) as [? ?]; [lia..|].
  rewrite (Z.mul_comm m n) in *.
  destruct (lookup_lt_is_Some_2 X (Z.to_nat ((nb * t + l) * m + mb * t + k)))
    as [x Hx]; [lia|].
  assert (tmp !! Z.to_nat (k * t + l) = Some (Some x)) as Hcell.
  { rewrite (Hst l k) by (unfold FastTransposeInv.whole_tile; lia). by rewrite list_lookup_fmap, Hx. }
  pose proof Hw as (Hlen & _ & _).
  eexists. split; [|split].
  - eapply runs_cons; [|apply runs_nil].
    eapply steps_copy; [zeval|unfold tmp_index; zeval|exact Hmt|exact Hcell
                        |exact Hmo|lia].
  - exact Hvl.
  - split_and!; try done.
    + exists (<[Z.to_nat ((mb * t + k) * n + nb * t + l) := Some x]> out).
      split; [reflexivity|].
      replace ((mb * t + k) * n + nb * t + l) with ((mb * t + k) * n + (nb * t + l)) by lia.
      eapply written_as_equiv;
        [|apply (written_as_insert _ (λ i j, j * n + i) (λ i j, i * m + j)
                   _ _ _ (nb * t + l) (mb * t + k) (Some x) Hw)].
      * intros i j. unfold FastTransposeInv.scattered. zlia.
      * rewrite list_lookup_fmap.
        replace ((nb * t + l) * m + (mb * t + k)) with ((nb * t + l) * m + mb * t + k) by lia.
        by rewrite Hx.
      * lia.
      * intros i j (? & ? & ?) E. apply row_major_inj in E; zlia.
    + exists tmp. split_and!; done.
    + cbn [trace log set_mem set_var]. rewrite Htr, fmap_seqZ_succ by lia.
      by rewrite app_assoc.
Qed.

Lemma scatter_k_step T nb mb k σ :
  0 ≤ nb < blocks t n → 0 ≤ mb < blocks t m →
  0 ≤ k < remain t m (mb * t) →
  scatter_k_inv T nb mb k σ →
  ∃ σ', runs [ Decl true "start"
                 (Bin Add (Bin Mul (Paren (Bin Add (Var "mstart") (Var "k"))) (Var "n"))
                          (Var "nstart"));
               For "l" (Var "nremain")
                 [ Copy "output" (Bin Add (Var "start") (Var "l")) "tmp" (tmp_index t) ] ]
             σ σ'
        ∧ vars σ' "k" = Some k ∧ scatter_k_inv T nb mb (k + 1) (set_var "k" (k + 1) σ').
Proof.
  intros Hnb Hmb Hk
    (((Hvn & Hvm & Hvnb & Hvmb & Hin) & Hcnt & Hns & Hnr & Hms & Hmr) & Hvk
     & Hout' & Hst & Htr).
  destruct (tile_facts nb mb Hnb Hmb) as (? & ? & ? & ? & ? & ? & ? & ? & ?).
  destruct (cell_in_range m n (mb * t) k (nb * t) 0) as [? ?]; [lia..|].
  rewrite (Z.mul_comm m n) in *.
  set (σ1 := set_var "start" ((mb * t + k) * n + nb * t) σ).
  assert (∃ σ', runs [ For "l" (Var "nremain")
                         [ Copy "output" (Bin Add (Var "start") (Var "l"))
                                "tmp" (tmp_index t) ] ] σ1 σ'
                ∧ scatter_l_inv T nb mb k (remain t n (nb * t)) σ')
    as (σ' & Hruns & Hinv).
  { enter_loop (remain t n (nb * t)) (scatter_l_inv T nb mb k) σ' Hsteps Hinv;
      [lia| | |by intros; apply scatter_l_step|].
    - split_and!; try done. cbn [trace set_var σ1]. by rewrite Htr, app_nil_r.
    - intros l σl _ ((_ & _ & _ & ? & _) & _ & ? & _). done.
    - exists σ'. split; [|done]. eapply runs_cons; [done|apply runs_nil]. }
  destruct Hinv as (Hctx & Hvk' & Hvl' & _ & (out & Hmo & Hw) & Hst' & Htr').
  exists σ'. split; [|split; [done|]].
  - eapply runs_cons; [eapply steps_decl; eval_now|]. exact Hruns.
  - split_and!; try done.
    + exists out. split; [done|].
      eapply written_as_equiv; [|exact Hw]. intros i j. unfold FastTransposeInv.scattered, remain. lia.
    + cbn [trace set_var]. rewrite Htr', flat_map_seqZ_succ by lia.
      by rewrite app_assoc.
Qed.

Lemma scatter_runs T nb mb σ :
  0 ≤ nb < blocks t n → 0 ≤ mb < blocks t m →
  tile_ctx nb mb σ → out_as (tiles_done nb mb) σ → staged nb mb (whole_tile nb mb) σ →
  trace σ = T →
  ∃ σ', steps (scatter t) σ σ'
        ∧ tile_ctx nb mb σ' ∧ out_as (tiles_done nb (mb + 1)) σ' ∧ tmp_ok σ'
        ∧ trace σ' = T ++ scatter_moves n t (nb * t) (remain t n (nb * t))
                                        (mb * t) (remain t m (mb * t)).
Proof.
  intros Hnb Hmb Hctx Hout' Hst Htr.
  destruct (tile_facts nb mb Hnb Hmb) as (? & ? & ? & ? & ? & ? & ? & ? & ?).
  destruct (steps_for "k" (Var "mremain")
              [ Decl true "start"
                  (Bin Add (Bin Mul (Paren (Bin Add (Var "mstart") (Var "k"))) (Var "n"))
                           (Var "nstart"));
                For "l" (Var "nremain")
                  [ Copy "output" (Bin Add (Var "start") (Var "l")) "tmp" (tmp_index t) ] ]
              (remain t m (mb * t)) (scatter_k_inv T nb mb) σ)
    as (σ' & Hsteps & Hinv); [lia| | |by intros; apply scatter_k_step|].
  - destruct Hctx as (Hc & ? & ? & ? & ? & ?). split_and!; try done.
    cbn [trace set_var]. by rewrite Htr, app_nil_r.
  - intros k σk _ ((_ & _ & _ & _ & _ & ?) & ? & _). done.
  - destruct Hinv as (Hctx' & _ & (out & Hmo & Hw) & (tmp & Hmt & Htl & _) & Htr').
    exists σ'. split_and!; try done.
    + exists out. split; [done|].
      eapply written_as_equiv; [|exact Hw].
      intros i j. unfold FastTransposeInv.tiles_done, FastTransposeInv.scattered, remain. lia.
    + by exists tmp.
Qed.

Lemma mb_step T nb mb σ :
  0 ≤ nb < blocks t n → 0 ≤ mb < blocks t m →
  mb_inv T nb mb σ →
  ∃ σ', runs (tile_body t) σ σ'
        ∧ vars σ' "mb" = Some mb ∧ mb_inv T nb (mb + 1) (set_var "mb" (mb + 1) σ').
Proof.
  intros Hnb Hmb ((Hvn & Hvm & Hvnb & Hvmb & Hin) & (Hcn & Hcm) & Hns
                  & (v & Hnr & Hv) & Hout' & Htmp & Htr).
  destruct (tile_facts nb mb Hnb Hmb) as (? & ? & ? & ? & ? & ? & ? & ? & ?).
  destruct t_small as [? ?]. unfold addressable in Hnm.
  rewrite Hv in Hnr by lia.
  destruct (runs_tile_bounds t ltac:(lia) σ "mstart" "mremain" "mb" "m" mb m)
    as (w & Hbounds & Hw); [done|done|done|lia|lia|].
  rewrite Hw in Hbounds by nia. clear w Hw.
  match type of Hbounds with runs _ _ ?s => set (σ1 := s) in * end.
  assert (tile_ctx nb mb σ1) as Hctx.
  { split_and!; done. }
  destruct (gather_runs (trace σ) nb mb σ1 Hnb Hmb Hctx Hout' Htmp eq_refl)
    as (σ2 & Hg & Hctx2 & Hout2 & Hst2 & Htr2).
  destruct (scatter_runs _ nb mb σ2 Hnb Hmb Hctx2 Hout2 Hst2 Htr2)
    as (σ3 & Hs & Hctx3 & Hout3 & Htmp3 & Htr3).
  destruct Hctx3 as (Hc3 & (Hcn3 & Hcm3) & Hns3 & Hnr3 & _).
  exists σ3. split; [|split; [done|]].
  - unfold tile_body. eapply runs_app; [exact Hbounds|].
    eapply runs_cons; [apply steps_comment|].
    eapply runs_cons; [exact Hg|].
    eapply runs_cons; [apply steps_comment|].
    eapply runs_cons; [exact Hs|]. apply runs_nil.
  - split_and!; try done.
    + by exists (remain t n (nb * t)).
    + cbn [trace set_var]. rewrite Htr3, Htr, flat_map_seqZ_succ by lia.
      unfold tile_moves. by rewrite !app_assoc.
Qed.

Lemma nb_step nb σ :
  0 ≤ nb < blocks t n → nb_inv nb σ →
  ∃ σ', runs (tile_bounds "nstart" "nremain" "nb" "n" t
              ++ [ For "mb" (Var "mblocks") (tile_body t) ]) σ σ'
        ∧ vars σ' "nb" = Some nb ∧ nb_inv (nb + 1) (set_var "nb" (nb + 1) σ').
Proof.
  intros Hnb ((Hvn & Hvm & Hvnb & Hvmb & Hin) & Hcn & Hout' & Htmp & Htr).
  pose proof (blocks_start t n nb Ht ltac:(lia) Hnb).
  pose proof (blocks_range t m Ht ltac:(lia)).
  pose proof (blocks_cover t m Ht ltac:(lia)).
  destruct t_small as [? ?]. unfold addressable in Hnm.
  destruct (runs_tile_bounds t ltac:(lia) σ "nstart" "nremain" "nb" "n" nb n)
    as (v & Hbounds & Hv); [done|done|done|lia|lia|].
  match type of Hbounds with runs _ _ ?s => set (σ1 := s) in * end.
  assert (∃ σ', runs [ For "mb" (Var "mblocks") (tile_body t) ] σ1 σ'
                ∧ mb_inv (trace σ) nb (blocks t m) σ') as (σ' & Hruns & Hinv).
  { enter_loop (blocks t m) (mb_inv (trace σ) nb) σ' Hsteps Hinv;
      [lia| | |by intros; apply mb_step|].
    - destruct Hout' as (out & Hmo & Hw). split_and!; try done.
      + exists v. split; [done|]. intros Hm0. apply Hv; nia.
      + exists out. split; [done|]. eapply written_as_equiv; [|exact Hw].
        intros i j. unfold FastTransposeInv.tiles_done, FastTransposeInv.scattered, FastTransposeInv.rows_done. lia.
      + cbn [trace set_var σ1]. by rewrite app_nil_r.
    - intros mb σmb _ ((_ & _ & _ & ? & _) & (_ & ?) & _). done.
    - exists σ'. split; [|done]. eapply runs_cons; [done|apply runs_nil]. }
  destruct Hinv as (Hc' & (Hcn' & Hcm') & _ & _ & (out & Hmo & Hw) & Htmp' & Htr').
  exists σ'. split; [|split; [done|]].
  - eapply runs_app; [exact Hbounds|exact Hruns].
  - split_and!; try done.
    + exists out. split; [done|]. eapply written_as_equiv; [|exact Hw].
      intros i j. unfold FastTransposeInv.tiles_done, FastTransposeInv.scattered, FastTransposeInv.rows_done. nia.
    + cbn [trace set_var]. by rewrite Htr', Htr, flat_map_seqZ_succ by lia.
Qed.

(** *** The whole call *)

Lemma fast_transpose_runs :
  ∃ fuel σ', run fuel (fast_transpose_fn t)
               [ ASize n; ASize m; ABuf (Some <$> X); ABuf out0 ] = Done σ'
    ∧ trace σ' = fast_moves n m t
    ∧ mem σ' "input" = Some (Some <$> X)
    ∧ ∃ out, mem σ' "output" = Some out ∧ transposed n m X out0 out.
Proof.
  unfold run. cbn [f_params fast_transpose_fn transpose_params bind_params].
  destruct (Z.leb_spec 0 n); [|lia]. destruct (Z.ltb_spec n size_mod); [|lia].
  destruct (Z.leb_spec 0 m); [|lia]. destruct (Z.ltb_spec m size_mod); [|lia].
  cbn [andb f_body].
  match goal with |- context [exec_body _ _ ?s] => set (σ0 := s) end.
  destruct t_small as [? ?].
  pose proof (blocks_range t n Ht ltac:(lia)).
  pose proof (blocks_cover t n Ht ltac:(lia)).
  set (σ1 := set_mem "tmp" (replicate (Z.to_nat (t * t)) None) σ0).
  pose proof (runs_count_blocks t ltac:(lia) σ1 "nblocks" "n" n) as Hcn.
  match type of Hcn with _ → _ → _ → runs _ _ ?s => set (σ2 := s) in * end.
  pose proof (runs_count_blocks t ltac:(lia) σ2 "mblocks" "m" m) as Hcm.
  match type of Hcm with _ → _ → _ → runs _ _ ?s => set (σ3 := s) in * end.
  assert (∃ σ', runs [ For "nb" (Var "nblocks")
                         (tile_bounds "nstart" "nremain" "nb" "n" t
                          ++ [ For "mb" (Var "mblocks") (tile_body t) ]) ] σ3 σ'
                ∧ nb_inv (blocks t n) σ') as (σ' & Hruns & Hinv).
  { enter_loop (blocks t n) constr:(nb_inv) σ' Hsteps Hinv; [lia| | |by intros; apply nb_step|].
    - split_and!; try done.
      + exists out0. split; [done|]. apply written_as_none. unfold FastTransposeInv.rows_done. lia.
      + eexists. split; [reflexivity|]. by rewrite length_replicate.
    - intros nb σnb _ ((_ & _ & ? & _) & ? & _). done.
    - exists σ'. split; [|done]. eapply runs_cons; [done|apply runs_nil]. }
  assert (runs (f_body (fast_transpose_fn t)) σ0 σ') as [fuel Hfuel].
  { cbn [f_body fast_transpose_fn].
    eapply runs_app.
    { eapply runs_cons; [apply steps_comment|].
      eapply runs_cons; [apply steps_decl_array; lia|].
      eapply runs_cons; [apply steps_comment|]. apply runs_nil. }
    eapply runs_app; [apply Hcn; done|].
    eapply runs_app; [apply Hcm; done|].
    eapply runs_cons; [apply steps_comment|]. exact Hruns. }
  destruct Hinv as ((Hvn & Hvm & Hvnb & Hvmb & Hin) & _ & (out & Hmo & Hw) & _ & Htr).
  exists fuel, σ'. split_and!; try done.
  exists out. split; [done|]. eapply written_as_equiv; [|exact Hw].
  intros i j. unfold FastTransposeInv.rows_done, everywhere. nia.
Qed.

End Run.

End FastTranspose.

(** ** The gather of one tile, executed *)

Module Gather.
Import Kernel Exec ExecRuns ExecFacts Layout LayoutFacts Moves.
Import FastTranspose.

Section Run.
Context {A : Type}.
Implicit Types σ : state A.
Variables (n m t nstart nremain mstart mremain : Z) (X : list A).
Variables (tmp0 : list (option A)) (out : option (list (option A))) (T : list move).
Hypothesis Hn : 0 ≤ n < size_mod.
Hypothesis Hm : 0 ≤ m < size_mod.
Hypothesis Ht : 1 ≤ t.
Hypothesis Htt : addressable (t * t).
Hypothesis Hnm : addressable (n * m).
Hypothesis HX : (Z.to_nat (n * m) ≤ length X)%nat.
Hypothesis Htmp0 : length tmp0 = Z.to_nat (t * t).
Hypothesis Hns : 0 ≤ nstart.
Hypothesis Hnr : 0 ≤ nremain ≤ t.
Hypothesis Hnend : nstart + nremain ≤ n.
Hypothesis Hms : 0 ≤ mstart.
Hypothesis Hmr : 0 ≤ mremain ≤ t.
Hypothesis Hmend : mstart + mremain ≤ m.

Abbreviation tile_set := (GatherInv.tile_set m nstart nremain mstart mremain X out).
Abbreviation staged := (GatherInv.staged m t nstart mstart X tmp0).
Abbreviation gathered := (GatherInv.gathered nremain mremain).
Abbreviation whole_tile := (GatherInv.whole_tile nremain mremain).
Abbreviation gather_k_inv :=
  (GatherInv.gather_k_inv m t nstart nremain mstart mremain X tmp0 out T).
Abbreviation gather_l_inv :=
  (GatherInv.gather_l_inv m t nstart nremain mstart mremain X tmp0 out T).

Lemma tile_sizes : 1 ≤ t < size_mod ∧ t * t < size_mod ∧ n * m < size_mod.
Proof. unfold addressable in *. nia. Qed.

Lemma row_start_in_range (l : Z) :
  0 ≤ l < nremain → 0 ≤ (nstart + l) * m ∧ (nstart + l) * m + mstart + mremain ≤ n * m.
Proof. intros. set (i := nstart + l) in *. nia. Qed.

Lemma tile_gather_k_step l k σ :
  0 ≤ l < nremain → 0 ≤ k < mremain →
  gather_k_inv l k σ →
  ∃ σ', runs [ Copy "tmp" (tmp_index t) "input" (Bin Add (Var "start") (Var "k")) ] σ σ'
        ∧ vars σ' "k" = Some k ∧ gather_k_inv l (k + 1) (set_var "k" (k + 1) σ').
Proof.
  intros Hl Hk ((Hvm & Hvns & Hvnr & Hvms & Hvmr & Hin & Hout) & Hvl & Hvk & Hvs
                & (tmp & Hmt & Hw) & Htr).
  destruct tile_sizes as (? & ? & ?).
  destruct (tmp_in_range t k l) as [? ?]; [lia|lia|].
  destruct (row_start_in_range l Hl) as [? ?].
  pose proof Hw as (Hlen & _ & _).
  destruct (lookup_lt_is_Some_2 X (Z.to_nat ((nstart + l) * m + mstart + k)))
    as [x Hx]; [lia|].
  eexists. split; [|split].
  - eapply runs_cons; [|apply runs_nil].
    eapply steps_copy; [unfold tmp_index; zeval|zeval|exact Hin| |exact Hmt|lia].
    by rewrite list_lookup_fmap, Hx.
  - exact Hvk.
  - split_and!; try done.
    + exists (<[Z.to_nat (k * t + l) := Some x]> tmp). split; [reflexivity|].
      eapply written_as_equiv;
        [|apply (written_as_insert _ (λ l k, k * t + l)
                   (λ l k, (nstart + l) * m + mstart + k) _ _ _ l k (Some x) Hw)].
      * intros l' k'. unfold GatherInv.gathered. zlia.
      * by rewrite list_lookup_fmap, Hx.
      * lia.
      * intros l' k' (? & ? & ?) E. apply row_major_inj in E; zlia.
    + cbn [trace log set_mem set_var]. rewrite Htr, fmap_seqZ_succ by lia.
      by rewrite app_assoc.
Qed.

Lemma tile_gather_l_step l σ :
  0 ≤ l < nremain →
  gather_l_inv l σ →
  ∃ σ', runs [ Decl true "start"
                 (Bin Add (Bin Mul (Paren (Bin Add (Var "nstart") (Var "l"))) (Var "m"))
                          (Var "mstart"));
               For "k" (Var "mremain")
                 [ Copy "tmp" (tmp_index t) "input" (Bin Add (Var "start") (Var "k")) ] ]
             σ σ'
        ∧ vars σ' "l" = Some l ∧ gather_l_inv (l + 1) (set_var "l" (l + 1) σ').
Proof.
  intros Hl ((Hvm & Hvns & Hvnr & Hvms & Hvmr & Hin & Hout) & Hvl & Hst & Htr).
  destruct tile_sizes as (? & ? & ?).
  destruct (row_start_in_range l Hl) as [? ?].
  set (σ1 := set_var "start" ((nstart + l) * m + mstart) σ).
  assert (∃ σ', runs [ For "k" (Var "mremain")
                         [ Copy "tmp" (tmp_index t) "input"
                                (Bin Add (Var "start") (Var "k")) ] ] σ1 σ'
                ∧ gather_k_inv l mremain σ')
    as (σ' & Hruns & Hinv).
  { enter_loop mremain (gather_k_inv l) σ' Hsteps Hinv;
      [lia| | |by intros; apply tile_gather_k_step|].
    - split_and!; try done. cbn [trace set_var σ1]. by rewrite Htr, app_nil_r.
    - intros k σk _ ((_ & _ & _ & _ & ? & _) & _ & ? & _). done.
    - exists σ'. split; [|done]. eapply runs_cons; [done|apply runs_nil]. }
  destruct Hinv as (Hset & Hvl' & Hvk' & _ & (tmp & Hmt & Hw) & Htr').
  exists σ'. split; [|split; [done|]].
  - eapply runs_cons; [eapply steps_decl; zeval|]. exact Hruns.
  - split_and!; try done.
    + exists tmp. split; [done|]. eapply written_as_equiv; [|exact Hw].
      intros l' k'. unfold GatherInv.gathered. lia.
    + cbn [trace set_var]. rewrite Htr', flat_map_seqZ_succ by lia.
      by rewrite app_assoc.
Qed.

(** Started with the tile set up, the gather finishes and leaves the tile in
    [tmp], transposed; it touches nothing else. *)
Lemma gather_stages_tile σ :
  tile_set σ → mem σ "tmp" = Some tmp0 → trace σ = T →
  ∃ σ', steps (gather t) σ σ'
        ∧ tile_set σ' ∧ staged whole_tile σ'
        ∧ trace σ' = T ++ gather_moves m t nstart nremain mstart mremain.
Proof.
  intros Hset Hmt Htr.
  destruct tile_sizes as (? & ? & ?).
  destruct (steps_for "l" (Var "nremain")
              [ Decl true "start"
                  (Bin Add (Bin Mul (Paren (Bin Add (Var "nstart") (Var "l"))) (Var "m"))
                           (Var "mstart"));
                For "k" (Var "mremain")
                  [ Copy "tmp" (tmp_index t) "input" (Bin Add (Var "start") (Var "k")) ] ]
              nremain gather_l_inv σ)
    as (σ' & Hsteps & Hinv); [lia| | |by intros; apply tile_gather_l_step|].
  - destruct Hset as (? & ? & ? & ? & ? & ? & ?). split_and!; try done.
    + exists tmp0. split; [done|]. apply written_as_none.
      intros l' k'. unfold GatherInv.gathered. lia.
    + cbn [trace set_var]. by rewrite Htr, app_nil_r.
  - intros l σl _ ((_ & _ & ? & _) & ? & _). done.
  - destruct Hinv as (Hset' & _ & (tmp & Hmt' & Hw) & Htr').
    exists σ'. split_and!; try done.
    exists tmp. split; [done|]. eapply written_as_equiv; [|exact Hw].
    intros l' k'. unfold GatherInv.gathered, GatherInv.whole_tile. lia.
Qed.

End Run.

End Gather.

(** ** The blocked transpose comes to the gather of every tile *)

Module FastTransposePasses.
Import Kernel Exec ExecRuns ExecFacts Passes PassesFacts Layout LayoutFacts Moves.
Import FastTranspose.

Section Run.
Context {A : Type}.
Implicit Types σ : state A.
Variables (n m t : Z) (X : list A) (out0 : list (option A)).
Hypothesis Hn : 0 ≤ n < size_mod.
Hypothesis Hm : 0 ≤ m < size_mod.
Hypothesis Ht : 1 ≤ t.
Hypothesis Htt : addressable (t * t).
Hypothesis Hnm : addressable (n * m).
Hypothesis HX : (Z.to_nat (n * m) ≤ length X)%nat.
Hypothesis Hout : (Z.to_nat (n * m) ≤ length out0)%nat.

Abbreviation tile_ctx := (FastTransposeInv.tile_ctx n m t X).
Abbreviation out_as := (FastTransposeInv.out_as n m X out0).
Abbreviation staged := (FastTransposeInv.staged m t X).
Abbreviation tmp_ok := (FastTransposeInv.tmp_ok t).
Abbreviation tiles_done := (FastTransposeInv.tiles_done n m t).
Abbreviation whole_tile := (FastTransposeInv.whole_tile n m t).
Abbreviation mb_inv := (FastTransposeInv.mb_inv n m t X out0).
Abbreviation nb_inv := (FastTransposeInv.nb_inv n m t X out0).

(** The state in which the call enters the loop over the row tiles. *)
Lemma outer_loop_entered :
  ∃ σ0 σ3,
    bind_params (f_params (fast_transpose_fn t))
      [ ASize n; ASize m; ABuf (Some <$> X); ABuf out0 ] empty_state = Some σ0
    ∧ runs ([ Comment "Temps"; DeclArray "tmp" (t * t); Comment "Sizing" ]
            ++ count_blocks "nblocks" "n" t
            ++ count_blocks "mblocks" "m" t
            ++ [ Comment "Outer blocks" ]) σ0 σ3
    ∧ nb_inv 0 (set_var "nb" 0 σ3).
Proof.
  cbn [f_params fast_transpose_fn transpose_params bind_params].
  destruct (Z.leb_spec 0 n); [|lia]. destruct (Z.ltb_spec n size_mod); [|lia].
  destruct (Z.leb_spec 0 m); [|lia]. destruct (Z.ltb_spec m size_mod); [|lia].
  cbn [andb].
  eexists.
  match goal with |- ∃ _, Some ?s = _ ∧ _ => set (σ0 := s) end.
  destruct (t_small n m t X out0 Hn Hm Ht Htt HX Hout) as [? ?].
  pose proof (blocks_range t n Ht ltac:(lia)).
  set (σ1 := set_mem "tmp" (replicate (Z.to_nat (t * t)) None) σ0).
  pose proof (runs_count_blocks t ltac:(lia) σ1 "nblocks" "n" n) as Hcn.
  match type of Hcn with _ → _ → _ → runs _ _ ?s => set (σ2 := s) in * end.
  pose proof (runs_count_blocks t ltac:(lia) σ2 "mblocks" "m" m) as Hcm.
  match type of Hcm with _ → _ → _ → runs _ _ ?s => set (σ3 := s) in * end.
  exists σ3. split; [done|]. split.
  - eapply runs_app.
    { eapply runs_cons; [apply steps_comment|].
      eapply runs_cons; [apply steps_decl_array; lia|].
      eapply runs_cons; [apply steps_comment|]. apply runs_nil. }
    eapply runs_app; [apply Hcn; done|].
    eapply runs_app; [apply Hcm; done|].
    eapply runs_cons; [apply steps_comment|]. apply runs_nil.
  - split_and!; try done.
    + exists out0. split; [done|]. apply written_as_none.
      unfold FastTransposeInv.rows_done. lia.
    + eexists. split; [reflexivity|]. by rewrite length_replicate.
Qed.

(** The run comes to the gather of every tile, with the tile set up and the
    copies of the tiles before it logged; the gather then leaves the tile in
    [tmp], transposed. *)
Lemma gather_reached nb mb :
  0 ≤ nb < blocks t n → 0 ≤ mb < blocks t m →
  ∃ σ0 σ1 σ2,
    bind_params (f_params (fast_transpose_fn t))
      [ ASize n; ASize m; ABuf (Some <$> X); ABuf out0 ] empty_state = Some σ0
    ∧ reaches (f_body (fast_transpose_fn t)) σ0 (gather t) σ1
    ∧ steps (gather t) σ1 σ2
    ∧ tile_ctx nb mb σ1
    ∧ trace σ1 = flat_map (tile_row_moves n m t) (seqZ 0 nb)
                 ++ flat_map (tile_moves n m t nb) (seqZ 0 mb)
    ∧ staged nb mb (whole_tile nb mb) σ2
    ∧ trace σ2 = trace σ1 ++ gather_moves m t (nb * t) (remain t n (nb * t))
                                          (mb * t) (remain t m (mb * t)).
Proof.
  intros Hnb Hmb.
  destruct outer_loop_entered as (σ0 & σ3 & Hbind & Hpre & Hinv0).
  destruct (t_small n m t X out0 Hn Hm Ht Htt HX Hout) as [? ?]. unfold addressable in Hnm.
  pose proof (blocks_range t n Ht ltac:(lia)).
  pose proof (blocks_range t m Ht ltac:(lia)).
  pose proof (blocks_cover t m Ht ltac:(lia)).
  pose proof (blocks_start t n nb Ht ltac:(lia) Hnb).
  (* the row tile *)
  destruct (heads_inv "nb" (Var "nblocks")
              (tile_bounds "nstart" "nremain" "nb" "n" t
               ++ [ For "mb" (Var "mblocks") (tile_body t) ])
              (blocks t n) nb_inv σ3) with (i := nb)
    as (σnb & Hhnb & Hinb);
    [lia|done| |by intros; apply (nb_step n m t X out0 Hn Hm Ht Htt Hnm HX Hout)|lia|].
  { intros i σi _ ((_ & _ & ? & _) & ? & _). done. }
  pose proof Hinb as ((Hvn & Hvm & Hvnb & Hvmb & Hin) & Hcn & Hout' & Htmp & Htr).
  destruct (runs_tile_bounds t ltac:(lia) σnb "nstart" "nremain" "nb" "n" nb n)
    as (v & Hbounds & Hv); [done|done|done|lia|lia|].
  match type of Hbounds with runs _ _ ?s => set (σb := s) in * end.
  (* the column tile *)
  destruct (heads_inv "mb" (Var "mblocks") (tile_body t)
              (blocks t m) (mb_inv (trace σnb) nb) σb) with (i := mb)
    as (σmb & Hhmb & Himb);
    [lia| | |by intros; apply (mb_step n m t X out0 Hn Hm Ht Htt Hnm HX Hout)|lia|].
  { destruct Hout' as (out & Hmo & Hw). split_and!; try done.
    - exists v. split; [done|]. intros Hm0. apply Hv; nia.
    - exists out. split; [done|]. eapply written_as_equiv; [|exact Hw].
      intros i j. unfold FastTransposeInv.tiles_done, FastTransposeInv.scattered,
        FastTransposeInv.rows_done. lia.
    - cbn [trace set_var σb]. by rewrite app_nil_r. }
  { intros i σi _ ((_ & _ & _ & ? & _) & (_ & ?) & _). done. }
  destruct Himb as ((Hvn' & Hvm' & Hvnb' & Hvmb' & Hin') & (Hcn' & Hcm') & Hns
                    & (v' & Hnr & Hv') & Hout'' & Htmp' & Htr').
  destruct (tile_facts n m t X out0 Hn Hm Ht Hnm HX Hout nb mb Hnb Hmb) as (? & ? & ? & ? & ? & ? & ? & ? & ?).
  rewrite Hv' in Hnr by lia.
  destruct (runs_tile_bounds t ltac:(lia) σmb "mstart" "mremain" "mb" "m" mb m)
    as (w & Hbm & Hw); [done|done|done|lia|lia|].
  rewrite Hw in Hbm by nia. clear w Hw.
  match type of Hbm with runs _ _ ?s => set (σ1 := s) in * end.
  assert (tile_ctx nb mb σ1) as Hctx.
  { split_and!; done. }
  destruct (gather_runs n m t X out0 Hn Hm Ht Htt Hnm HX Hout (trace σ1) nb mb σ1
              Hnb Hmb Hctx Hout'' Htmp' eq_refl)
    as (σ2 & Hg & _ & _ & Hst2 & Htr2).
  exists σ0, σ1, σ2. split_and!; try done.
  - change (f_body (fast_transpose_fn t))
      with (([ Comment "Temps"; DeclArray "tmp" (t * t); Comment "Sizing" ]
             ++ count_blocks "nblocks" "n" t
             ++ count_blocks "mblocks" "m" t
             ++ [ Comment "Outer blocks" ])
            ++ For "nb" (Var "nblocks")
                 (tile_bounds "nstart" "nremain" "nb" "n" t
                  ++ [ For "mb" (Var "mblocks") (tile_body t) ]) :: []).
    eapply reaches_inside; [exact Hpre|exact Hhnb|exact Hcn|cbn; by rewrite Hvnb|lia|].
    eapply reaches_inside; [exact Hbounds|exact Hhmb|exact Hcm'|cbn; by rewrite Hvmb'|lia|].
    change (tile_body t)
      with ((tile_bounds "mstart" "mremain" "mb" "m" t
             ++ [ Comment "Copy data to inner block" ])
            ++ gather t :: [ Comment "Copy data to inner block"; scatter t ]).
    apply reaches_here.
    eapply runs_app; [exact Hbm|].
    eapply runs_cons; [apply steps_comment|apply runs_nil].
  - cbn [trace set_var σ1]. by rewrite Htr', Htr.
Qed.

End Run.

End FastTransposePasses.

(** ** A name a kernel never mentions does not matter *)

Module UnusedFacts.
Import Kernel Exec Unused.

Section WithElements.
Context {A : Type}.
Implicit Types σ : state A.
Variable x : string.

Abbreviation agree := (Unused.agree x).
Abbreviation sim := (Unused.sim x).

Lemma agree_var σ1 σ2 y : agree σ1 σ2 → String.eqb x y = false → vars σ1 y = vars σ2 y.
Proof. intros (Hv & _) Hne. apply Hv. apply String.eqb_neq in Hne. congruence. Qed.

Lemma agree_set_var σ1 σ2 y v : agree σ1 σ2 → agree (set_var y v σ1) (set_var y v σ2).
Proof.
  intros (Hv & Hm & Ht). split_and!; [|done|done].
  intros z Hz. cbn. unfold update. destruct (String.eqb y z); [done|by apply Hv].
Qed.

Lemma agree_set_mem σ1 σ2 a cells :
  agree σ1 σ2 → agree (set_mem a cells σ1) (set_mem a cells σ2).
Proof.
  intros (Hv & Hm & Ht). split_and!; [done| |done].
  intros b. cbn. unfold update. destruct (String.eqb a b); [done|apply Hm].
Qed.

Lemma agree_log σ1 σ2 e : agree σ1 σ2 → agree (log e σ1) (log e σ2).
Proof. intros (Hv & Hm & Ht). split_and!; [done|done|]. cbn. by rewrite Ht. Qed.

Lemma eval_agree σ1 σ2 e :
  agree σ1 σ2 → expr_mentions x e = false → eval σ1 e = eval σ2 e.
Proof.
  intros Hag. induction e as [y|z|op a IHa b IHb|e IH|c IHc a IHa b IHb]; simpl; intros Hm.
  - by apply agree_var.
  - done.
  - apply orb_false_iff in Hm as [Ha Hb]. by rewrite IHa, IHb.
  - by apply IH.
  - apply orb_false_iff in Hm as [Hm Hb]. apply orb_false_iff in Hm as [Hc Ha].
    by rewrite IHc, IHa, IHb.
Qed.

Lemma copy_agree σ1 σ2 dst di src si :
  agree σ1 σ2 → sim (copy dst di src si σ1) (copy dst di src si σ2).
Proof.
  intros Hag. pose proof Hag as (_ & Hm & _). unfold copy. rewrite !Hm.
  destruct (mem σ2 src) as [cells|]; [|done].
  destruct (cells !! Z.to_nat si) as [[c|]|]; try done.
  destruct (mem σ2 dst) as [cells'|]; [|done].
  destruct (Z.to_nat di <? length cells')%nat; [|done].
  by apply agree_log, agree_set_mem.
Qed.

Lemma exec_seq_agree (ex : stmt → state A → outcome (state A)) ss σ1 σ2 :
  (∀ s σ1 σ2, mentions x s = false → agree σ1 σ2 → sim (ex s σ1) (ex s σ2)) →
  existsb (mentions x) ss = false → agree σ1 σ2 →
  sim (exec_seq ex ss σ1) (exec_seq ex ss σ2).
Proof.
  intros Hex. revert σ1 σ2. induction ss as [|s ss IH]; intros σ1 σ2 Hm Hag; [done|].
  simpl in Hm. apply orb_false_iff in Hm as [Hs Hss]. simpl.
  pose proof (Hex s σ1 σ2 Hs Hag) as Hsim.
  destruct (ex s σ1), (ex s σ2); try done. by apply IH.
Qed.

Lemma iterate_agree (body : state A → outcome (state A)) v bound k σ1 σ2 :
  (∀ σ1 σ2, agree σ1 σ2 → sim (body σ1) (body σ2)) →
  String.eqb x v = false → expr_mentions x bound = false → agree σ1 σ2 →
  sim (iterate body v bound k σ1) (iterate body v bound k σ2).
Proof.
  intros Hbody Hv Hb. revert σ1 σ2. induction k as [|k IH]; intros σ1 σ2 Hag; [done|].
  simpl. rewrite (agree_var σ1 σ2 v Hag Hv), (eval_agree σ1 σ2 bound Hag Hb).
  destruct (vars σ2 v) as [i|]; [|done].
  destruct (eval σ2 bound) as [n|]; [|done].
  destruct (i <? n); [|done].
  pose proof (Hbody σ1 σ2 Hag) as Hsim.
  destruct (body σ1) as [σ1'| |], (body σ2) as [σ2'| |]; try done.
  rewrite (agree_var σ1' σ2' v Hsim Hv).
  destruct (vars σ2' v) as [i'|]; [|done].
  by apply IH, agree_set_var.
Qed.

Lemma exec_agree fuel s σ1 σ2 :
  mentions x s = false → agree σ1 σ2 → sim (exec fuel s σ1) (exec fuel s σ2).
Proof.
  revert s σ1 σ2. induction fuel as [|fuel IH]; intros s σ1 σ2 Hm Hag; [done|].
  destruct s as [text| |y len|c y e|y e|dst di src si|v bound body]; simpl in *.
  - done.
  - done.
  - destruct (len <? 0); [done|]. by apply agree_set_mem.
  - apply orb_false_iff in Hm as [_ He]. rewrite (eval_agree σ1 σ2 e Hag He).
    destruct (eval σ2 e); [|done]. by apply agree_set_var.
  - apply orb_false_iff in Hm as [Hy He].
    rewrite (agree_var σ1 σ2 y Hag Hy), (eval_agree σ1 σ2 e Hag He).
    destruct (vars σ2 y); [|done]. destruct (eval σ2 e); [|done]. by apply agree_set_var.
  - repeat (apply orb_false_iff in Hm as [Hm ?]).
    rewrite (eval_agree σ1 σ2 di Hag), (eval_agree σ1 σ2 si Hag) by done.
    destruct (eval σ2 di); [|done]. destruct (eval σ2 si); [|done]. by apply copy_agree.
  - apply orb_false_iff in Hm as [Hm Hbody]. apply orb_false_iff in Hm as [Hv Hb].
    apply iterate_agree; [|done|done|by apply agree_set_var].
    intros σ3 σ4. by apply exec_seq_agree.
Qed.

Lemma exec_body_agree fuel ss σ1 σ2 :
  existsb (mentions x) ss = false → agree σ1 σ2 →
  sim (exec_body fuel ss σ1) (exec_body fuel ss σ2).
Proof. apply exec_seq_agree. intros s σ3 σ4. apply exec_agree. Qed.

End WithElements.

End UnusedFacts.

(** The wrapper generators issue exactly the calls of the wrapper trees. *)
Lemma pybind11_transpose_emits (func_name wrapper_name : string) :
  pybind11_transpose func_name wrapper_name
  = Wrapper.emit (Wrapper.pybind11_transpose_fn func_name wrapper_name).
Proof.
  unfold pybind11_transpose, pybind11_transpose_sig, Wrapper.emit. cbn.
  rewrite !append_assoc. reflexivity.
Qed.

Lemma append_nil_r (a : string) : a +:+ "" = a.
Proof.
  induction a as [|x a IH]; [reflexivity|].
  change (String x (a +:+ "") = String x a). by rewrite IH.
Qed.

Lemma fold_left_suffixes (g : string → string) (l : list string) (a : string) :
  fold_left (λ acc c, acc +:+ g c) l a = a +:+ suffixes g l.
Proof.
  revert a. induction l as [|c l IH]; intros a; simpl.
  - by rewrite append_nil_r.
  - by rewrite IH, append_assoc.
Qed.

Lemma suffixes_ext (g h : string → string) (l : list string) :
  (∀ c, g c = h c) → suffixes g l = suffixes h l.
Proof. intros E. induction l as [|c l IH]; simpl; [done|]. by rewrite E, IH. Qed.

Lemma render_more_params_app (ps qs : list Wrapper.param) :
  Wrapper.render_more_params (ps ++ qs)
  = Wrapper.render_more_params ps +:+ Wrapper.render_more_params qs.
Proof.
  induction ps as [|p ps IH]; simpl; [done|]. by rewrite IH, !append_assoc.
Qed.

Lemma render_more_deriv_params (derivs : list string) :
  Wrapper.render_more_params (Wrapper.deriv_param <$> derivs)
  = suffixes (λ c, ", py::array_t<double> arr_" +:+ c +:+ "_out") derivs.
Proof.
  induction derivs as [|c l IH]; [done|]. rewrite fmap_cons.
  cbn [Wrapper.render_more_params suffixes fold_right]. rewrite IH.
  unfold Wrapper.render_param. cbn. by rewrite !append_assoc.
Qed.

Lemma join_app_suffixes (sep : string) (h : string → string) (l1 l2 : list string) :
  l1 ≠ [] →
  Wrapper.join sep (l1 ++ (h <$> l2)) = Wrapper.join sep l1 +:+ suffixes (λ c, sep +:+ h c) l2.
Proof.
  intros Hne. induction l1 as [|a l1 IH]; [done|].
  destruct l1 as [|b l1].
  - clear IH Hne. simpl. revert a. induction l2 as [|c l2 IH2]; intros a; simpl.
    + by rewrite append_nil_r.
    + rewrite IH2. by rewrite !append_assoc.
  - change (a +:+ sep +:+ Wrapper.join sep ((b :: l1) ++ (h <$> l2))
            = (a +:+ sep +:+ Wrapper.join sep (b :: l1)) +:+ suffixes (λ c, sep +:+ h c) l2).
    rewrite IH by done. by rewrite !append_assoc.
Qed.

Lemma pybind11_func_sig_renders (name call_name : string) (max_L : Z) (derivs : list string) :
  pybind11_func_sig name derivs
  = Wrapper.render_sig (Wrapper.pybind11_func_fn derivs name call_name max_L).
Proof.
  unfold pybind11_func_sig, Wrapper.render_sig, Wrapper.pybind11_func_fn.
  cbn [Wrapper.f_name Wrapper.f_params app Wrapper.render_params].
  change (Wrapper.mkparam Wrapper.TArray "arr_xyz" false :: ?l) with
    ([Wrapper.mkparam Wrapper.TArray "arr_xyz" false;
      Wrapper.mkparam Wrapper.TArray "arr_coeffs" false;
      Wrapper.mkparam Wrapper.TArray "arr_exponents" true;
      Wrapper.mkparam Wrapper.TArray "arr_center" false;
      Wrapper.mkparam Wrapper.TBool "spherical" false;
      Wrapper.mkparam Wrapper.TArray "arr_out" true] ++ (Wrapper.deriv_param <$> derivs)).
  rewrite render_more_params_app, render_more_deriv_params, fold_left_suffixes.
  generalize (suffixes (λ c, ", py::array_t<double> arr_" +:+ c +:+ "_out") derivs).
  intros tail. cbn. rewrite !append_assoc. reflexivity.
Qed.

Lemma pybind11_func_call_renders (call_name : string) (derivs : list string) :
  pybind11_func_call call_name derivs
  = call_name +:+ "(" +:+
    Wrapper.join ", " (Wrapper.render_expr <$> Wrapper.kernel_args derivs) +:+ ")".
Proof.
  unfold pybind11_func_call, Wrapper.kernel_args.
  rewrite fmap_app, <- list_fmap_compose, join_app_suffixes by done.
  rewrite fold_left_suffixes.
  change (suffixes (λ c, ", " +:+ (Wrapper.render_expr ∘ Wrapper.deriv_pointer) c) derivs)
    with (suffixes (λ c, ", out_" +:+ c +:+ ".mutable_data(0, 0)") derivs).
  generalize (suffixes (λ c, ", out_" +:+ c +:+ ".mutable_data(0, 0)") derivs).
  intros tail. cbn. rewrite !append_assoc. reflexivity.
Qed.

Lemma flat_map_fmap {B C D : Type} (g : C → list D) (f : B → C) (l : list B) :
  flat_map g (f <$> l) = flat_map (λ x, g (f x)) l.
Proof.
  induction l as [|x l IH]; [done|]. rewrite fmap_cons. cbn [flat_map]. by rewrite IH.
Qed.

Lemma emit_deriv_view (cart : string) :
  Wrapper.emit_stmt (Wrapper.deriv_view cart)
  = [ Write ("auto out_" +:+ cart +:+ " = arr_" +:+ cart +:+ "_out.mutable_unchecked<2>()")
            None ].
Proof. cbn. by rewrite !append_assoc. Qed.

Lemma emit_rows_check (cart : string) :
  Wrapper.emit_stmt (Wrapper.rows_check cart)
  = [ StartCBlock ("if (out_" +:+ cart +:+ ".shape(0) != nsize)");
      Write ("    throw std::length_error(" +:+ dq +:+
             "Size of the output " +:+ upper cart +:+
             " array does not match the angular momentum.\n" +:+ dq +:+ ")") None;
      CloseCBlock ].
Proof. cbn. by rewrite !append_assoc. Qed.

Lemma emit_cols_check (cart : string) :
  Wrapper.emit_stmt (Wrapper.cols_check cart)
  = [ StartCBlock ("if (out_" +:+ cart +:+ ".shape(1) != arr_xyz.shape(1))");
      Write ("    throw std::length_error(" +:+ dq +:+
             "Size of the output " +:+ upper cart +:+
             " array and XYZ array must be the same.\n" +:+ dq +:+ ")") None;
      CloseCBlock ].
Proof. cbn. by rewrite !append_assoc. Qed.

Lemma pybind11_func_emits (get_deriv_indices : Z → list string)
  (name : string) (grad : Z) (call_name : string) (max_L : Z) :
  pybind11_func get_deriv_indices name grad call_name max_L
  = Wrapper.emit (Wrapper.pybind11_func_fn (get_deriv_indices grad) name call_name max_L).
Proof.
  unfold pybind11_func, Wrapper.emit.
  rewrite <- pybind11_func_sig_renders.
  generalize (get_deriv_indices grad). intros derivs.
  unfold Wrapper.pybind11_func_fn. cbn [Wrapper.f_body Wrapper.f_blank_after_sig].
  rewrite !flat_map_app, !flat_map_fmap.
  rewrite (flat_map_ext _ _ emit_deriv_view), (flat_map_ext _ _ emit_rows_check),
    (flat_map_ext _ _ emit_cols_check).
  rewrite pybind11_func_call_renders.
  cbn [flat_map Wrapper.emit_stmt app Wrapper.order_check Wrapper.render_expr
       Wrapper.render_cmp Wrapper.render_exn Wrapper.nsize_spherical Wrapper.nsize_cartesian
       Wrapper.render_binop].
  repeat (rewrite <- !app_assoc; cbn [app]).
  generalize (fmt_d max_L). intros s.
  rewrite !append_assoc. reflexivity.
Qed.

(** ** The kernel wrapper on sample calls *)

Example wrapper_order2 :
  WrapperExec.call (Wrapper.pybind11_func_fn ["x"; "y"; "z"] "f" "gg_collocation" 3) xyz35
  = Contract.wrapper_contract 3 ["x"; "y"; "z"] "gg_collocation" xyz35.
Proof. vm_compute. reflexivity. Qed.

Example wrapper_order4 :
  WrapperExec.call (Wrapper.pybind11_func_fn ["x"; "y"; "z"] "f" "gg_collocation" 3)
                   xyz25_order4
  = WrapperExec.Threw Wrapper.invalid_argument
      "Exceeded compiled angular momentum of 3. Please recompile with a higher angular momentum.\n"
      [].
Proof. vm_compute. reflexivity. Qed.

(** ** The kernel wrapper meets its contracts *)

Module WrapperFacts.
Import Wrapper WrapperExec Contract.

Lemma run_app ss1 ss2 e calls :
  run (ss1 ++ ss2) e calls
  = match run ss1 e calls with
    | Next e' calls' => run ss2 e' calls'
    | r => r
    end.
Proof.
  revert e calls. induction ss1 as [|s ss1 IH]; intros e calls; simpl; [done|].
  destruct (exec s e calls); by try apply IH.
Qed.

Section Run.
Variables (max_L : Z) (derivs : list string) (name call_name : string) (a : arguments).
Hypothesis Hwt : well_typed derivs a.
Abbreviation deriv_shape tag := (arg_shape a ("arr_" +:+ tag +:+ "_out")).

Abbreviation add_view := (WrapperViews.add_view a).
Abbreviation with_views := (WrapperViews.with_views a).

(** *** The environment *)

Lemma has_param_deriv ty x l :
  ty ≠ TArray → has_param ty x (deriv_param <$> l) = false.
Proof.
  intros Hty. induction l as [|c l IH]; [done|]. rewrite fmap_cons.
  unfold has_param in *. cbn [existsb p_type deriv_param]. rewrite IH.
  by destruct ty.
Qed.

Lemma has_param_deriv_array tag l :
  tag ∈ l → has_param TArray ("arr_" +:+ tag +:+ "_out") (deriv_param <$> l) = true.
Proof.
  intros Hin. unfold has_param. apply existsb_exists.
  exists (deriv_param tag). split.
  - apply list_elem_of_In, list_elem_of_fmap. by exists tag.
  - cbn. apply String.eqb_refl.
Qed.

Lemma with_views_ints l e : ints (with_views l e) = ints e.
Proof. revert e. induction l as [|c l IH]; intros e; [done|]. simpl. by rewrite IH. Qed.

Lemma with_views_bools l e : bools (with_views l e) = bools e.
Proof. revert e. induction l as [|c l IH]; intros e; [done|]. simpl. by rewrite IH. Qed.

Lemma with_views_other l e y :
  (∀ tag, tag ∈ l → String.eqb ("out_" +:+ tag) y = false) →
  arrays (with_views l e) y = arrays e y.
Proof.
  revert e. induction l as [|c l IH]; intros e Hy; [done|]. simpl.
  rewrite IH by (intros tag Htag; apply Hy; by right).
  cbn. unfold update. rewrite Hy; [done|by left].
Qed.

Lemma with_views_view l e tag :
  tag ∈ l →
  arrays (with_views l e) ("out_" +:+ tag) = Some ("arr_" +:+ tag +:+ "_out", deriv_shape tag).
Proof.
  revert e. induction l as [|c l IH]; intros e Hin; [by apply elem_of_nil in Hin|].
  simpl. destruct (decide (tag ∈ l)) as [Hl|Hl]; [by apply IH|].
  apply elem_of_cons in Hin as [->|?]; [|done].
  rewrite with_views_other.
  - cbn. unfold update. cbn. by rewrite String.eqb_refl.
  - intros tag' Htag. apply String.eqb_neq. intros E. injection E as E.
    change (tag' = c) in E. by subst.
Qed.

Lemma run_views l e calls :
  (∀ tag, tag ∈ l →
     arrays e ("arr_" +:+ tag +:+ "_out") = Some ("arr_" +:+ tag +:+ "_out", deriv_shape tag)
     ∧ length (deriv_shape tag) = 2%nat) →
  run (deriv_view <$> l) e calls = Next (with_views l e) calls.
Proof.
  revert e. induction l as [|c l IH]; intros e Hl; [done|].
  rewrite fmap_cons. cbn [run exec deriv_view].
  destruct (Hl c) as [Harr Hlen]; [by left|]. rewrite Harr, Hlen. cbn [Z.of_nat Z.eqb Pos.eqb Pos.of_succ_nat Pos.succ].
  apply IH. intros tag Htag. destruct (Hl tag) as [Harr' Hlen']; [by right|].
  split; [|done]. cbn. exact Harr'.
Qed.

(** *** Checks over the derivative buffers *)

Lemma run_rows l e calls ns :
  ints e "nsize" = Some ns →
  (∀ tag, tag ∈ l →
     (∃ base, arrays e ("out_" +:+ tag) = Some (base, deriv_shape tag))
     ∧ length (deriv_shape tag) = 2%nat) →
  run (rows_check <$> l) e calls
  = match find (λ tag, negb (dim a (buffer_param (Derivative tag)) 0 =? ns)) l with
    | Some tag => Raise length_error (thrown (rows_check tag)).2 calls
    | None => Next e calls
    end.
Proof.
  intros Hns. induction l as [|c l IH]; intros Hl; [done|].
  rewrite fmap_cons. cbn [run exec rows_check eval_int find].
  destruct (Hl c) as [[base Harr] Hlen]; [by left|]. rewrite Harr, Hns.
  unfold dim at 1. cbn [buffer_param] in *.
  destruct (deriv_shape c) as [|d0 [|d1 [|]]] eqn:E; try done.
  change ([d0; d1] !! Z.to_nat 0) with (Some d0).
  change (default 0 ([d0; d1] !! 0%nat)) with d0.
  cbn [Z.ltb Z.compare violated thrown rows_check snd].
  destruct (d0 =? ns); cbn [negb]; [|done].
  apply IH. intros tag Htag. apply Hl. by right.
Qed.

Lemma run_cols l e calls xyz_base x0 x1 :
  arrays e "arr_xyz" = Some (xyz_base, [x0; x1]) →
  (∀ tag, tag ∈ l →
     (∃ base, arrays e ("out_" +:+ tag) = Some (base, deriv_shape tag))
     ∧ length (deriv_shape tag) = 2%nat) →
  run (cols_check <$> l) e calls
  = match find (λ tag, negb (dim a (buffer_param (Derivative tag)) 1 =? x1)) l with
    | Some tag => Raise length_error (thrown (cols_check tag)).2 calls
    | None => Next e calls
    end.
Proof.
  intros Hxyz. induction l as [|c l IH]; intros Hl; [done|].
  rewrite fmap_cons. cbn [run exec cols_check eval_int find].
  destruct (Hl c) as [[base Harr] Hlen]; [by left|]. rewrite Harr, Hxyz.
  unfold dim at 1. cbn [buffer_param] in *.
  destruct (deriv_shape c) as [|d0 [|d1 [|]]] eqn:E; try done.
  change ([d0; d1] !! Z.to_nat 1) with (Some d1).
  change ([x0; x1] !! Z.to_nat 1) with (Some x1).
  change (default 0 ([d0; d1] !! 1%nat)) with d1.
  cbn [Z.ltb Z.compare violated thrown cols_check snd].
  destruct (d1 =? x1); cbn [negb]; [|done].
  apply IH. intros tag Htag. apply Hl. by right.
Qed.

Lemma eval_values_app e xs ys vs ws :
  eval_values e xs = Some vs → eval_values e ys = Some ws →
  eval_values e (xs ++ ys) = Some (vs ++ ws).
Proof.
  revert vs. induction xs as [|x xs IH]; intros vs Hxs Hys; simpl in *.
  - by simplify_eq.
  - destruct (eval_value e x); [|done]. destruct (eval_values e xs) eqn:E; [|done].
    simplify_eq. by rewrite (IH l).
Qed.

Lemma eval_deriv_pointers l e :
  (∀ tag, tag ∈ l →
     arrays e ("out_" +:+ tag) = Some ("arr_" +:+ tag +:+ "_out", deriv_shape tag)
     ∧ length (deriv_shape tag) = 2%nat) →
  eval_values e (deriv_pointer <$> l)
  = Some ((λ tag, VPtr (buffer_param (Derivative tag)) [0; 0]) <$> l).
Proof.
  induction l as [|c l IH]; intros Hl; [done|]. rewrite !fmap_cons.
  cbn [eval_values eval_value deriv_pointer eval_pointer].
  destruct (Hl c) as [Harr Hlen]; [by left|]. unfold eval_pointer. rewrite Harr, Hlen.
  rewrite IH by (intros tag Htag; apply Hl; by right). done.
Qed.

(** *** The row count *)

Lemma int_okb_true z : int_ok z → int_okb z = true.
Proof.
  unfold int_ok, int_okb. intros [? ?].
  destruct (Z.leb_spec (- 2 ^ 31) z); [|lia]. by destruct (Z.ltb_spec z (2 ^ 31)); [|lia].
Qed.

Lemma eval_add x y : int_ok (x + y) → eval_binop Add x y = Some (x + y).
Proof. intros H. unfold eval_binop. by rewrite int_okb_true. Qed.

Lemma eval_mul x y : int_ok (x * y) → eval_binop Mul x y = Some (x * y).
Proof. intros H. unfold eval_binop. by rewrite int_okb_true. Qed.

Lemma eval_div x y :
  0 ≤ x → 0 < y → int_ok (x / y) → eval_binop Div x y = Some (x / y).
Proof.
  intros Hx Hy H. unfold eval_binop. destruct (Z.eqb_spec y 0); [lia|].
  rewrite Z.quot_div_nonneg by lia. by rewrite int_okb_true.
Qed.

Lemma eval_nsize e (spherical : bool) L :
  ints e "L" = Some L → small_order L →
  eval_int e (if spherical then nsize_spherical else nsize_cartesian)
  = Some (expected_rows spherical L) ∧ int_ok (expected_rows spherical L).
Proof.
  intros HL Hsmall. unfold small_order in Hsmall. unfold expected_rows.
  destruct spherical; cbn [eval_int nsize_spherical nsize_cartesian]; rewrite HL.
  - rewrite eval_mul, eval_add by (unfold int_ok; lia).
    split; [done|]. unfold int_ok. lia.
  - change (2 ^ 15) with 32768 in Hsmall.
    assert (0 ≤ (L + 2) * (L + 1) < 2 ^ 31)
      by (change (2 ^ 31) with 2147483648; destruct (Z.le_gt_cases (-1) L); nia).
    assert (0 ≤ (L + 2) * (L + 1) / 2 < 2 ^ 31)
      by (split; [apply Z.div_pos; lia|apply Z.div_lt_upper_bound; lia]).
    rewrite !eval_add by (unfold int_ok; lia).
    rewrite eval_mul by (unfold int_ok; lia).
    rewrite eval_div by (unfold int_ok; lia).
    split; [done|]. unfold int_ok. lia.
Qed.

Lemma rows_match d z :
  0 ≤ d < 2 ^ 63 → int_ok z → (d =? Exec.wrap z) = (d =? z).
Proof.
  intros Hd Hz. unfold int_ok in Hz. unfold Exec.wrap.
  pose proof LayoutFacts.size_mod_eq as Hmod.
  destruct (Z.le_gt_cases 0 z).
  - rewrite Z.mod_small by lia. done.
  - assert (z mod Exec.size_mod = z + Exec.size_mod) as ->.
    { symmetry. apply (Z.mod_unique_pos _ _ (-1)); lia. }
    destruct (Z.eqb_spec d (z + Exec.size_mod)), (Z.eqb_spec d z); lia.
Qed.

Lemma find_app {B : Type} (P : B → bool) (l1 l2 : list B) :
  find P (l1 ++ l2) = match find P l1 with Some x => Some x | None => find P l2 end.
Proof. induction l1 as [|x l1 IH]; simpl; [done|]. by destruct (P x). Qed.

Lemma find_fmap {B C : Type} (P : C → bool) (f : B → C) (l : list B) :
  find P (f <$> l) = f <$> find (λ x, P (f x)) l.
Proof.
  induction l as [|x l IH]; [done|]. rewrite fmap_cons. simpl. by destruct (P (f x)).
Qed.

Lemma find_ext {B : Type} (P Q : B → bool) (l : list B) :
  (∀ x, P x = Q x) → find P l = find Q l.
Proof. intros E. induction l as [|x l IH]; simpl; [done|]. by rewrite E, IH. Qed.

Lemma two_extents (l : list Z) : length l = 2%nat → ∃ d0 d1, l = [d0; d1].
Proof. destruct l as [|d0 [|d1 [|]]]; try done. by exists d0, d1. Qed.

Lemma one_extent (l : list Z) : length l = 1%nat → ∃ d0, l = [d0].
Proof. destruct l as [|d0 [|]]; try done. by exists d0. Qed.

(** *** The whole call *)

Lemma pybind11_func_meets_contract :
  call (pybind11_func_fn derivs name call_name max_L) a
  = wrapper_contract max_L derivs call_name a.
Proof.
  destruct Hwt as [Hord Hxyz Hco Hex Hce Hbuf Hext].
  destruct (two_extents _ Hxyz) as (x0 & x1 & Exyz).
  destruct (one_extent _ Hco) as (c0 & Eco).
  destruct (one_extent _ Hex) as (e0 & Eex).
  destruct (one_extent _ Hce) as (k0 & Ece).
  destruct (two_extents _ (Hbuf Primary ltac:(by left))) as (o0 & o1 & Eout).
  cbn [buffer_param] in Eout.
  assert (∀ tag, tag ∈ derivs → length (deriv_shape tag) = 2%nat) as Hder.
  { intros tag Htag. apply (Hbuf (Derivative tag)). right.
    apply list_elem_of_fmap. by exists tag. }
  unfold call, pybind11_func_fn. cbn [f_body f_params].
  set (ps := _ ++ (deriv_param <$> derivs)).
  assert (∀ tag, tag ∈ derivs →
            arrays (bind ps a) ("arr_" +:+ tag +:+ "_out")
            = Some ("arr_" +:+ tag +:+ "_out", deriv_shape tag)) as Hparams.
  { intros tag Htag. unfold bind, has_param, ps. cbn [arrays].
    rewrite existsb_app. fold (has_param TArray ("arr_" +:+ tag +:+ "_out")
                                 (deriv_param <$> derivs)).
    by rewrite has_param_deriv_array, orb_true_r. }
  assert (ints (bind ps a) "spherical" = None) as Hnoint.
  { unfold bind, has_param, ps. cbn [ints]. rewrite existsb_app.
    fold (has_param TInt "spherical" (deriv_param <$> derivs)).
    by rewrite has_param_deriv. }
  assert (ints (bind ps a) "L" = Some (arg_int a "L")) as HL by reflexivity.
  assert (bools (bind ps a) "spherical" = Some (arg_bool a "spherical")) as Hsph
      by reflexivity.
  assert (arrays (bind ps a) "arr_xyz" = Some ("arr_xyz", [x0; x1])) as Hax
      by (by rewrite <- Exyz).
  assert (arrays (bind ps a) "arr_coeffs" = Some ("arr_coeffs", [c0])) as Hac
      by (by rewrite <- Eco).
  assert (arrays (bind ps a) "arr_exponents" = Some ("arr_exponents", [e0])) as Hae
      by (by rewrite <- Eex).
  assert (arrays (bind ps a) "arr_center" = Some ("arr_center", [k0])) as Hak
      by (by rewrite <- Ece).
  assert (arrays (bind ps a) "arr_out" = Some ("arr_out", [o0; o1])) as Hao
      by (by rewrite <- Eout).
  generalize dependent (bind ps a). intros env0 Hparams Hnoint HL Hsph Hax Hac Hae Hak Hao.
  clear ps.
  (* The views. *)
  rewrite run_app.
  repeat (progress (cbn -[WrapperViews.with_views]; rewrite ?Hax, ?Hac, ?Hae, ?Hak, ?Hao;
                    change (Z.of_nat 2) with 2; change (Z.of_nat 1) with 1;
                    change (1 =? 1) with true; change (2 =? 2) with true)).
  match goal with |- context [run _ ?e []] => set (e1 := e) end.
  rewrite run_app, run_views.
  2:{ intros tag Htag. split; [|by apply Hder]. cbn. by apply Hparams. }
  assert (∀ tag, tag ∈ derivs →
            arrays (with_views derivs e1) ("out_" +:+ tag)
            = Some ("arr_" +:+ tag +:+ "_out", deriv_shape tag)) as Hviews
      by (intros tag Htag; by apply with_views_view).
  assert (ints (with_views derivs e1) "L" = Some (arg_int a "L")) as HL2
      by (by rewrite with_views_ints).
  assert (ints (with_views derivs e1) "spherical" = None) as Hnoint2
      by (by rewrite with_views_ints).
  assert (bools (with_views derivs e1) "spherical" = Some (arg_bool a "spherical"))
    as Hsph2 by (by rewrite with_views_bools).
  assert (arrays (with_views derivs e1) "arr_xyz" = Some ("arr_xyz", [x0; x1])) as Hax2
      by (by rewrite with_views_other).
  assert (arrays (with_views derivs e1) "xyz" = Some ("arr_xyz", [x0; x1])) as Hx2
      by (by rewrite with_views_other).
  assert (arrays (with_views derivs e1) "coeffs" = Some ("arr_coeffs", [c0])) as Hc2
      by (by rewrite with_views_other).
  assert (arrays (with_views derivs e1) "exponents" = Some ("arr_exponents", [e0])) as He2
      by (by rewrite with_views_other).
  assert (arrays (with_views derivs e1) "center" = Some ("arr_center", [k0])) as Hk2
      by (by rewrite with_views_other).
  assert (arrays (with_views derivs e1) "out" = Some ("arr_out", [o0; o1])) as Ho2
      by (by rewrite with_views_other).
  clearbody e1. clear Hparams Hnoint HL Hsph Hax Hac Hae Hak Hao.
  generalize dependent (with_views derivs e1).
  intros env2 Hviews HL2 Hnoint2 Hsph2 Hax2 Hx2 Hc2 He2 Hk2 Ho2. clear e1 env0.
  (* The contracts, in order. *)
  assert (dim a "arr_xyz" 0 = x0) as Dx0 by (unfold dim; by rewrite Exyz).
  assert (dim a "arr_xyz" 1 = x1) as Dx1 by (unfold dim; by rewrite Exyz).
  assert (dim a "arr_coeffs" 0 = c0) as Dc0 by (unfold dim; by rewrite Eco).
  assert (dim a "arr_exponents" 0 = e0) as De0 by (unfold dim; by rewrite Eex).
  assert (dim a "arr_center" 0 = k0) as Dk0 by (unfold dim; by rewrite Ece).
  assert (dim a "arr_out" 0 = o0) as Do0 by (unfold dim; by rewrite Eout).
  assert (dim a "arr_out" 1 = o1) as Do1 by (unfold dim; by rewrite Eout).
  assert (∀ x k, 0 ≤ dim a x k < 2 ^ 63) as Hdim.
  { intros x k. unfold dim. destruct (arg_shape a x !! k) as [d|] eqn:E; [|done].
    apply (Hext x). by eapply list_elem_of_lookup_2. }
  unfold wrapper_contract, first_violation, contracts, buffers.
  rewrite !fmap_cons. cbn [app find satisfied buffer_param].
  rewrite find_app, !find_fmap.
  rewrite ?Dx0, ?Dx1, ?Dc0, ?De0, ?Dk0, ?Do0, ?Do1.
  set (L := arg_int a "L") in *. set (sph := arg_bool a "spherical") in *.
  (* 1: the order *)
  cbn [run exec order_check eval_int violated]. rewrite HL2, Z.ltb_antisym.
  destruct (L <=? max_L); cbn [negb]; [|reflexivity].
  (* 2: the coordinate rows *)
  cbn [run exec eval_int violated]. rewrite Hax2.
  change (if 0 <? 0 then None else [x0; x1] !! Z.to_nat 0) with (Some x0).
  cbn [negb]. destruct (x0 =? 3); cbn [negb]; [|reflexivity].
  (* 3: coefficients and exponents *)
  cbn [run exec eval_int violated]. rewrite Hc2, He2.
  change (if 0 <? 0 then None else [c0] !! Z.to_nat 0) with (Some c0).
  change (if 0 <? 0 then None else [e0] !! Z.to_nat 0) with (Some e0).
  cbn [negb]. destruct (c0 =? e0); cbn [negb]; [|reflexivity].
  (* 4: the center *)
  cbn [run exec eval_int violated]. rewrite Hk2.
  change (if 0 <? 0 then None else [k0] !! Z.to_nat 0) with (Some k0).
  cbn [negb]. destruct (k0 =? 3); cbn [negb]; [|reflexivity].
  (* nsize *)
  cbn [run exec]. change (bools (set_int "nsize" None env2) "spherical")
    with (bools env2 "spherical"). rewrite Hsph2.
  destruct (eval_nsize (set_int "nsize" None env2) sph L HL2 Hord) as [Hns Hnsok].
  rewrite Hns.
  set (ns := Exec.wrap (expected_rows sph L)).
  set (env3 := set_int "nsize" (Some ns) (set_int "nsize" None env2)).
  assert (ints env3 "nsize" = Some ns) as Hn3 by reflexivity.
  (* 5: the rows of the primary buffer *)
  cbn [run exec eval_int violated].
  change (arrays env3 "out") with (arrays env2 "out"). rewrite Ho2, Hn3.
  change (if 0 <? 0 then None else [o0; o1] !! Z.to_nat 0) with (Some o0).
  unfold ns at 1. rewrite rows_match by (rewrite <- ?Do0; done).
  cbn [negb]. destruct (o0 =? expected_rows sph L); cbn [negb]; [|reflexivity].
  assert (∀ tag, tag ∈ derivs →
            (∃ base, arrays env3 ("out_" +:+ tag) = Some (base, deriv_shape tag))
            ∧ length (deriv_shape tag) = 2%nat) as Hviews3.
  { intros tag Htag. split; [|by apply Hder]. eexists. by apply Hviews. }
  (* 5: the rows of the derivative buffers *)
  rewrite run_app, (run_rows derivs env3 [] ns Hn3 Hviews3).
  rewrite (find_ext (λ tag, negb (dim a (buffer_param (Derivative tag)) 0 =? ns))
                    (λ tag, negb (satisfied max_L a (RowCount (Derivative tag))))).
  2:{ intros tag. cbn [satisfied]. unfold ns. by rewrite rows_match by (done || apply Hdim). }
  destruct (find _ derivs) as [tag|]; [reflexivity|].
  change (RowCount <$> (Derivative <$> None)) with (@None contract).
  (* 6: the points of the primary buffer *)
  cbn [run exec eval_int violated find satisfied buffer_param].
  change (arrays env3 "out") with (arrays env2 "out").
  change (arrays env3 "arr_xyz") with (arrays env2 "arr_xyz").
  rewrite Ho2, Hax2, Do1, Dx1.
  change (if 1 <? 0 then None else [o0; o1] !! Z.to_nat 1) with (Some o1).
  change (if 1 <? 0 then None else [x0; x1] !! Z.to_nat 1) with (Some x1).
  cbn [negb]. destruct (o1 =? x1); cbn [negb]; [|reflexivity].
  (* 6: the points of the derivative buffers *)
  rewrite run_app, (run_cols derivs env3 [] "arr_xyz" x0 x1 Hax2 Hviews3).
  rewrite !find_fmap.
  rewrite (find_ext (λ tag, negb (dim a (buffer_param (Derivative tag)) 1 =? x1))
                    (λ tag, negb (satisfied max_L a (PointCount (Derivative tag))))).
  2:{ intros tag. cbn [satisfied]. by rewrite Dx1. }
  destruct (find _ derivs) as [tag|]; [reflexivity|].
  change (PointCount <$> (Derivative <$> None)) with (@None contract).
  (* The call. *)
  cbn [run exec].
  change (eval_values env3 _) with
    (eval_values env3
       ([ Var "L"; Shape "xyz" 1;
          Data "xyz" [0; 0]; Data "xyz" [1; 0]; Data "xyz" [2; 0];
          Shape "coeffs" 0; Data "coeffs" [0]; Data "exponents" [0];
          Data "center" [0]; Var "spherical"; MutData "out" [0; 0] ]
        ++ (deriv_pointer <$> derivs))).
  erewrite eval_values_app; [reflexivity| |].
  - repeat (progress (cbn; unfold eval_pointer;
                      rewrite ?HL2, ?Hnoint2, ?Hsph2, ?Hx2, ?Hc2, ?He2, ?Hk2, ?Ho2)).
    change ([x0; x1] !! Z.to_nat 1) with (Some x1).
    change ([c0] !! Z.to_nat 0) with (Some c0).
    rewrite <- Dx1, <- Dc0. reflexivity.
  - apply eval_deriv_pointers. intros tag Htag. split; [|by apply Hder].
    by apply Hviews.
Qed.

End Run.

End WrapperFacts.

(** ** Block structure of the generators *)

Module Blocks.

Lemma depth_after_app (cs1 cs2 : list call) (d : nat) :
  depth_after (cs1 ++ cs2) d
  = match depth_after cs1 d with
    | Some d' => depth_after cs2 d'
    | None => None
    end.
Proof.
  revert d. induction cs1 as [|c cs1 IH]; intros d; [done|].
  destruct c; simpl; try apply IH. destruct d; [done|apply IH].
Qed.

Lemma depth_after_flat_map {B : Type} (f : B → list call) (l : list B) (d : nat) :
  (∀ x, depth_after (f x) d = Some d) → depth_after (flat_map f l) d = Some d.
Proof.
  intros Hf. induction l as [|x l IH]; [done|]. simpl.
  by rewrite depth_after_app, Hf.
Qed.

(** Starts and closes are counted alike by a sequence that comes back to
    its depth. *)
Lemma depth_after_counts (cs : list call) (d d' : nat) :
  depth_after cs d = Some d' → (count_starts cs + d = count_closes cs + d')%nat.
Proof.
  unfold count_starts, count_closes. revert d.
  induction cs as [|c cs IH]; intros d H; simpl in *.
  - by simplify_eq.
  - destruct c; simpl; try (by apply IH).
    + apply IH in H. lia.
    + destruct d as [|d]; [done|]. apply IH in H. lia.
Qed.

(** A sequence that never closes below its starting depth runs on every
    emission context that has this many blocks open, and leaves the blocks
    below untouched. *)
Lemma run_depth (cs : list call) (k k' : nat) (cg : Emitter.t) :
  depth_after cs k = Some k' →
  (k ≤ length (Emitter.stack cg))%nat → (k ≤ Emitter.indent_lvl cg)%nat →
  ∃ cg', Emitter.run cs cg = inr cg'
         ∧ drop k' (Emitter.stack cg') = drop k (Emitter.stack cg)
         ∧ (length (Emitter.stack cg') + k = length (Emitter.stack cg) + k')%nat
         ∧ (Emitter.indent_lvl cg' + k = Emitter.indent_lvl cg + k')%nat.
Proof.
  revert k cg. induction cs as [|c cs IH]; intros k cg Hd Hs Hi.
  - simpl in Hd. simplify_eq. by exists cg.
  - destruct c as [line endl| |header|]; simpl in Hd.
    + destruct (IH k (Emitter.write line endl cg) Hd Hs Hi) as (cg' & ? & ? & ? & ?).
      by exists cg'.
    + destruct (IH k (Emitter.blankline cg) Hd Hs Hi) as (cg' & ? & ? & ? & ?).
      by exists cg'.
    + destruct (IH (S k) (Emitter.start_c_block header cg) Hd) as (cg' & Hr & Hdr & Hl & Hn).
      { unfold Emitter.start_c_block. destruct (Emitter.brace_on_header_line cg); simpl; lia. }
      { unfold Emitter.start_c_block. destruct (Emitter.brace_on_header_line cg); simpl; lia. }
      exists cg'. split; [done|].
      unfold Emitter.start_c_block in *.
      destruct (Emitter.brace_on_header_line cg); simpl in *; split_and!; (done || lia).
    + destruct k as [|k]; [done|].
      destruct (Emitter.stack cg) as [|h rest] eqn:Hst; [simpl in Hs; lia|].
      simpl. unfold Emitter.close_c_block. rewrite Hst.
      match goal with |- context [Emitter.run cs ?c] => set (cg1 := c) end.
      destruct (IH k cg1 Hd) as (cg' & Hr & Hdr & Hl & Hn).
      { subst cg1. simpl in *. lia. }
      { subst cg1. simpl in *. lia. }
      exists cg'. split; [done|]. subst cg1. simpl in *. split_and!; (done || lia).
Qed.

Lemma balanced_runs (cs : list call) (cg : Emitter.t) :
  balanced cs →
  ∃ cg', Emitter.run cs cg = inr cg'
         ∧ Emitter.stack cg' = Emitter.stack cg
         ∧ Emitter.indent_lvl cg' = Emitter.indent_lvl cg.
Proof.
  intros Hb. destruct (run_depth cs 0 0 cg Hb) as (cg' & Hr & Hdr & _ & Hn); [lia..|].
  exists cg'. rewrite !drop_0 in Hdr. split_and!; [done|done|lia].
Qed.

Lemma balanced_counts (cs : list call) : balanced cs → count_starts cs = count_closes cs.
Proof. intros Hb. apply depth_after_counts in Hb. lia. Qed.

Lemma pybind11_func_balanced (get_deriv_indices : Z → list string)
  (name : string) (grad : Z) (call_name : string) (max_L : Z) :
  balanced (pybind11_func get_deriv_indices name grad call_name max_L).
Proof.
  unfold balanced, pybind11_func. generalize (get_deriv_indices grad). intros derivs.
  rewrite depth_after_app. cbn [depth_after].
  rewrite depth_after_app, depth_after_flat_map by done.
  rewrite depth_after_app. cbn [depth_after].
  rewrite depth_after_app, depth_after_flat_map by done.
  rewrite depth_after_app. cbn [depth_after].
  rewrite depth_after_app, depth_after_flat_map by done.
  reflexivity.
Qed.

Lemma pybind11_transpose_balanced (func_name wrapper_name : string) :
  balanced (pybind11_transpose func_name wrapper_name).
Proof. reflexivity. Qed.

Lemma naive_transpose_balanced : balanced naive_transpose.
Proof. reflexivity. Qed.

Lemma fast_transpose_balanced (inner_block : Z) : balanced (fast_transpose inner_block).
Proof. reflexivity. Qed.

Lemma block_copy_balanced : balanced block_copy.
Proof. reflexivity. Qed.

End Blocks.

(** ** The checks of the kernel wrapper, as emitted *)

Module WrapperChecks.
Import Wrapper WrapperExec Contract.

Lemma checks_app (ss1 ss2 : list stmt) : checks (ss1 ++ ss2) = checks ss1 ++ checks ss2.
Proof. apply List.filter_app. Qed.

Lemma checks_views (l : list string) : checks (deriv_view <$> l) = [].
Proof. induction l as [|c l IH]; [done|]. by rewrite fmap_cons. Qed.

Lemma checks_rows (l : list string) : checks (rows_check <$> l) = rows_check <$> l.
Proof.
  induction l as [|c l IH]; [done|]. rewrite fmap_cons. unfold checks in *. simpl.
  by rewrite IH.
Qed.

Lemma checks_cols (l : list string) : checks (cols_check <$> l) = cols_check <$> l.
Proof.
  induction l as [|c l IH]; [done|]. rewrite fmap_cons. unfold checks in *. simpl.
  by rewrite IH.
Qed.

(** The checks of the body are those of the contracts, in their order. *)
Lemma pybind11_func_checks (derivs : list string) (name call_name : string) (max_L : Z) :
  checks (f_body (pybind11_func_fn derivs name call_name max_L))
  = check_of max_L <$> contracts derivs.
Proof.
  unfold pybind11_func_fn, contracts, buffers. cbn [f_body].
  rewrite !checks_app, checks_views, checks_rows, checks_cols.
  rewrite !fmap_app, !fmap_cons, <- !list_fmap_compose.
  change (checks [Blank; Comment "Call the GG helper function";
                  Call call_name (kernel_args derivs)]) with (@nil stmt).
  rewrite app_nil_r. reflexivity.
Qed.

Lemma calls_in_app (ss1 ss2 : list stmt) :
  calls_in (ss1 ++ ss2) = calls_in ss1 ++ calls_in ss2.
Proof. apply List.filter_app. Qed.

Lemma calls_in_fmap (f : string → stmt) (l : list string) :
  (∀ c, calls_in [f c] = []) → calls_in (f <$> l) = [].
Proof.
  intros Hf. induction l as [|c l IH]; [done|]. rewrite fmap_cons.
  change (f c :: (f <$> l)) with ([f c] ++ (f <$> l)). by rewrite calls_in_app, Hf, IH.
Qed.

(** The body makes one call, and ends with it. *)
Lemma pybind11_func_one_call (derivs : list string) (name call_name : string) (max_L : Z) :
  calls_in (f_body (pybind11_func_fn derivs name call_name max_L))
  = [ Call call_name (kernel_args derivs) ]
  ∧ last (f_body (pybind11_func_fn derivs name call_name max_L))
    = Some (Call call_name (kernel_args derivs)).
Proof.
  unfold pybind11_func_fn. cbn [f_body]. split.
  - rewrite !calls_in_app, !calls_in_fmap by done. reflexivity.
  - rewrite !app_assoc.
    change [Blank; Comment "Call the GG helper function"; Call call_name (kernel_args derivs)]
      with ([Blank; Comment "Call the GG helper function"]
            ++ [Call call_name (kernel_args derivs)]).
    rewrite app_assoc. apply last_snoc.
Qed.

(** *** Messages *)




End WrapperChecks.

(** ** The transpose wrapper meets its contract *)

Module TransposeWrapper.
Import Wrapper WrapperExec Contract TransposeContract.

Ltac crunch n m p q Wn Wm :=
  repeat (progress (cbn -[Exec.wrap]; unfold eval_pointer;
                    change ([n; m] !! Z.to_nat 0) with (Some n);
                    change ([n; m] !! Z.to_nat 1) with (Some m);
                    change ([p; q] !! Z.to_nat 0) with (Some p);
                    change ([p; q] !! Z.to_nat 1) with (Some q);
                    change (Z.of_nat 2 =? 2) with true;
                    rewrite ?Wn, ?Wm)).

Lemma pybind11_transpose_meets_contract (func_name wrapper_name : string) (a : arguments) :
  well_typed a →
  call (pybind11_transpose_fn func_name wrapper_name) a = transpose_contract func_name a.
Proof.
  intros [Hin Hout Hext].
  destruct (WrapperFacts.two_extents _ Hin) as (n & m & Ein).
  destruct (WrapperFacts.two_extents _ Hout) as (p & q & Eout).
  assert (0 ≤ n < 2 ^ 63) by (apply (Hext "arr_input"); rewrite Ein; by left).
  assert (0 ≤ m < 2 ^ 63)
    by (apply (Hext "arr_input"); rewrite Ein; right; by left).
  unfold transpose_contract, dim. rewrite Ein, Eout.
  change (default 0 ([n; m] !! 0%nat)) with n.
  change (default 0 ([n; m] !! 1%nat)) with m.
  change (default 0 ([p; q] !! 0%nat)) with p.
  change (default 0 ([p; q] !! 1%nat)) with q.
  unfold call, pybind11_transpose_fn. cbn [f_body f_params].
  set (env0 := bind _ a).
  assert (arrays env0 "arr_input" = Some ("arr_input", [n; m])) as Hi
      by (by rewrite <- Ein).
  assert (arrays env0 "arr_output" = Some ("arr_output", [p; q])) as Ho
      by (by rewrite <- Eout).
  assert (ints env0 "n" = None) as Hn by reflexivity.
  assert (ints env0 "m" = None) as Hm by reflexivity.
  assert (bools env0 "n" = None) as Hbn by reflexivity.
  clearbody env0.
  assert (Exec.wrap n = n) as Wn
      by (apply LayoutFacts.wrap_small; rewrite LayoutFacts.size_mod_eq; lia).
  assert (Exec.wrap m = m) as Wm
      by (apply LayoutFacts.wrap_small; rewrite LayoutFacts.size_mod_eq; lia).
  do 3 (crunch n m p q Wn Wm; rewrite ?Hi, ?Ho, ?Hn, ?Hm, ?Hbn).
  destruct (n =? q); cbn [negb]; [|reflexivity].
  do 3 (crunch n m p q Wn Wm; rewrite ?Hi, ?Ho, ?Hn, ?Hm, ?Hbn).
  destruct (m =? p); cbn [negb]; [|reflexivity].
  do 3 (crunch n m p q Wn Wm; rewrite ?Hi, ?Ho, ?Hn, ?Hm, ?Hbn). reflexivity.
Qed.

End TransposeWrapper.

(** ** The moves of the blocked transpose stay inside the staging buffer *)

Module MovesFacts.
Import Exec Moves.

Lemma remain_le (t dim start : Z) : remain t dim start ≤ t.
Proof. unfold remain. lia. Qed.

Lemma fast_moves_tile_moves (n m t : Z) : 1 ≤ t → Forall (tile_move t) (fast_moves n m t).
Proof.
  intros Ht. apply Forall_forall. intros e He.
  apply list_elem_of_In, in_flat_map in He as (nb & _ & He).
  apply in_flat_map in He as (mb & _ & He).
  apply in_app_or in He as [He|He].
  - apply in_flat_map in He as (l & Hl & He).
    apply list_elem_of_In, list_elem_of_fmap in He as (k & -> & Hk).
    apply list_elem_of_In, elem_of_seqZ in Hl. apply elem_of_seqZ in Hk.
    pose proof (remain_le t n (nb * t)). pose proof (remain_le t m (mb * t)).
    left. cbn. split_and!; try done; nia.
  - apply in_flat_map in He as (k & Hk & He).
    apply list_elem_of_In, list_elem_of_fmap in He as (l & -> & Hl).
    apply list_elem_of_In, elem_of_seqZ in Hk. apply elem_of_seqZ in Hl.
    pose proof (remain_le t n (nb * t)). pose proof (remain_le t m (mb * t)).
    right. cbn. split_and!; try done; nia.
Qed.

(** Without rows or without columns there is nothing to move. *)
Lemma naive_moves_empty (n m : Z) : n = 0 ∨ m = 0 → naive_moves n m = [].
Proof.
  intros [->| ->]; [done|]. unfold naive_moves.
  induction (seqZ 0 n) as [|i l IH]; [done|]. simpl. by rewrite IH.
Qed.

Lemma fast_moves_empty (n m t : Z) : 1 ≤ t → n = 0 ∨ m = 0 → fast_moves n m t = [].
Proof.
  intros Ht [->| ->]; unfold fast_moves.
  - unfold blocks. rewrite Z.div_0_l, Z.mod_0_l by lia. done.
  - assert (tile_row_moves n 0 t = λ _, []) as ->.
    { unfold tile_row_moves, blocks. rewrite Z.div_0_l, Z.mod_0_l by lia. done. }
    induction (seqZ 0 (blocks t n)) as [|i l IH]; [done|]. simpl. by rewrite IH.
Qed.

Lemma block_copy_moves_empty (n m is_ os_ : Z) :
  n = 0 ∨ m = 0 → block_copy_moves n m is_ os_ = [].
Proof.
  intros [->| ->]; [done|]. unfold block_copy_moves.
  induction (seqZ 0 n) as [|i l IH]; [done|]. simpl. by rewrite IH.
Qed.

End MovesFacts.

(** * The kernels: main results *)

Module Kernels.
Import Kernel Exec ExecRuns ExecFacts Layout LayoutFacts Moves MovesFacts.

(** The moves of the naive transpose, one per matrix position. *)
Lemma elem_of_naive_moves (n m : Z) (e : move) :
  e ∈ naive_moves n m
  ↔ ∃ i j, 0 ≤ i < n ∧ 0 ≤ j < m ∧ e = mv "output" (j * n + i) "input" (i * m + j).
Proof.
  unfold naive_moves, naive_row. rewrite list_elem_of_In, in_flat_map. split.
  - intros (i & Hi & He). apply list_elem_of_In, elem_of_seqZ in Hi.
    apply list_elem_of_In, list_elem_of_fmap in He as (j & -> & Hj).
    apply elem_of_seqZ in Hj. exists i, j. split_and!; (done || lia).
  - intros (i & j & Hi & Hj & ->). exists i. split.
    + apply list_elem_of_In, elem_of_seqZ. lia.
    + apply list_elem_of_In, list_elem_of_fmap. exists j. split; [done|].
      apply elem_of_seqZ. lia.
Qed.

(** The moves of a gather, one per position of the clamped tile. *)
Lemma elem_of_gather_moves (m t nstart nremain mstart mremain : Z) (e : move) :
  e ∈ gather_moves m t nstart nremain mstart mremain
  ↔ ∃ l k, 0 ≤ l < nremain ∧ 0 ≤ k < mremain
           ∧ e = mv "tmp" (k * t + l) "input" ((nstart + l) * m + mstart + k).
Proof.
  unfold gather_moves, gather_row. rewrite list_elem_of_In, in_flat_map. split.
  - intros (l & Hl & He). apply list_elem_of_In, elem_of_seqZ in Hl.
    apply list_elem_of_In, list_elem_of_fmap in He as (k & -> & Hk).
    apply elem_of_seqZ in Hk. exists l, k. split_and!; (done || lia).
  - intros (l & k & Hl & Hk & ->). exists l. split.
    + apply list_elem_of_In, elem_of_seqZ. lia.
    + apply list_elem_of_In, list_elem_of_fmap. exists k. split; [done|].
      apply elem_of_seqZ. lia.
Qed.

(** The moves of a scatter, one per position of the clamped tile. *)
Lemma elem_of_scatter_moves (n t nstart nremain mstart mremain : Z) (e : move) :
  e ∈ scatter_moves n t nstart nremain mstart mremain
  ↔ ∃ k l, 0 ≤ k < mremain ∧ 0 ≤ l < nremain
           ∧ e = mv "output" ((mstart + k) * n + nstart + l) "tmp" (k * t + l).
Proof.
  unfold scatter_moves, scatter_row. rewrite list_elem_of_In, in_flat_map. split.
  - intros (k & Hk & He). apply list_elem_of_In, elem_of_seqZ in Hk.
    apply list_elem_of_In, list_elem_of_fmap in He as (l & -> & Hl).
    apply elem_of_seqZ in Hl. exists k, l. split_and!; (done || lia).
  - intros (k & l & Hk & Hl & ->). exists k. split.
    + apply list_elem_of_In, elem_of_seqZ. lia.
    + apply list_elem_of_In, list_elem_of_fmap. exists l. split; [done|].
      apply elem_of_seqZ. lia.
Qed.

(** The moves of a block copy, one per position, row after row. *)
Lemma elem_of_block_copy_moves (n m is_ os_ : Z) (e : move) :
  e ∈ block_copy_moves n m is_ os_
  ↔ ∃ i j, 0 ≤ i < n ∧ 0 ≤ j < m ∧ e = mv "output" (i * os_ + j) "input" (i * is_ + j).
Proof.
  unfold block_copy_moves, block_copy_row. rewrite list_elem_of_In, in_flat_map. split.
  - intros (i & Hi & He). apply list_elem_of_In, elem_of_seqZ in Hi.
    apply list_elem_of_In, list_elem_of_fmap in He as (j & -> & Hj).
    apply elem_of_seqZ in Hj. exists i, j. split_and!; (done || lia).
  - intros (i & j & Hi & Hj & ->). exists i. split.
    + apply list_elem_of_In, elem_of_seqZ. lia.
    + apply list_elem_of_In, list_elem_of_fmap. exists j. split; [done|].
      apply elem_of_seqZ. lia.
Qed.

Lemma addressable_product (n m : Z) :
  0 ≤ n → 0 ≤ m → addressable (n * m) → n * m < size_mod.
Proof. unfold addressable. intros. nia. Qed.

(** An empty matrix is transposed by leaving the output alone. *)
Lemma transposed_empty {A : Type} (n m : Z) (X : list A) (out0 out : list (option A)) :
  n = 0 ∨ m = 0 → transposed n m X out0 out → out = out0.
Proof.
  intros Hz. apply written_as_empty. unfold everywhere. intros x y. lia.
Qed.

(** C1: for all representable extents [n] and [m], every tile size [t ≥ 1]
    and every row-major [n]-by-[m] input, the blocked transpose issued by
    [fast_transpose t] and the double loop issued by [naive_transpose] both
    finish and leave the very same output buffer, the transpose of the input
    in its first [n * m] cells; with [n = 0] or [m = 0] neither copies a
    single element and the output stays as it was. *)
Theorem fast_transpose_agrees_with_naive {A : Type} (n m t : Z)
  (X : list A) (out0 : list (option A)) :
  0 ≤ n < size_mod → 0 ≤ m < size_mod → 1 ≤ t →
  addressable (t * t) → addressable (n * m) →
  (Z.to_nat (n * m) ≤ length X)%nat → (Z.to_nat (n * m) ≤ length out0)%nat →
  fast_transpose t = Kernel.emit (fast_transpose_fn t)
  ∧ naive_transpose = Kernel.emit naive_transpose_fn
  ∧ ∃ fuel1 fuel2 σ1 σ2 out,
      run fuel1 (fast_transpose_fn t) [ASize n; ASize m; ABuf (Some <$> X); ABuf out0]
      = Done σ1
      ∧ run fuel2 naive_transpose_fn [ASize n; ASize m; ABuf (Some <$> X); ABuf out0]
        = Done σ2
      ∧ mem σ1 "output" = Some out ∧ mem σ2 "output" = Some out
      ∧ transposed n m X out0 out
      ∧ (n = 0 ∨ m = 0 → trace σ1 = [] ∧ trace σ2 = [] ∧ out = out0).
Proof.
  intros Hn Hm Ht Htt Hnm HX Hout.
  split; [apply fast_transpose_emits|]. split; [apply naive_transpose_emits|].
  destruct (FastTranspose.fast_transpose_runs n m t X out0 Hn Hm Ht Htt Hnm HX Hout)
    as (fuel1 & σ1 & Hrun1 & Htr1 & _ & out1 & Hout1 & Htp1).
  destruct (NaiveTranspose.naive_transpose_runs n m X out0 Hn Hm
              (addressable_product n m ltac:(lia) ltac:(lia) Hnm) HX Hout)
    as (fuel2 & σ2 & Hrun2 & Htr2 & _ & out2 & Hout2 & Htp2).
  assert (out2 = out1) as -> by (by eapply transposed_unique).
  exists fuel1, fuel2, σ1, σ2, out1. split_and!; try done.
  intros Hz. split_and!.
  - rewrite Htr1. by apply fast_moves_empty.
  - rewrite Htr2. by apply naive_moves_empty.
  - by eapply transposed_empty.
Qed.

(** C6: [naive_transpose] issues a function of [(n, m, input, output)] that
    finishes after copying, for every [(i, j)] of [[0,n) × [0,m)] and nothing
    else, [input[i*m + j]] into [output[j*n + i]]; the input is left alone,
    the output ends as the transpose, and with [n = 0] or [m = 0] there is no
    copy at all. *)
Theorem naive_transpose_writes_transpose {A : Type} (n m : Z)
  (X : list A) (out0 : list (option A)) :
  0 ≤ n < size_mod → 0 ≤ m < size_mod → n * m < size_mod →
  (Z.to_nat (n * m) ≤ length X)%nat → (Z.to_nat (n * m) ≤ length out0)%nat →
  naive_transpose = Kernel.emit naive_transpose_fn
  ∧ f_params naive_transpose_fn
    = [ (SizeT, "n"); (SizeT, "m"); (ConstDoublePtr, "input"); (DoublePtr, "output") ]
  ∧ ∃ fuel σ',
      run fuel naive_transpose_fn [ASize n; ASize m; ABuf (Some <$> X); ABuf out0] = Done σ'
      ∧ trace σ' = naive_moves n m
      ∧ (∀ e, e ∈ trace σ'
              ↔ ∃ i j, 0 ≤ i < n ∧ 0 ≤ j < m
                       ∧ e = mv "output" (j * n + i) "input" (i * m + j))
      ∧ mem σ' "input" = Some (Some <$> X)
      ∧ ∃ out, mem σ' "output" = Some out
               ∧ transposed n m X out0 out
               ∧ (n = 0 ∨ m = 0 → trace σ' = [] ∧ out = out0).
Proof.
  intros Hn Hm Hnm HX Hout.
  split; [apply naive_transpose_emits|]. split; [reflexivity|].
  destruct (NaiveTranspose.naive_transpose_runs n m X out0 Hn Hm Hnm HX Hout)
    as (fuel & σ' & Hrun & Htr & Hin & out & Hmem & Htp).
  exists fuel, σ'. split_and!; try done.
  - intros e. rewrite Htr. apply elem_of_naive_moves.
  - exists out. split_and!; try done. intros Hz. split.
    + rewrite Htr. by apply naive_moves_empty.
    + by eapply transposed_empty.
Qed.

Lemma exec_seq_stable {A : Type} (ex ex' : stmt → state A → outcome (state A)) ss σ r :
  (∀ s σ1 r1, settled r1 → ex s σ1 = r1 → ex' s σ1 = r1) →
  settled r → exec_seq ex ss σ = r → exec_seq ex' ss σ = r.
Proof.
  intros Hex Hr. revert σ. induction ss as [|s ss IH]; intros σ; simpl; [done|].
  destruct (ex s σ) as [σ1| |] eqn:E.
  - rewrite (Hex _ _ (Done σ1)); [apply IH|done|done].
  - rewrite (Hex _ _ Fault); done.
  - intros <-. by destruct Hr.
Qed.

Lemma iterate_stable {A : Type} (body body' : state A → outcome (state A))
  v bound k k' σ r :
  (∀ σ1 r1, settled r1 → body σ1 = r1 → body' σ1 = r1) →
  (k ≤ k')%nat → settled r →
  iterate body v bound k σ = r → iterate body' v bound k' σ = r.
Proof.
  intros Hb. revert k' σ. induction k as [|k IH]; intros k' σ Hk Hr; simpl.
  { intros <-. by destruct Hr. }
  destruct k' as [|k']; [lia|]. simpl.
  destruct (vars σ v) as [i|]; [|done].
  destruct (eval σ bound) as [n|]; [|done].
  destruct (i <? n); [|done].
  destruct (body σ) as [σ1| |] eqn:E.
  - rewrite (Hb _ (Done σ1)); [|done|done].
    destruct (vars σ1 v) as [i'|]; [|done]. apply IH; [lia|done].
  - rewrite (Hb _ Fault); done.
  - intros <-. by destruct Hr.
Qed.

Lemma exec_stable {A : Type} fuel fuel' s (σ : state A) r :
  (fuel ≤ fuel')%nat → settled r → exec fuel s σ = r → exec fuel' s σ = r.
Proof.
  revert fuel' s σ r. induction fuel as [|fuel IH]; intros fuel' s σ r Hle Hr.
  { simpl. intros <-. by destruct Hr. }
  destruct fuel' as [|fuel']; [lia|].
  destruct s; simpl; try done.
  apply iterate_stable; [|lia|done].
  intros σ1 r1 Hr1. apply exec_seq_stable; [|done].
  intros s1 σ3 r3 Hr3. apply IH; [lia|done].
Qed.

Lemma run_stable {A : Type} fuel fuel' f args (r : outcome (state A)) :
  (fuel ≤ fuel')%nat → settled r → run fuel f args = r → run fuel' f args = r.
Proof.
  intros Hle Hr. unfold run. destruct (bind_params _ _ _); [|done].
  apply exec_seq_stable; [|done]. intros s1 σ1 r1 Hr1. by apply exec_stable.
Qed.

(** A call that finishes with some fuel faults with none. *)
Lemma run_never_faults {A : Type} fuel f args (σ : state A) :
  run fuel f args = Done σ → ∀ fuel', run fuel' f args ≠ Fault.
Proof.
  intros Hdone fuel' Hfault.
  apply (run_stable fuel (fuel `max` fuel')%nat) in Hdone; [|lia|done].
  apply (run_stable fuel' (fuel `max` fuel')%nat) in Hfault; [|lia|done].
  congruence.
Qed.

(** The clamped extent of tile [b] along a dimension of extent [d], the other
    dimension having a positive extent [o]. *)
Lemma tile_bounds_clamp {A : Type} (t d o b : Z) (σ : state A)
  (xstart xremain xb dim : string) :
  1 ≤ t → addressable (t * t) → 0 ≤ d → 0 < o → addressable (d * o) →
  0 ≤ b < blocks t d →
  vars σ xb = Some b → vars σ dim = Some d → xstart ≠ dim → xremain ≠ xstart →
  ∃ σ', runs (tile_bounds xstart xremain xb dim t) σ σ'
        ∧ vars σ' xstart = Some (b * t)
        ∧ vars σ' xremain = Some (Z.min t (d - b * t)).
Proof.
  intros Ht Htt Hd Ho Hdo Hb Hxb Hdim Hne Hne'.
  unfold addressable in *. pose proof size_mod_eq as Hmod.
  pose proof (FastTranspose.blocks_start t d b Ht Hd Hb) as Hs.
  assert (t < 4294967296) by nia.
  assert (d < 2305843009213693952) by nia.
  destruct (FastTranspose.runs_tile_bounds t ltac:(lia) σ xstart xremain xb dim b d)
    as (v & Hruns & Hv); [done|done|done|lia|lia|].
  rewrite Hv in Hruns by lia.
  eexists. split; [exact Hruns|]. split.
  - rewrite FastTranspose.vars_set_var_ne by done. apply FastTranspose.vars_set_var_eq.
  - apply FastTranspose.vars_set_var_eq.
Qed.

(** C7: in the routine issued by [fast_transpose t] the extents of every tile
    are clamped to [min(t, n - nstart)] and [min(t, m - mstart)], with
    [nstart = nb*t] and [mstart = mb*t].  The body of the tile loop is these
    bounds, the gather and the scatter, and nothing else.  For every tile the
    run comes to the gather with these bounds, the copies of the tiles before
    it made, and when the gather is done [tmp] holds
    [tmp[k*t + l] = input[(nstart + l)*m + mstart + k]] for [l] below the
    first and [k] below the second extent: the tile, transposed, before the
    scatter starts.  The same holds of the gather entered in any state that
    has the bounds of a tile, and there the other cells of [tmp], the input
    and the output are as before.  The run copies, tile after tile, the
    gather and then the scatter; every copy goes from [input] into [tmp] or
    from [tmp] into [output], none inside [tmp], and the output is left
    holding the transpose. *)
Theorem fast_transpose_gathers_transposed {A : Type} (n m t : Z)
  (X : list A) (out0 : list (option A)) :
  0 ≤ n < size_mod → 0 ≤ m < size_mod → 1 ≤ t →
  addressable (t * t) → addressable (n * m) →
  (Z.to_nat (n * m) ≤ length X)%nat → (Z.to_nat (n * m) ≤ length out0)%nat →
  fast_transpose t = Kernel.emit (fast_transpose_fn t)
  ∧ existsb (Unused.copies_within "tmp") (f_body (fast_transpose_fn t)) = false
  ∧ (∀ (σ : state A) nb mb,
       0 ≤ nb < blocks t n → 0 ≤ mb < blocks t m →
       (vars σ "nb" = Some nb → vars σ "n" = Some n →
        ∃ σ', runs (tile_bounds "nstart" "nremain" "nb" "n" t) σ σ'
              ∧ vars σ' "nstart" = Some (nb * t)
              ∧ vars σ' "nremain" = Some (Z.min t (n - nb * t)))
       ∧ (vars σ "mb" = Some mb → vars σ "m" = Some m →
          ∃ σ', runs (tile_bounds "mstart" "mremain" "mb" "m" t) σ σ'
                ∧ vars σ' "mstart" = Some (mb * t)
                ∧ vars σ' "mremain" = Some (Z.min t (m - mb * t))))
  ∧ (∃ fuel σ',
       run fuel (fast_transpose_fn t) [ASize n; ASize m; ABuf (Some <$> X); ABuf out0]
       = Done σ'
       ∧ trace σ'
         = flat_map (λ nb, flat_map (λ mb, tile_moves n m t nb mb) (seqZ 0 (blocks t m)))
                    (seqZ 0 (blocks t n))
       ∧ Forall (λ e, (to e = "tmp" ∧ from e = "input")
                      ∨ (to e = "output" ∧ from e = "tmp")) (trace σ')
       ∧ ∃ out, mem σ' "output" = Some out ∧ transposed n m X out0 out)
  ∧ (∀ nb mb,
       tile_moves n m t nb mb
       = gather_moves m t (nb * t) (Z.min t (n - nb * t)) (mb * t) (Z.min t (m - mb * t))
         ++ scatter_moves n t (nb * t) (Z.min t (n - nb * t)) (mb * t)
                          (Z.min t (m - mb * t)))
  ∧ (∀ nstart nremain mstart mremain e,
       e ∈ gather_moves m t nstart nremain mstart mremain
       ↔ ∃ l k, 0 ≤ l < nremain ∧ 0 ≤ k < mremain
                ∧ e = mv "tmp" (k * t + l) "input" ((nstart + l) * m + mstart + k))
  ∧ last (f_body (fast_transpose_fn t))
    = Some (For "nb" (Var "nblocks")
              (tile_bounds "nstart" "nremain" "nb" "n" t
               ++ [ For "mb" (Var "mblocks")
                      (tile_bounds "mstart" "mremain" "mb" "m" t
                       ++ [ Comment "Copy data to inner block"; gather t;
                            Comment "Copy data to inner block"; scatter t ]) ]))
  ∧ (∀ (σ : state A) nb mb tmp0,
       0 ≤ nb < blocks t n → 0 ≤ mb < blocks t m →
       vars σ "m" = Some m →
       vars σ "nstart" = Some (nb * t) →
       vars σ "nremain" = Some (Z.min t (n - nb * t)) →
       vars σ "mstart" = Some (mb * t) →
       vars σ "mremain" = Some (Z.min t (m - mb * t)) →
       mem σ "input" = Some (Some <$> X) →
       mem σ "tmp" = Some tmp0 → length tmp0 = Z.to_nat (t * t) →
       ∃ σ' tmp,
         steps (gather t) σ σ'
         ∧ mem σ' "tmp" = Some tmp
         ∧ length tmp = Z.to_nat (t * t)
         ∧ (∀ l k, 0 ≤ l < Z.min t (n - nb * t) → 0 ≤ k < Z.min t (m - mb * t) →
                   tmp !! Z.to_nat (k * t + l)
                   = (Some <$> X) !! Z.to_nat ((nb * t + l) * m + mb * t + k))
         ∧ (∀ p, (∀ l k, 0 ≤ l < Z.min t (n - nb * t) → 0 ≤ k < Z.min t (m - mb * t) →
                         Z.to_nat (k * t + l) ≠ p) →
                 tmp !! p = tmp0 !! p)
         ∧ mem σ' "input" = Some (Some <$> X)
         ∧ mem σ' "output" = mem σ "output"
         ∧ vars σ' "nstart" = Some (nb * t)
         ∧ vars σ' "nremain" = Some (Z.min t (n - nb * t))
         ∧ vars σ' "mstart" = Some (mb * t)
         ∧ vars σ' "mremain" = Some (Z.min t (m - mb * t))
         ∧ trace σ'
           = trace σ ++ gather_moves m t (nb * t) (Z.min t (n - nb * t))
                                     (mb * t) (Z.min t (m - mb * t)))
  ∧ (∀ nb mb,
       0 ≤ nb < blocks t n → 0 ≤ mb < blocks t m →
       ∃ (σ0 σ1 σ2 : state A) tmp,
         bind_params (f_params (fast_transpose_fn t))
           [ASize n; ASize m; ABuf (Some <$> X); ABuf out0] empty_state = Some σ0
         ∧ Passes.reaches (f_body (fast_transpose_fn t)) σ0 (gather t) σ1
         ∧ vars σ1 "nstart" = Some (nb * t)
         ∧ vars σ1 "nremain" = Some (Z.min t (n - nb * t))
         ∧ vars σ1 "mstart" = Some (mb * t)
         ∧ vars σ1 "mremain" = Some (Z.min t (m - mb * t))
         ∧ trace σ1
           = flat_map (λ nb', flat_map (λ mb', tile_moves n m t nb' mb')
                                       (seqZ 0 (blocks t m))) (seqZ 0 nb)
             ++ flat_map (λ mb', tile_moves n m t nb mb') (seqZ 0 mb)
         ∧ steps (gather t) σ1 σ2
         ∧ trace σ2
           = trace σ1 ++ gather_moves m t (nb * t) (Z.min t (n - nb * t))
                                      (mb * t) (Z.min t (m - mb * t))
         ∧ mem σ2 "tmp" = Some tmp
         ∧ ∀ l k, 0 ≤ l < Z.min t (n - nb * t) → 0 ≤ k < Z.min t (m - mb * t) →
                  tmp !! Z.to_nat (k * t + l)
                  = (Some <$> X) !! Z.to_nat ((nb * t + l) * m + mb * t + k)).
Proof.
  intros Hn Hm Ht Htt Hnm HX Hout.
  split; [apply fast_transpose_emits|]. split; [reflexivity|]. split_and!.
  - intros σ nb mb Hnb Hmb.
    pose proof (FastTranspose.blocks_start t n nb Ht ltac:(lia) Hnb).
    pose proof (FastTranspose.blocks_start t m mb Ht ltac:(lia) Hmb).
    split; intros Hb Hd.
    + by apply (tile_bounds_clamp t n m nb); try done; lia.
    + apply (tile_bounds_clamp t m n mb); try done; try lia.
      by rewrite Z.mul_comm.
  - destruct (FastTranspose.fast_transpose_runs n m t X out0 Hn Hm Ht Htt Hnm HX Hout)
      as (fuel & σ' & Hrun & Htr & _ & Hres).
    exists fuel, σ'. split_and!; [done|by rewrite Htr| |done].
    rewrite Htr. eapply Forall_impl; [by apply fast_moves_tile_moves|].
    intros e [(? & ? & _)|(? & ? & _)]; [by left|by right].
  - reflexivity.
  - intros. apply elem_of_gather_moves.
  - reflexivity.
  - intros σ nb mb tmp0 Hnb Hmb Hvm Hvns Hvnr Hvms Hvmr Hin Hmt Htl.
    pose proof (FastTranspose.blocks_start t n nb Ht ltac:(lia) Hnb).
    pose proof (FastTranspose.blocks_start t m mb Ht ltac:(lia) Hmb).
    destruct (Gather.gather_stages_tile n m t (nb * t) (Z.min t (n - nb * t))
                (mb * t) (Z.min t (m - mb * t)) X tmp0 (mem σ "output") (trace σ)
                Hn Hm Ht Htt Hnm HX Htl ltac:(lia) ltac:(lia) ltac:(lia) ltac:(lia)
                ltac:(lia) ltac:(lia) σ)
      as (σ' & Hsteps & (_ & Hvns' & Hvnr' & Hvms' & Hvmr' & Hin' & Hout')
          & (tmp & Hmt' & Hlen & Hcells & Hrest) & Htr); [done|done|done|].
    exists σ', tmp. split_and!; try done.
    + by rewrite Hlen.
    + intros l k Hl Hk. by apply Hcells.
    + intros p Hp. apply Hrest. intros l k [Hl Hk]. by apply Hp.
  - intros nb mb Hnb Hmb.
    destruct (FastTransposePasses.gather_reached n m t X out0 Hn Hm Ht Htt Hnm HX Hout
                nb mb Hnb Hmb)
      as (σ0 & σ1 & σ2 & Hbind & Hreach & Hsteps
          & (_ & _ & Hvns & Hvnr & Hvms & Hvmr) & Htr1
          & (tmp & Hmt & _ & Hcells) & Htr2).
    exists σ0, σ1, σ2, tmp. split_and!; try done.
    intros l k Hl Hk. by apply Hcells.
Qed.

(** C10: for representable [n] and [m] and a tile size [t ≥ 1] the routine
    issued by [fast_transpose t] finishes and never faults, so no array is
    ever addressed outside its cells; each of its copies addresses the
    [t * t] cells of [tmp] once, as the target of a gather or the source of a
    scatter, at an index [k*t + l] that is at least [0] and below [t * t]. *)
Theorem staging_buffer_stays_in_bounds {A : Type} (n m t : Z)
  (X : list A) (out0 : list (option A)) :
  0 ≤ n < size_mod → 0 ≤ m < size_mod → 1 ≤ t →
  addressable (t * t) → addressable (n * m) →
  (Z.to_nat (n * m) ≤ length X)%nat → (Z.to_nat (n * m) ≤ length out0)%nat →
  In (DeclArray "tmp" (t * t)) (f_body (fast_transpose_fn t))
  ∧ (∃ fuel σ',
       run fuel (fast_transpose_fn t) [ASize n; ASize m; ABuf (Some <$> X); ABuf out0]
       = Done σ'
       ∧ Forall (tile_move t) (trace σ'))
  ∧ (∀ fuel,
       run fuel (fast_transpose_fn t) [ASize n; ASize m; ABuf (Some <$> X); ABuf out0]
       ≠ Fault)
  ∧ (∀ nb mb e, e ∈ tile_moves n m t nb mb →
       ∃ k l, 0 ≤ k < Z.min t (m - mb * t) ∧ 0 ≤ l < Z.min t (n - nb * t)
              ∧ k * t + l < t * t
              ∧ ((to e = "tmp" ∧ to_idx e = k * t + l)
                 ∨ (from e = "tmp" ∧ from_idx e = k * t + l))).
Proof.
  intros Hn Hm Ht Htt Hnm HX Hout.
  destruct (FastTranspose.fast_transpose_runs n m t X out0 Hn Hm Ht Htt Hnm HX Hout)
    as (fuel & σ' & Hrun & Htr & _).
  split_and!.
  - right. by left.
  - exists fuel, σ'. split; [done|]. rewrite Htr. by apply fast_moves_tile_moves.
  - by eapply run_never_faults.
  - intros nb mb e He. unfold tile_moves in He.
    apply elem_of_app in He as [He|He].
    + apply elem_of_gather_moves in He as (l & k & Hl & Hk & ->).
      exists k, l. unfold remain in *. split_and!; try lia; [nia|by left].
    + apply elem_of_scatter_moves in He as (k & l & Hk & Hl & ->).
      exists k, l. unfold remain in *. split_and!; try lia; [nia|by right].
Qed.

(** Two calls of the block copy that differ in [trans] alone start from
    states that differ in nothing else. *)
Lemma block_copy_binds {A : Type} (n m is_ os_ trans trans' : Z)
  (X out0 : list (option A)) :
  0 ≤ n < size_mod → 0 ≤ m < size_mod → 0 ≤ is_ < size_mod → 0 ≤ os_ < size_mod →
  - 2 ^ 31 ≤ trans < 2 ^ 31 → - 2 ^ 31 ≤ trans' < 2 ^ 31 →
  ∃ σ1 σ2,
    bind_params (f_params block_copy_fn)
      [ASize n; ASize m; ABuf X; ASize is_; ABuf out0; ASize os_; AInt trans] empty_state
    = Some σ1
    ∧ bind_params (f_params block_copy_fn)
        [ASize n; ASize m; ABuf X; ASize is_; ABuf out0; ASize os_; AInt trans'] empty_state
      = Some σ2
    ∧ Unused.agree "trans" σ1 σ2.
Proof.
  intros Hn Hm His Hos Ht Ht'. cbn [f_params block_copy_fn bind_params].
  destruct (Z.leb_spec 0 n); [|lia]. destruct (Z.ltb_spec n size_mod); [|lia].
  destruct (Z.leb_spec 0 m); [|lia]. destruct (Z.ltb_spec m size_mod); [|lia].
  destruct (Z.leb_spec 0 is_); [|lia]. destruct (Z.ltb_spec is_ size_mod); [|lia].
  destruct (Z.leb_spec 0 os_); [|lia]. destruct (Z.ltb_spec os_ size_mod); [|lia].
  destruct (Z.leb_spec (- 2 ^ 31) trans); [|lia].
  destruct (Z.ltb_spec trans (2 ^ 31)); [|lia].
  destruct (Z.leb_spec (- 2 ^ 31) trans'); [|lia].
  destruct (Z.ltb_spec trans' (2 ^ 31)); [|lia].
  cbn [andb]. eexists _, _. split; [reflexivity|]. split; [reflexivity|].
  split_and!; [|done|done].
  intros y Hy. unfold set_var, update. cbn [vars].
  destruct (String.eqb_spec "trans" y); [by subst|done].
Qed.

(** C8: the routine issued by [block_copy] finishes after copying, row after
    row, [input[i*is + j]] into [output[i*os + j]] for every [(i, j)] of
    [[0,n) × [0,m)] and nothing else, the target index never transposed; its
    body does not mention [trans], and two calls that differ in [trans] alone
    perform the same copies and leave the same output. *)
Theorem block_copy_copies_rows {A : Type} (n m is_ os_ trans trans' : Z)
  (X : list A) (out0 : list (option A)) :
  0 ≤ n < size_mod → 0 ≤ m < size_mod → 0 ≤ is_ < size_mod → 0 ≤ os_ < size_mod →
  - 2 ^ 31 ≤ trans < 2 ^ 31 → - 2 ^ 31 ≤ trans' < 2 ^ 31 →
  addressable (Z.of_nat (length X)) → addressable (Z.of_nat (length out0)) →
  (0 < n → 0 < m → (n - 1) * is_ + m ≤ Z.of_nat (length X)) →
  (0 < n → 0 < m → (n - 1) * os_ + m ≤ Z.of_nat (length out0)) →
  block_copy = Kernel.emit block_copy_fn
  ∧ existsb (Unused.mentions "trans") (f_body block_copy_fn) = false
  ∧ ∃ fuel σ σ',
      run fuel block_copy_fn
        [ASize n; ASize m; ABuf (Some <$> X); ASize is_; ABuf out0; ASize os_; AInt trans]
      = Done σ
      ∧ run fuel block_copy_fn
          [ASize n; ASize m; ABuf (Some <$> X); ASize is_; ABuf out0; ASize os_; AInt trans']
        = Done σ'
      ∧ trace σ = block_copy_moves n m is_ os_
      ∧ (∀ e, e ∈ trace σ
              ↔ ∃ i j, 0 ≤ i < n ∧ 0 ≤ j < m
                       ∧ e = mv "output" (i * os_ + j) "input" (i * is_ + j))
      ∧ trace σ' = trace σ
      ∧ mem σ' "output" = mem σ "output"
      ∧ mem σ "input" = Some (Some <$> X)
      ∧ ∃ out, mem σ "output" = Some out ∧ length out = length out0
               ∧ (m ≤ os_ →
                  written_as (everywhere n m) (λ i j, i * os_ + j) (λ i j, i * is_ + j)
                             out0 out (Some <$> X)).
Proof.
  intros Hn Hm His Hos Ht Ht' HX Hout Hsrc Hdst.
  split; [apply block_copy_emits|]. split; [reflexivity|].
  destruct (BlockCopy.block_copy_runs n m is_ os_ trans X out0
              Hn Hm His Hos Ht HX Hout Hsrc Hdst)
    as (fuel & σ & Hrun & Htr & Hin & out & Hmem & Hlen & Hw).
  destruct (block_copy_binds n m is_ os_ trans trans' (Some <$> X) out0
              Hn Hm His Hos Ht Ht') as (σ1 & σ2 & Hb1 & Hb2 & Hag).
  pose proof (UnusedFacts.exec_body_agree "trans" fuel (f_body block_copy_fn) σ1 σ2
                eq_refl Hag) as Hsim.
  assert (exec_body fuel (f_body block_copy_fn) σ1 = Done σ) as Hrun1
      by (unfold run in Hrun; by rewrite Hb1 in Hrun).
  rewrite Hrun1 in Hsim.
  destruct (exec_body fuel (f_body block_copy_fn) σ2) as [σ'| |] eqn:Hrun2; try done.
  destruct Hsim as (_ & Hmems & Htrs).
  exists fuel, σ, σ'. split; [done|]. split; [unfold run; by rewrite Hb2|].
  split; [done|]. split; [intros e; rewrite Htr; apply elem_of_block_copy_moves|].
  split; [done|]. split; [by rewrite Hmems|]. split; [done|]. by exists out.
Qed.

Lemma sizes_2x3 :
  0 ≤ 2 < size_mod ∧ 0 ≤ 3 < size_mod ∧ 1 ≤ 2 ∧ addressable (2 * 2) ∧ addressable (2 * 3)
  ∧ 2 * 3 < size_mod
  ∧ (Z.to_nat (2 * 3) ≤ length matrix_2x3)%nat
  ∧ (Z.to_nat (2 * 3) ≤ length blank_2x3)%nat.
Proof.
  unfold addressable. rewrite size_mod_eq.
  change (Z.to_nat (2 * 3)) with 6%nat. change (length matrix_2x3) with 6%nat.
  change (length blank_2x3) with 6%nat. lia.
Qed.

Lemma fast_transpose_agrees_with_naive_2x3 :
  ∃ fuel1 fuel2 σ1 σ2 out,
    run fuel1 (fast_transpose_fn 2)
      [ASize 2; ASize 3; ABuf (Some <$> matrix_2x3); ABuf blank_2x3] = Done σ1
    ∧ run fuel2 naive_transpose_fn
        [ASize 2; ASize 3; ABuf (Some <$> matrix_2x3); ABuf blank_2x3] = Done σ2
    ∧ mem σ1 "output" = Some out ∧ mem σ2 "output" = Some out
    ∧ transposed 2 3 matrix_2x3 blank_2x3 out
    ∧ (2 = 0 ∨ 3 = 0 → trace σ1 = [] ∧ trace σ2 = [] ∧ out = blank_2x3).
Proof.
  destruct sizes_2x3 as (Hn & Hm & Ht & Htt & Hnm & _ & HX & Hout).
  exact (proj2 (proj2 (fast_transpose_agrees_with_naive 2 3 2 matrix_2x3 blank_2x3
                         Hn Hm Ht Htt Hnm HX Hout))).
Defined.

Lemma naive_transpose_writes_transpose_2x3 :
  ∃ fuel σ',
    run fuel naive_transpose_fn
      [ASize 2; ASize 3; ABuf (Some <$> matrix_2x3); ABuf blank_2x3] = Done σ'
    ∧ trace σ' = naive_moves 2 3
    ∧ (∀ e, e ∈ trace σ'
            ↔ ∃ i j, 0 ≤ i < 2 ∧ 0 ≤ j < 3
                     ∧ e = mv "output" (j * 2 + i) "input" (i * 3 + j))
    ∧ mem σ' "input" = Some (Some <$> matrix_2x3)
    ∧ ∃ out, mem σ' "output" = Some out
             ∧ transposed 2 3 matrix_2x3 blank_2x3 out
             ∧ (2 = 0 ∨ 3 = 0 → trace σ' = [] ∧ out = blank_2x3).
Proof.
  destruct sizes_2x3 as (Hn & Hm & _ & _ & _ & Hnm & HX & Hout).
  exact (proj2 (proj2 (naive_transpose_writes_transpose 2 3 matrix_2x3 blank_2x3
                         Hn Hm Hnm HX Hout))).
Defined.

Lemma last_tile_of_2x3_set :
  0 ≤ 0 < blocks 2 2 ∧ 0 ≤ 1 < blocks 2 3.
Proof. by vm_compute. Qed.

Lemma fast_transpose_gathers_transposed_2x3 :
  (∃ fuel σ',
     run fuel (fast_transpose_fn 2)
       [ASize 2; ASize 3; ABuf (Some <$> matrix_2x3); ABuf blank_2x3] = Done σ'
     ∧ trace σ'
       = flat_map (λ nb, flat_map (λ mb, tile_moves 2 3 2 nb mb) (seqZ 0 (blocks 2 3)))
                  (seqZ 0 (blocks 2 2))
     ∧ Forall (λ e, (to e = "tmp" ∧ from e = "input")
                    ∨ (to e = "output" ∧ from e = "tmp")) (trace σ')
     ∧ ∃ out, mem σ' "output" = Some out ∧ transposed 2 3 matrix_2x3 blank_2x3 out)
  ∧ (∃ σ' tmp,
      steps (gather 2) last_tile_of_2x3 σ'
      ∧ mem σ' "tmp" = Some tmp
      ∧ length tmp = Z.to_nat (2 * 2)
      ∧ (∀ l k, 0 ≤ l < Z.min 2 (2 - 0 * 2) → 0 ≤ k < Z.min 2 (3 - 1 * 2) →
                tmp !! Z.to_nat (k * 2 + l)
                = (Some <$> matrix_2x3) !! Z.to_nat ((0 * 2 + l) * 3 + 1 * 2 + k))
      ∧ (∀ p, (∀ l k, 0 ≤ l < Z.min 2 (2 - 0 * 2) → 0 ≤ k < Z.min 2 (3 - 1 * 2) →
                      Z.to_nat (k * 2 + l) ≠ p) →
              tmp !! p = replicate 4 None !! p)
      ∧ mem σ' "input" = Some (Some <$> matrix_2x3)
      ∧ mem σ' "output" = mem last_tile_of_2x3 "output"
      ∧ vars σ' "nstart" = Some (0 * 2)
      ∧ vars σ' "nremain" = Some (Z.min 2 (2 - 0 * 2))
      ∧ vars σ' "mstart" = Some (1 * 2)
      ∧ vars σ' "mremain" = Some (Z.min 2 (3 - 1 * 2))
      ∧ trace σ'
        = trace last_tile_of_2x3
          ++ gather_moves 3 2 (0 * 2) (Z.min 2 (2 - 0 * 2)) (1 * 2) (Z.min 2 (3 - 1 * 2)))
  ∧ ∃ (σ0 σ1 σ2 : state Z) tmp,
      bind_params (f_params (fast_transpose_fn 2))
        [ASize 2; ASize 3; ABuf (Some <$> matrix_2x3); ABuf blank_2x3] empty_state = Some σ0
      ∧ Passes.reaches (f_body (fast_transpose_fn 2)) σ0 (gather 2) σ1
      ∧ vars σ1 "nstart" = Some (0 * 2)
      ∧ vars σ1 "nremain" = Some (Z.min 2 (2 - 0 * 2))
      ∧ vars σ1 "mstart" = Some (1 * 2)
      ∧ vars σ1 "mremain" = Some (Z.min 2 (3 - 1 * 2))
      ∧ trace σ1
        = flat_map (λ nb', flat_map (λ mb', tile_moves 2 3 2 nb' mb') (seqZ 0 (blocks 2 3)))
                   (seqZ 0 0)
          ++ flat_map (λ mb', tile_moves 2 3 2 0 mb') (seqZ 0 1)
      ∧ steps (gather 2) σ1 σ2
      ∧ trace σ2
        = trace σ1
          ++ gather_moves 3 2 (0 * 2) (Z.min 2 (2 - 0 * 2)) (1 * 2) (Z.min 2 (3 - 1 * 2))
      ∧ mem σ2 "tmp" = Some tmp
      ∧ ∀ l k, 0 ≤ l < Z.min 2 (2 - 0 * 2) → 0 ≤ k < Z.min 2 (3 - 1 * 2) →
               tmp !! Z.to_nat (k * 2 + l)
               = (Some <$> matrix_2x3) !! Z.to_nat ((0 * 2 + l) * 3 + 1 * 2 + k).
Proof.
  destruct sizes_2x3 as (Hn & Hm & Ht & Htt & Hnm & _ & HX & Hout).
  destruct last_tile_of_2x3_set as [Hnb Hmb].
  pose proof (fast_transpose_gathers_transposed 2 3 2 matrix_2x3 blank_2x3
                Hn Hm Ht Htt Hnm HX Hout) as H.
  exact (conj (proj1 (proj2 (proj2 (proj2 H))))
           (conj (proj1 (proj2 (proj2 (proj2 (proj2 (proj2 (proj2 (proj2 H)))))))
                    last_tile_of_2x3 0 1 (replicate 4 None) Hnb Hmb
                    eq_refl eq_refl eq_refl eq_refl eq_refl eq_refl eq_refl eq_refl)
                 (proj2 (proj2 (proj2 (proj2 (proj2 (proj2 (proj2 (proj2 H)))))))
                    0 1 Hnb Hmb))).
Defined.

Lemma staging_buffer_stays_in_bounds_2x3 :
  (∃ fuel σ',
     run fuel (fast_transpose_fn 2)
       [ASize 2; ASize 3; ABuf (Some <$> matrix_2x3); ABuf blank_2x3] = Done σ'
     ∧ Forall (tile_move 2) (trace σ'))
  ∧ ∀ fuel,
      run fuel (fast_transpose_fn 2)
        [ASize 2; ASize 3; ABuf (Some <$> matrix_2x3); ABuf blank_2x3] ≠ Fault.
Proof.
  destruct sizes_2x3 as (Hn & Hm & Ht & Htt & Hnm & _ & HX & Hout).
  destruct (staging_buffer_stays_in_bounds 2 3 2 matrix_2x3 blank_2x3
              Hn Hm Ht Htt Hnm HX Hout) as (_ & Hrun & Hsafe & _).
  exact (conj Hrun Hsafe).
Defined.

Lemma block_copy_copies_rows_2x3 :
  ∃ fuel σ σ',
    run fuel block_copy_fn
      [ASize 2; ASize 3; ABuf (Some <$> matrix_2x3); ASize 3; ABuf blank_2x4; ASize 4; AInt 0]
    = Done σ
    ∧ run fuel block_copy_fn
        [ASize 2; ASize 3; ABuf (Some <$> matrix_2x3); ASize 3; ABuf blank_2x4; ASize 4;
         AInt 1]
      = Done σ'
    ∧ trace σ = block_copy_moves 2 3 3 4
    ∧ (∀ e, e ∈ trace σ
            ↔ ∃ i j, 0 ≤ i < 2 ∧ 0 ≤ j < 3
                     ∧ e = mv "output" (i * 4 + j) "input" (i * 3 + j))
    ∧ trace σ' = trace σ
    ∧ mem σ' "output" = mem σ "output"
    ∧ mem σ "input" = Some (Some <$> matrix_2x3)
    ∧ ∃ out, mem σ "output" = Some out ∧ length out = length blank_2x4
             ∧ (3 ≤ 4 →
                written_as (everywhere 2 3) (λ i j, i * 4 + j) (λ i j, i * 3 + j)
                           blank_2x4 out (Some <$> matrix_2x3)).
Proof.
  assert (0 ≤ 2 < size_mod ∧ 0 ≤ 3 < size_mod ∧ 0 ≤ 4 < size_mod
          ∧ addressable 6 ∧ addressable 8) as (H2 & H3 & H4 & H6 & H8)
      by (unfold addressable; rewrite size_mod_eq; lia).
  refine (proj2 (proj2 (block_copy_copies_rows 2 3 3 4 0 1 matrix_2x3 blank_2x4
                          H2 H3 H3 H4 _ _ H6 H8 _ _))).
  - lia.
  - lia.
  - change (length matrix_2x3) with 6%nat. lia.
  - change (length blank_2x4) with 8%nat. lia.
Defined.

End Kernels.

(** * The wrappers: main results *)

Module Wrappers.
Import Wrapper WrapperExec Contract WrapperChecks.





(** The first contract is the one on the order. *)
Lemma first_violation_order (max_L : Z) (derivs : list string) (a : arguments) :
  max_L < arg_int a "L" → first_violation max_L derivs a = Some OrderSupported.
Proof.
  intros HL. unfold first_violation, contracts. cbn [app find satisfied].
  by destruct (Z.leb_spec (arg_int a "L") max_L); [lia|].
Qed.

(** C2: the wrapper issued by [pybind11_func] holds, for every derivative
    order, the checks of the contracts in their order: the order against
    [max_L] (an [invalid_argument]), three coordinate rows, as many
    coefficients as exponents, a centre of three, the row count of every
    output buffer, the point count of every output buffer.  All of them come
    before the one call of the kernel, which ends the body.  A call throws at
    the first contract that fails, having called nothing, and calls the
    kernel once when none fails; an order above [max_L] throws the error of
    the order whatever the shapes are. *)
Theorem pybind11_func_validates_in_order (get_deriv_indices : Z → list string)
  (name : string) (grad : Z) (call_name : string) (max_L : Z) (a : arguments) :
  well_typed (get_deriv_indices grad) a →
  let derivs := get_deriv_indices grad in
  let fn := pybind11_func_fn derivs name call_name max_L in
  pybind11_func get_deriv_indices name grad call_name max_L = Wrapper.emit fn
  ∧ checks (f_body fn)
    = check_of max_L
      <$> ([ OrderSupported; CoordsThreeRows; CoeffsMatchExponents; CenterLengthThree ]
           ++ (RowCount <$> Primary :: (Derivative <$> derivs))
           ++ (PointCount <$> Primary :: (Derivative <$> derivs)))
  ∧ (∃ before, f_body fn = before ++ [ Call call_name (kernel_args derivs) ]
               ∧ calls_in before = []
               ∧ checks before = checks (f_body fn))
  ∧ call fn a = wrapper_contract max_L derivs call_name a
  ∧ (∀ c, first_violation max_L derivs a = Some c →
          call fn a = Threw (thrown (check_of max_L c)).1 (thrown (check_of max_L c)).2 [])
  ∧ (first_violation max_L derivs a = None →
     call fn a = Returned [ invoke call_name (kernel_values derivs a) ])
  ∧ (max_L < arg_int a "L" →
     call fn a
     = Threw invalid_argument
             ("Exceeded compiled angular momentum of " +:+ fmt_d max_L +:+
              ". Please recompile with a higher angular momentum.\n") []).
Proof.
  intros Hwt derivs fn.
  pose proof (WrapperFacts.pybind11_func_meets_contract max_L derivs name call_name a Hwt)
    as Hcall. fold fn in Hcall.
  split; [apply pybind11_func_emits|].
  split; [apply pybind11_func_checks|].
  split.
  { destruct (pybind11_func_one_call derivs name call_name max_L) as [Hcalls Hlast].
    fold fn in Hcalls, Hlast.
    apply last_Some in Hlast as [before Hbody]. exists before. split; [done|].
    rewrite Hbody, calls_in_app in Hcalls. rewrite Hbody, checks_app.
    change (checks [Call call_name (kernel_args derivs)]) with (@nil stmt).
    rewrite app_nil_r. split; [|done].
    change (calls_in [Call call_name (kernel_args derivs)])
      with [Call call_name (kernel_args derivs)] in Hcalls.
    destruct (calls_in before) as [|s l]; [done|].
    apply (f_equal length) in Hcalls. rewrite length_app in Hcalls. simpl in Hcalls. lia. }
  split; [done|]. unfold wrapper_contract in Hcall. split_and!.
  - intros c Hc. by rewrite Hcall, Hc.
  - intros Hc. by rewrite Hcall, Hc.
  - intros HL. by rewrite Hcall, (first_violation_order max_L derivs a HL).
Qed.



(** C4: when no contract fails, the wrapper issued by [pybind11_func] calls
    the kernel once, with the order, the point count, the pointers to rows 0,
    1 and 2 of the coordinates, the coefficient count, the pointers to the
    coefficients, the exponents and the centre, the spherical flag, the
    pointer to the primary output and then one pointer per derivative tag in
    the order of [get_deriv_indices]; that order is also the one of the
    additional parameters and of the row and the point checks. *)
Theorem pybind11_func_passes_arguments_in_order (get_deriv_indices : Z → list string)
  (name : string) (grad : Z) (call_name : string) (max_L : Z) (a : arguments) :
  well_typed (get_deriv_indices grad) a →
  first_violation max_L (get_deriv_indices grad) a = None →
  let derivs := get_deriv_indices grad in
  let fn := pybind11_func_fn derivs name call_name max_L in
  pybind11_func get_deriv_indices name grad call_name max_L = Wrapper.emit fn
  ∧ call fn a
    = Returned
        [ invoke call_name
            ([ VInt (arg_int a "L"); VInt (dim a "arr_xyz" 1);
               VPtr "arr_xyz" [0; 0]; VPtr "arr_xyz" [1; 0]; VPtr "arr_xyz" [2; 0];
               VInt (dim a "arr_coeffs" 0); VPtr "arr_coeffs" [0];
               VPtr "arr_exponents" [0]; VPtr "arr_center" [0];
               VBool (arg_bool a "spherical");
               VPtr "arr_out" [0; 0] ]
             ++ ((λ tag, VPtr ("arr_" +:+ tag +:+ "_out") [0; 0]) <$> derivs)) ]
  ∧ last (f_body fn)
    = Some (Call call_name
              ([ Var "L"; Shape "xyz" 1;
                 Data "xyz" [0; 0]; Data "xyz" [1; 0]; Data "xyz" [2; 0];
                 Shape "coeffs" 0; Data "coeffs" [0]; Data "exponents" [0];
                 Data "center" [0];
                 Var "spherical";
                 MutData "out" [0; 0] ]
               ++ ((λ tag, MutData ("out_" +:+ tag) [0; 0]) <$> derivs)))
  ∧ f_params fn
    = [ mkparam TInt "L" false; mkparam TArray "arr_xyz" false;
        mkparam TArray "arr_coeffs" false; mkparam TArray "arr_exponents" true;
        mkparam TArray "arr_center" false; mkparam TBool "spherical" false;
        mkparam TArray "arr_out" true ]
      ++ ((λ tag, mkparam TArray ("arr_" +:+ tag +:+ "_out") false) <$> derivs)
  ∧ checks (f_body fn)
    = [ check_of max_L OrderSupported; check_of max_L CoordsThreeRows;
        check_of max_L CoeffsMatchExponents; check_of max_L CenterLengthThree;
        check_of max_L (RowCount Primary) ]
      ++ (rows_check <$> derivs)
      ++ [ check_of max_L (PointCount Primary) ]
      ++ (cols_check <$> derivs).
Proof.
  intros Hwt Hnone derivs fn.
  split; [apply pybind11_func_emits|]. split_and!.
  - unfold fn.
    rewrite (WrapperFacts.pybind11_func_meets_contract max_L derivs name call_name a Hwt).
    unfold wrapper_contract. fold derivs in Hnone. by rewrite Hnone.
  - apply pybind11_func_one_call.
  - reflexivity.
  - unfold fn. rewrite pybind11_func_checks. unfold contracts, buffers.
    rewrite !fmap_app, !fmap_cons, <- !list_fmap_compose. reflexivity.
Qed.

(** C5: [pybind11_transpose] issues a wrapper of two buffers whose checks are
    [input.shape(0) != output.shape(1)] and then
    [input.shape(1) != output.shape(0)], each throwing a [length_error]
    before anything is called, and whose one call passes
    [n = input.shape(0)], [m = input.shape(1)] and the two base pointers to
    the function named. *)
Theorem pybind11_transpose_checks_then_calls (func_name wrapper_name : string)
  (a : arguments) :
  TransposeContract.well_typed a →
  let fn := pybind11_transpose_fn func_name wrapper_name in
  pybind11_transpose func_name wrapper_name = Wrapper.emit fn
  ∧ f_params fn = [ mkparam TArray "arr_input" false; mkparam TArray "arr_output" false ]
  ∧ checks (f_body fn)
    = [ Check (Shape "input" 0) Ne (Shape "output" 1) length_error
              "Input tranpose shape 0 does not match output transpose shape 1.\n";
        Check (Shape "input" 1) Ne (Shape "output" 0) length_error
              "Input tranpose shape 1 does not match output transpose shape 0.\n" ]
  ∧ calls_in (f_body fn)
    = [ Call func_name [ Var "n"; Var "m"; Data "input" [0; 0]; MutData "output" [0; 0] ] ]
  ∧ last (f_body fn)
    = Some (Call func_name
              [ Var "n"; Var "m"; Data "input" [0; 0]; MutData "output" [0; 0] ])
  ∧ call fn a
    = (if negb (dim a "arr_input" 0 =? dim a "arr_output" 1) then
         Threw length_error
               "Input tranpose shape 0 does not match output transpose shape 1.\n" []
       else if negb (dim a "arr_input" 1 =? dim a "arr_output" 0) then
         Threw length_error
               "Input tranpose shape 1 does not match output transpose shape 0.\n" []
       else
         Returned [ invoke func_name
                      [ VInt (dim a "arr_input" 0); VInt (dim a "arr_input" 1);
                        VPtr "arr_input" [0; 0]; VPtr "arr_output" [0; 0] ] ]).
Proof.
  intros Hwt fn.
  split; [apply pybind11_transpose_emits|]. split_and!; try reflexivity.
  by apply TransposeWrapper.pybind11_transpose_meets_contract.
Qed.

(** C9: each of the five generators opens and closes blocks in equal numbers
    and well nested, for every derivative order and every tile size: run on
    any emitter, whatever blocks it has open, the generator raises no error
    and leaves the block stack and the indentation level as it found them. *)
Theorem generators_balance_blocks (get_deriv_indices : Z → list string)
  (name : string) (grad : Z) (call_name : string) (max_L : Z)
  (func_name wrapper_name : string) (inner_block : Z) (cg : Emitter.t) :
  Forall (λ cs, balanced cs
                ∧ count_starts cs = count_closes cs
                ∧ ∃ cg', Emitter.run cs cg = inr cg'
                         ∧ Emitter.stack cg' = Emitter.stack cg
                         ∧ Emitter.indent_lvl cg' = Emitter.indent_lvl cg)
    [ pybind11_func get_deriv_indices name grad call_name max_L;
      pybind11_transpose func_name wrapper_name;
      naive_transpose;
      fast_transpose inner_block;
      block_copy ].
Proof.
  assert (∀ cs, balanced cs →
            balanced cs ∧ count_starts cs = count_closes cs
            ∧ ∃ cg', Emitter.run cs cg = inr cg'
                     ∧ Emitter.stack cg' = Emitter.stack cg
                     ∧ Emitter.indent_lvl cg' = Emitter.indent_lvl cg) as Hall.
  { intros cs Hb. split; [done|]. split; [by apply Blocks.balanced_counts|].
    by apply Blocks.balanced_runs. }
  apply Forall_cons_2; [apply Hall, Blocks.pybind11_func_balanced|].
  apply Forall_cons_2; [apply Hall, Blocks.pybind11_transpose_balanced|].
  apply Forall_cons_2; [apply Hall, Blocks.naive_transpose_balanced|].
  apply Forall_cons_2; [apply Hall, Blocks.fast_transpose_balanced|].
  apply Forall_cons_2; [apply Hall, Blocks.block_copy_balanced|].
  apply Forall_nil_2.
Qed.

(** *** The results at an order-2 call on five points *)

Lemma xyz35_well_typed : well_typed ["x"; "y"; "z"] xyz35.
Proof.
  split; try reflexivity.
  - unfold small_order. change (arg_int xyz35 "L") with 2. lia.
  - intros b Hb. unfold buffers in Hb. rewrite !fmap_cons in Hb.
    repeat (apply elem_of_cons in Hb as [->|Hb]); try reflexivity.
    by apply elem_of_nil in Hb.
  - intros x d. cbn [arg_shape xyz35].
    repeat destruct (String.eqb x _); intros Hd;
      repeat (apply elem_of_cons in Hd as [->|Hd]); try lia; by apply elem_of_nil in Hd.
Qed.

Lemma pybind11_func_validates_in_order_xyz35 :
  call (pybind11_func_fn ["x"; "y"; "z"] "collocation_wrapper" "gg_collocation_deriv1" 3)
       xyz35
  = wrapper_contract 3 ["x"; "y"; "z"] "gg_collocation_deriv1" xyz35.
Proof.
  exact (proj1 (proj2 (proj2 (proj2
           (pybind11_func_validates_in_order (λ _, ["x"; "y"; "z"]) "collocation_wrapper" 1
              "gg_collocation_deriv1" 3 xyz35 xyz35_well_typed))))).
Defined.


Lemma pybind11_func_passes_arguments_in_order_xyz35 :
  call (pybind11_func_fn ["x"; "y"; "z"] "collocation_wrapper" "gg_collocation_deriv1" 3)
       xyz35
  = Returned
      [ invoke "gg_collocation_deriv1"
          [ VInt 2; VInt 5;
            VPtr "arr_xyz" [0; 0]; VPtr "arr_xyz" [1; 0]; VPtr "arr_xyz" [2; 0];
            VInt 4; VPtr "arr_coeffs" [0]; VPtr "arr_exponents" [0]; VPtr "arr_center" [0];
            VBool true;
            VPtr "arr_out" [0; 0];
            VPtr "arr_x_out" [0; 0]; VPtr "arr_y_out" [0; 0]; VPtr "arr_z_out" [0; 0] ] ].
Proof.
  exact (proj1 (proj2
           (pybind11_func_passes_arguments_in_order (λ _, ["x"; "y"; "z"])
              "collocation_wrapper" 1 "gg_collocation_deriv1" 3 xyz35 xyz35_well_typed
              eq_refl))).
Defined.

Lemma shapes_2x3_well_typed : TransposeContract.well_typed shapes_2x3.
Proof.
  split; try reflexivity.
  intros x d. cbn [arg_shape shapes_2x3].
  destruct (String.eqb x _); intros Hd;
    repeat (apply elem_of_cons in Hd as [->|Hd]); try lia; by apply elem_of_nil in Hd.
Qed.

Lemma pybind11_transpose_checks_then_calls_2x3 :
  call (pybind11_transpose_fn "gg_fast_transpose" "fast_transpose") shapes_2x3
  = Returned [ invoke "gg_fast_transpose"
                 [ VInt 2; VInt 3; VPtr "arr_input" [0; 0]; VPtr "arr_output" [0; 0] ] ].
Proof.
  exact (proj2 (proj2 (proj2 (proj2 (proj2
           (pybind11_transpose_checks_then_calls "gg_fast_transpose" "fast_transpose"
              shapes_2x3 shapes_2x3_well_typed)))))).
Defined.

End Wrappers.

(** * The kernels: further properties *)

Module KernelLaws.
Import Kernel Exec ExecRuns ExecFacts Layout LayoutFacts Moves MovesFacts Copies Behaviour.

(** *** Cells of a transposed buffer *)

(** Every index below [n * m] is the target of one matrix position. *)
Lemma transposed_index (n m : Z) (p : nat) :
  0 < n → Z.of_nat p < n * m →
  ∃ i j, 0 ≤ i < n ∧ 0 ≤ j < m ∧ p = Z.to_nat (j * n + i).
Proof.
  intros Hn Hp. exists (Z.of_nat p mod n), (Z.of_nat p / n).
  pose proof (Z.mod_pos_bound (Z.of_nat p) n Hn).
  pose proof (Z.div_mod (Z.of_nat p) n ltac:(lia)).
  assert (0 ≤ Z.of_nat p / n) by (apply Z.div_pos; lia).
  split_and!; try lia. nia.
Qed.

(** A list of cells that all hold a value is the image of a list of values. *)
Lemma cells_full {A : Type} (out : list (option A)) :
  (∀ p, (p < length out)%nat → ∃ x, out !! p = Some (Some x)) →
  ∃ X1, out = Some <$> X1 ∧ length X1 = length out.
Proof.
  induction out as [|c out IH]; intros Hall.
  - by exists [].
  - destruct (Hall 0%nat) as [x Hx]; [simpl; lia|]. simpl in Hx. simplify_eq.
    destruct IH as (X1 & -> & Hlen).
    { intros p Hp. apply (Hall (S p)). simpl. lia. }
    exists (x :: X1). split; [by rewrite fmap_cons|]. simpl. by rewrite Hlen, length_fmap.
Qed.

(** A buffer of exactly [n * m] cells holds, once transposed into, a value
    in every cell. *)
Lemma transposed_full {A : Type} (n m : Z) (X : list A) (out0 out : list (option A)) :
  0 ≤ n → 0 ≤ m → (Z.to_nat (n * m) ≤ length X)%nat → length out0 = Z.to_nat (n * m) →
  transposed n m X out0 out →
  ∃ X1, out = Some <$> X1 ∧ length X1 = Z.to_nat (n * m).
Proof.
  intros Hn Hm HX Hlen (Hl & Hin & _).
  destruct (cells_full out) as (X1 & -> & HX1).
  - intros p Hp. rewrite Hl, Hlen in Hp.
    destruct (transposed_index n m p) as (i & j & Hi & Hj & ->); [nia|lia|].
    rewrite (Hin i j) by done. rewrite list_lookup_fmap.
    destruct (lookup_lt_is_Some_2 X (Z.to_nat (i * m + j))) as [x ->]; [nia|].
    by exists x.
  - exists X1. split; [done|]. by rewrite HX1, Hl.
Qed.

(** The transpose of the transpose holds the matrix again. *)
Lemma transposed_twice {A : Type} (n m : Z) (X X1 : list A)
  (out0 back0 back : list (option A)) :
  0 ≤ n → 0 ≤ m →
  transposed n m X out0 (Some <$> X1) → transposed m n X1 back0 back →
  (∀ i j, 0 ≤ i < n → 0 ≤ j < m →
          back !! Z.to_nat (i * m + j) = (Some <$> X) !! Z.to_nat (i * m + j))
  ∧ (∀ p, n * m ≤ Z.of_nat p → back !! p = back0 !! p).
Proof.
  intros Hn Hm (_ & Hin1 & _) (_ & Hin2 & Hout2). split.
  - intros i j Hi Hj. rewrite (Hin2 j i) by done. by rewrite <- (Hin1 i j).
  - intros p Hp. apply Hout2. intros j i [Hj Hi] E. nia.
Qed.

(** *** Round trips *)

(** X1: the naive transpose run on an [n]-by-[m] matrix and then, with the
    extents swapped, on what it wrote gives the matrix back: the first
    [n * m] cells of the last buffer hold the input, the others are left as
    they were. *)
Theorem naive_transpose_twice {A : Type} (n m : Z) (X : list A)
  (out0 back0 : list (option A)) :
  0 ≤ n < size_mod → 0 ≤ m < size_mod → n * m < size_mod →
  (Z.to_nat (n * m) ≤ length X)%nat → length out0 = Z.to_nat (n * m) →
  (Z.to_nat (n * m) ≤ length back0)%nat →
  ∃ fuel1 σ1 out fuel2 σ2 back,
    run fuel1 naive_transpose_fn [ASize n; ASize m; ABuf (Some <$> X); ABuf out0] = Done σ1
    ∧ mem σ1 "output" = Some out
    ∧ run fuel2 naive_transpose_fn [ASize m; ASize n; ABuf out; ABuf back0] = Done σ2
    ∧ mem σ2 "output" = Some back
    ∧ (∀ i j, 0 ≤ i < n → 0 ≤ j < m →
              back !! Z.to_nat (i * m + j) = (Some <$> X) !! Z.to_nat (i * m + j))
    ∧ (∀ p, n * m ≤ Z.of_nat p → back !! p = back0 !! p).
Proof.
  intros Hn Hm Hnm HX Hout Hback.
  destruct (NaiveTranspose.naive_transpose_runs n m X out0 Hn Hm Hnm HX ltac:(lia))
    as (fuel1 & σ1 & Hrun1 & _ & _ & out & Hmem1 & Htp1).
  destruct (transposed_full n m X out0 out) as (X1 & -> & HX1); [lia|lia|done|done|done|].
  destruct (NaiveTranspose.naive_transpose_runs m n X1 back0 Hm Hn)
    as (fuel2 & σ2 & Hrun2 & _ & _ & back & Hmem2 & Htp2).
  { by rewrite Z.mul_comm. }
  { rewrite Z.mul_comm. lia. }
  { by rewrite Z.mul_comm. }
  exists fuel1, σ1, (Some <$> X1), fuel2, σ2, back. split_and!; try done.
  - by eapply transposed_twice; [..|exact Htp1|exact Htp2]; lia.
  - by eapply transposed_twice; [..|exact Htp1|exact Htp2]; lia.
Qed.

(** X2: the blocked transpose with tile size [t1] run on an [n]-by-[m]
    matrix and then, with the extents swapped and any tile size [t2], on what
    it wrote gives the matrix back. *)
Theorem fast_transpose_twice {A : Type} (n m t1 t2 : Z) (X : list A)
  (out0 back0 : list (option A)) :
  0 ≤ n < size_mod → 0 ≤ m < size_mod → addressable (n * m) →
  1 ≤ t1 → addressable (t1 * t1) → 1 ≤ t2 → addressable (t2 * t2) →
  (Z.to_nat (n * m) ≤ length X)%nat → length out0 = Z.to_nat (n * m) →
  (Z.to_nat (n * m) ≤ length back0)%nat →
  ∃ fuel1 σ1 out fuel2 σ2 back,
    run fuel1 (fast_transpose_fn t1) [ASize n; ASize m; ABuf (Some <$> X); ABuf out0]
    = Done σ1
    ∧ mem σ1 "output" = Some out
    ∧ run fuel2 (fast_transpose_fn t2) [ASize m; ASize n; ABuf out; ABuf back0] = Done σ2
    ∧ mem σ2 "output" = Some back
    ∧ (∀ i j, 0 ≤ i < n → 0 ≤ j < m →
              back !! Z.to_nat (i * m + j) = (Some <$> X) !! Z.to_nat (i * m + j))
    ∧ (∀ p, n * m ≤ Z.of_nat p → back !! p = back0 !! p).
Proof.
  intros Hn Hm Hnm Ht1 Htt1 Ht2 Htt2 HX Hout Hback.
  destruct (FastTranspose.fast_transpose_runs n m t1 X out0 Hn Hm Ht1 Htt1 Hnm HX
              ltac:(lia))
    as (fuel1 & σ1 & Hrun1 & _ & _ & out & Hmem1 & Htp1).
  destruct (transposed_full n m X out0 out) as (X1 & -> & HX1); [lia|lia|done|done|done|].
  destruct (FastTranspose.fast_transpose_runs m n t2 X1 back0 Hm Hn Ht2 Htt2)
    as (fuel2 & σ2 & Hrun2 & _ & _ & back & Hmem2 & Htp2).
  { by rewrite Z.mul_comm. }
  { rewrite Z.mul_comm. lia. }
  { by rewrite Z.mul_comm. }
  exists fuel1, σ1, (Some <$> X1), fuel2, σ2, back. split_and!; try done.
  - by eapply transposed_twice; [..|exact Htp1|exact Htp2]; lia.
  - by eapply transposed_twice; [..|exact Htp1|exact Htp2]; lia.
Qed.

(** *** Counting copies *)

Lemma length_flat_map_const {B C : Type} (f : B → list C) (l : list B) (c : nat) :
  (∀ x, length (f x) = c) → length (flat_map f l) = (length l * c)%nat.
Proof.
  intros Hf. induction l as [|x l IH]; [done|]. simpl. rewrite length_app, Hf, IH. lia.
Qed.

Lemma length_naive_moves (n m : Z) :
  0 ≤ n → 0 ≤ m → Z.of_nat (length (naive_moves n m)) = n * m.
Proof.
  intros Hn Hm. unfold naive_moves.
  rewrite (length_flat_map_const _ _ (Z.to_nat m)), length_seqZ.
  - nia.
  - intros i. unfold naive_row. by rewrite length_fmap, length_seqZ.
Qed.

Lemma length_gather_moves (m t nstart nremain mstart mremain : Z) :
  0 ≤ nremain → 0 ≤ mremain →
  Z.of_nat (length (gather_moves m t nstart nremain mstart mremain)) = nremain * mremain.
Proof.
  intros Hn Hm. unfold gather_moves.
  rewrite (length_flat_map_const _ _ (Z.to_nat mremain)), length_seqZ.
  - nia.
  - intros l. unfold gather_row. by rewrite length_fmap, length_seqZ.
Qed.

Lemma length_scatter_moves (n t nstart nremain mstart mremain : Z) :
  0 ≤ nremain → 0 ≤ mremain →
  Z.of_nat (length (scatter_moves n t nstart nremain mstart mremain)) = nremain * mremain.
Proof.
  intros Hn Hm. unfold scatter_moves.
  rewrite (length_flat_map_const _ _ (Z.to_nat nremain)), length_seqZ.
  - nia.
  - intros k. unfold scatter_row. by rewrite length_fmap, length_seqZ.
Qed.

(** The clamped extents of the tiles along a dimension add up to its extent:
    lists whose lengths are [c] times the extent of their tile have [c * d]
    elements together. *)
Lemma length_over_blocks {B : Type} (F : Z → list B) (t d c : Z) :
  1 ≤ t → 0 ≤ d →
  (∀ b, 0 ≤ b < blocks t d → Z.of_nat (length (F b)) = c * remain t d (b * t)) →
  Z.of_nat (length (flat_map F (seqZ 0 (blocks t d)))) = c * d.
Proof.
  intros Ht Hd HF.
  assert (∀ k : nat, Z.of_nat k ≤ blocks t d →
            Z.of_nat (length (flat_map F (seqZ 0 (Z.of_nat k))))
            = c * Z.min (Z.of_nat k * t) d) as Hk.
  { induction k as [|k IH]; intros Hle.
    - simpl. rewrite Z.min_l by lia. lia.
    - replace (Z.of_nat (S k)) with (Z.of_nat k + 1) by lia.
      rewrite flat_map_seqZ_succ, length_app, Nat2Z.inj_add, IH, HF by lia.
      pose proof (FastTranspose.blocks_start t d (Z.of_nat k) Ht Hd ltac:(lia)).
      unfold remain. rewrite <- Z.mul_add_distr_l. f_equal. lia. }
  pose proof (FastTranspose.blocks_range t d Ht Hd).
  pose proof (FastTranspose.blocks_cover t d Ht Hd).
  specialize (Hk (Z.to_nat (blocks t d))). rewrite Z2Nat.id in Hk by lia.
  rewrite Hk by lia. f_equal. lia.
Qed.

Lemma length_fast_moves (n m t : Z) :
  1 ≤ t → 0 ≤ n → 0 ≤ m → Z.of_nat (length (fast_moves n m t)) = 2 * (n * m).
Proof.
  intros Ht Hn Hm. unfold fast_moves.
  rewrite (length_over_blocks _ t n (2 * m)) by
    (try done; intros nb Hnb; unfold tile_row_moves;
     rewrite (length_over_blocks _ t m (2 * remain t n (nb * t))) by
       (try done; intros mb Hmb; unfold tile_moves;
        pose proof (FastTranspose.blocks_start t n nb Ht Hn Hnb);
        pose proof (FastTranspose.blocks_start t m mb Ht Hm Hmb);
        rewrite length_app, Nat2Z.inj_add, length_gather_moves, length_scatter_moves
          by (unfold remain; lia);
        lia);
     lia).
  lia.
Qed.

Lemma filter_flat_map {B C : Type} (p : C → bool) (f : B → list C) (l : list B) :
  List.filter p (flat_map f l) = flat_map (λ x, List.filter p (f x)) l.
Proof.
  induction l as [|x l IH]; [done|]. simpl. by rewrite List.filter_app, IH.
Qed.

Lemma filter_fmap_all {B C : Type} (p : C → bool) (f : B → C) (l : list B) :
  (∀ x, p (f x) = true) → List.filter p (f <$> l) = f <$> l.
Proof.
  intros Hp. induction l as [|x l IH]; [done|]. rewrite fmap_cons. simpl.
  by rewrite Hp, IH.
Qed.

Lemma filter_fmap_none {B C : Type} (p : C → bool) (f : B → C) (l : list B) :
  (∀ x, p (f x) = false) → List.filter p (f <$> l) = [].
Proof.
  intros Hp. induction l as [|x l IH]; [done|]. rewrite fmap_cons. simpl.
  by rewrite Hp, IH.
Qed.

Lemma flat_map_nil {B C : Type} (l : list B) : flat_map (λ _ : B, @nil C) l = [].
Proof. by induction l. Qed.

Lemma writes_output_tile (n m t nb mb : Z) :
  List.filter writes_output (tile_moves n m t nb mb)
  = scatter_moves n t (nb * t) (remain t n (nb * t)) (mb * t) (remain t m (mb * t)).
Proof.
  unfold tile_moves. cbv zeta. rewrite List.filter_app.
  unfold gather_moves, scatter_moves. rewrite !filter_flat_map.
  rewrite (flat_map_ext _ (λ _, [])), flat_map_nil.
  2:{ intros l. unfold gather_row. by apply filter_fmap_none. }
  cbn [app]. apply flat_map_ext. intros k. unfold scatter_row. by apply filter_fmap_all.
Qed.

Lemma length_writes_output (n m t : Z) :
  1 ≤ t → 0 ≤ n → 0 ≤ m →
  Z.of_nat (length (List.filter writes_output (fast_moves n m t))) = n * m.
Proof.
  intros Ht Hn Hm. unfold fast_moves. rewrite filter_flat_map.
  rewrite (length_over_blocks _ t n m) by
    (try done; intros nb Hnb; unfold tile_row_moves; rewrite filter_flat_map;
     rewrite (length_over_blocks _ t m (remain t n (nb * t))) by
       (try done; intros mb Hmb; rewrite writes_output_tile;
        pose proof (FastTranspose.blocks_start t n nb Ht Hn Hnb);
        pose proof (FastTranspose.blocks_start t m mb Ht Hm Hmb);
        rewrite length_scatter_moves by (unfold remain; lia); lia);
     lia).
  lia.
Qed.

(** X3: whatever the tile size, the blocked transpose copies every element
    twice, once into [tmp] and once into [output]: its run makes [2 * n * m]
    copies, [n * m] of them into [output], where the naive transpose makes
    [n * m] in all. *)
Theorem transposes_count_copies {A : Type} (n m t : Z)
  (X : list A) (out0 : list (option A)) :
  0 ≤ n < size_mod → 0 ≤ m < size_mod → 1 ≤ t →
  addressable (t * t) → addressable (n * m) →
  (Z.to_nat (n * m) ≤ length X)%nat → (Z.to_nat (n * m) ≤ length out0)%nat →
  ∃ fuel1 fuel2 σ1 σ2,
    run fuel1 (fast_transpose_fn t) [ASize n; ASize m; ABuf (Some <$> X); ABuf out0]
    = Done σ1
    ∧ run fuel2 naive_transpose_fn [ASize n; ASize m; ABuf (Some <$> X); ABuf out0]
      = Done σ2
    ∧ Z.of_nat (length (trace σ1)) = 2 * (n * m)
    ∧ Z.of_nat (length (List.filter writes_output (trace σ1))) = n * m
    ∧ Z.of_nat (length (trace σ2)) = n * m.
Proof.
  intros Hn Hm Ht Htt Hnm HX Hout.
  destruct (FastTranspose.fast_transpose_runs n m t X out0 Hn Hm Ht Htt Hnm HX Hout)
    as (fuel1 & σ1 & Hrun1 & Htr1 & _).
  assert (n * m < size_mod) as Hlt by (unfold addressable in Hnm; nia).
  destruct (NaiveTranspose.naive_transpose_runs n m X out0 Hn Hm Hlt HX Hout)
    as (fuel2 & σ2 & Hrun2 & Htr2 & _).
  exists fuel1, fuel2, σ1, σ2. rewrite Htr1, Htr2. split_and!; try done.
  - apply length_fast_moves; lia.
  - apply length_writes_output; lia.
  - apply length_naive_moves; lia.
Qed.

(** *** Edges *)

(** X4: [fast_transpose] does not reject a tile size of [0]: it issues a
    routine that sizes its blocks by [n / 0].  C gives a division by zero no
    meaning, so no call of that routine has a defined behaviour, whatever the
    extents and the buffers; for a tile size of at least [1] no call on
    buffers of [n * m] cells comes to such an operation. *)
Theorem fast_transpose_zero_tile_undefined {A : Type} (n m : Z)
  (input output : list (option A)) :
  0 ≤ n < size_mod → 0 ≤ m < size_mod →
  fast_transpose 0 = Kernel.emit (fast_transpose_fn 0)
  ∧ In (Write "size_t nblocks = n / 0" None) (fast_transpose 0)
  ∧ In (Decl false "nblocks" (Bin Div (Var "n") (Lit 0))) (f_body (fast_transpose_fn 0))
  ∧ undefined (fast_transpose_fn 0) [ASize n; ASize m; ABuf input; ABuf output]
  ∧ (∀ t (X : list A) out0,
       1 ≤ t → addressable (t * t) → addressable (n * m) →
       (Z.to_nat (n * m) ≤ length X)%nat → (Z.to_nat (n * m) ≤ length out0)%nat →
       ¬ undefined (fast_transpose_fn t) [ASize n; ASize m; ABuf (Some <$> X); ABuf out0]).
Proof.
  intros Hn Hm. split; [apply fast_transpose_emits|]. split_and!.
  - cbn. tauto.
  - cbn. tauto.
  - exists 1%nat. unfold run. cbn [f_params fast_transpose_fn transpose_params bind_params].
    destruct (Z.leb_spec 0 n); [|lia]. destruct (Z.ltb_spec n size_mod); [|lia].
    destruct (Z.leb_spec 0 m); [|lia]. destruct (Z.ltb_spec m size_mod); [|lia].
    reflexivity.
  - intros t X out0 Ht Htt Hnm HX Hout [fuel Hfault].
    destruct (FastTranspose.fast_transpose_runs n m t X out0 Hn Hm Ht Htt Hnm HX Hout)
      as (fuel' & σ' & Hrun & _).
    by apply (Kernels.run_never_faults _ _ _ _ Hrun fuel).
Qed.

(** *** Memory safety and frames *)

(** X5: no run of the naive transpose faults, and each of its copies reads
    [input] and writes [output] at an index below [n * m]: it needs no more
    of either buffer than the [n * m] cells of the matrix. *)
Theorem naive_transpose_stays_in_bounds {A : Type} (n m : Z)
  (X : list A) (out0 : list (option A)) :
  0 ≤ n < size_mod → 0 ≤ m < size_mod → n * m < size_mod →
  (Z.to_nat (n * m) ≤ length X)%nat → (Z.to_nat (n * m) ≤ length out0)%nat →
  (∃ fuel σ',
     run fuel naive_transpose_fn [ASize n; ASize m; ABuf (Some <$> X); ABuf out0] = Done σ'
     ∧ Forall (λ e, to e = "output" ∧ from e = "input"
                    ∧ 0 ≤ to_idx e < n * m ∧ 0 ≤ from_idx e < n * m) (trace σ'))
  ∧ ∀ fuel,
      run fuel naive_transpose_fn [ASize n; ASize m; ABuf (Some <$> X); ABuf out0] ≠ Fault.
Proof.
  intros Hn Hm Hnm HX Hout.
  destruct (NaiveTranspose.naive_transpose_runs n m X out0 Hn Hm Hnm HX Hout)
    as (fuel & σ' & Hrun & Htr & _).
  split; [|by eapply Kernels.run_never_faults].
  exists fuel, σ'. split; [done|]. rewrite Htr. apply Forall_forall. intros e He.
  apply Kernels.elem_of_naive_moves in He as (i & j & Hi & Hj & ->). cbn.
  split_and!; try done; nia.
Qed.

(** X6: no run of the block copy faults; each of its copies reads [input] at
    an index below [(n-1)*is + m] and writes [output] at an index below
    [(n-1)*os + m], and with [n = 0] or [m = 0] it copies nothing, whatever
    the strides and however short the buffers. *)
Theorem block_copy_stays_in_bounds {A : Type} (n m is_ os_ trans : Z)
  (X : list A) (out0 : list (option A)) :
  0 ≤ n < size_mod → 0 ≤ m < size_mod → 0 ≤ is_ < size_mod → 0 ≤ os_ < size_mod →
  - 2 ^ 31 ≤ trans < 2 ^ 31 →
  addressable (Z.of_nat (length X)) → addressable (Z.of_nat (length out0)) →
  (0 < n → 0 < m → (n - 1) * is_ + m ≤ Z.of_nat (length X)) →
  (0 < n → 0 < m → (n - 1) * os_ + m ≤ Z.of_nat (length out0)) →
  (∃ fuel σ',
     run fuel block_copy_fn
       [ASize n; ASize m; ABuf (Some <$> X); ASize is_; ABuf out0; ASize os_; AInt trans]
     = Done σ'
     ∧ Forall (λ e, to e = "output" ∧ from e = "input"
                    ∧ 0 ≤ to_idx e < (n - 1) * os_ + m
                    ∧ 0 ≤ from_idx e < (n - 1) * is_ + m) (trace σ')
     ∧ (n = 0 ∨ m = 0 → trace σ' = []))
  ∧ ∀ fuel,
      run fuel block_copy_fn
        [ASize n; ASize m; ABuf (Some <$> X); ASize is_; ABuf out0; ASize os_; AInt trans]
      ≠ Fault.
Proof.
  intros Hn Hm His Hos Ht HX Hout Hsrc Hdst.
  destruct (BlockCopy.block_copy_runs n m is_ os_ trans X out0
              Hn Hm His Hos Ht HX Hout Hsrc Hdst)
    as (fuel & σ' & Hrun & Htr & _).
  split; [|by eapply Kernels.run_never_faults].
  exists fuel, σ'. split; [done|]. rewrite Htr. split.
  - apply Forall_forall. intros e He.
    apply Kernels.elem_of_block_copy_moves in He as (i & j & Hi & Hj & ->). cbn.
    split_and!; try done; nia.
  - apply block_copy_moves_empty.
Qed.

(** X7: the blocked transpose writes nothing but its staging buffer and the
    first [n * m] cells of [output]: after the run the input buffer is as it
    was, the output buffer has the length it had and its cells from index
    [n * m] on are as they were, and no copy has [input] as its target. *)
Theorem fast_transpose_frame {A : Type} (n m t : Z)
  (X : list A) (out0 : list (option A)) :
  0 ≤ n < size_mod → 0 ≤ m < size_mod → 1 ≤ t →
  addressable (t * t) → addressable (n * m) →
  (Z.to_nat (n * m) ≤ length X)%nat → (Z.to_nat (n * m) ≤ length out0)%nat →
  ∃ fuel σ' out,
    run fuel (fast_transpose_fn t) [ASize n; ASize m; ABuf (Some <$> X); ABuf out0]
    = Done σ'
    ∧ mem σ' "input" = Some (Some <$> X)
    ∧ mem σ' "output" = Some out
    ∧ length out = length out0
    ∧ (∀ p, n * m ≤ Z.of_nat p → out !! p = out0 !! p)
    ∧ Forall (λ e, to e ≠ "input") (trace σ').
Proof.
  intros Hn Hm Ht Htt Hnm HX Hout.
  destruct (FastTranspose.fast_transpose_runs n m t X out0 Hn Hm Ht Htt Hnm HX Hout)
    as (fuel & σ' & Hrun & Htr & Hin & out & Hmem & Hlen & _ & Hrest).
  exists fuel, σ', out. split_and!; try done.
  - intros p Hp. apply Hrest. intros i j [Hi Hj] E. nia.
  - rewrite Htr. eapply Forall_impl; [by apply fast_moves_tile_moves|].
    intros e [(E & _)|(E & _)]; by rewrite E.
Qed.

(** *** The block copy, there and back *)

(** An index is a cell of the [n]-by-[m] block of rows of stride [s], or
    none of them. *)
Lemma block_cell_dec (n m s : Z) (p : nat) :
  0 ≤ n → 0 ≤ m ≤ s →
  (∃ i j, (0 ≤ i < n ∧ 0 ≤ j < m) ∧ Z.to_nat (i * s + j) = p)
  ∨ (∀ i j, 0 ≤ i < n ∧ 0 ≤ j < m → Z.to_nat (i * s + j) ≠ p).
Proof.
  intros Hn Hm. destruct (decide (s = 0)) as [->|Hs].
  { right. intros i j [_ Hj]. lia. }
  pose proof (Z.div_mod (Z.of_nat p) s Hs).
  pose proof (Z.mod_pos_bound (Z.of_nat p) s ltac:(lia)).
  assert (0 ≤ Z.of_nat p / s) by (apply Z.div_pos; lia).
  destruct (decide (Z.of_nat p / s < n ∧ Z.of_nat p mod s < m)) as [[Hi Hj]|Hno].
  - left. exists (Z.of_nat p / s), (Z.of_nat p mod s). split; [lia|]. nia.
  - right. intros i j [Hi Hj] E. apply Hno.
    assert (Z.of_nat p = i * s + j) as Hp by nia.
    assert (i = Z.of_nat p / s) as <- by (apply (Z.div_unique _ _ _ j); lia).
    assert (j = Z.of_nat p mod s) as <- by (apply (Z.mod_unique _ _ i); lia).
    lia.
Qed.

(** Cells written out of values into a buffer of values are values. *)
Lemma block_written_full {A : Type} (n m is_ os_ : Z) (X O : list A)
  (out : list (option A)) :
  0 ≤ n → 0 ≤ m ≤ os_ → 0 ≤ is_ →
  (0 < n → 0 < m → (n - 1) * is_ + m ≤ Z.of_nat (length X)) →
  written_as (everywhere n m) (λ i j, i * os_ + j) (λ i j, i * is_ + j)
             (Some <$> O) out (Some <$> X) →
  ∃ O1, out = Some <$> O1 ∧ length O1 = length O.
Proof.
  intros Hn Hm His Hsrc (Hl & Hin & Hrest).
  destruct (cells_full out) as (O1 & -> & HO1).
  - intros p Hp. destruct (block_cell_dec n m os_ p Hn Hm) as [(i & j & Hij & <-)|Hno].
    + rewrite (Hin i j Hij), list_lookup_fmap. destruct Hij as [Hi Hj].
      destruct (lookup_lt_is_Some_2 X (Z.to_nat (i * is_ + j))) as [x ->]; [nia|].
      by exists x.
    + rewrite (Hrest p Hno), list_lookup_fmap.
      destruct (lookup_lt_is_Some_2 O p) as [x ->].
      { rewrite Hl, length_fmap in Hp. lia. }
      by exists x.
  - exists O1. split; [done|]. by rewrite HO1, Hl, length_fmap.
Qed.

(** X8: the block copy run from an array with stride [is] into one with
    stride [os] and then back, the strides exchanged, puts the block where it
    was: into an array [Y] it writes the block of [X] and nothing else, and
    into [X] itself it changes nothing.  The value of [trans] in either call
    is immaterial. *)
Theorem block_copy_there_and_back {A : Type} (n m is_ os_ trans1 trans2 : Z)
  (X O Y : list A) :
  0 ≤ n < size_mod → 0 ≤ m < size_mod → 0 ≤ is_ < size_mod → 0 ≤ os_ < size_mod →
  m ≤ is_ → m ≤ os_ →
  - 2 ^ 31 ≤ trans1 < 2 ^ 31 → - 2 ^ 31 ≤ trans2 < 2 ^ 31 →
  addressable (Z.of_nat (length X)) → addressable (Z.of_nat (length O)) →
  addressable (Z.of_nat (length Y)) →
  (0 < n → 0 < m → (n - 1) * is_ + m ≤ Z.of_nat (length X)) →
  (0 < n → 0 < m → (n - 1) * os_ + m ≤ Z.of_nat (length O)) →
  (0 < n → 0 < m → (n - 1) * is_ + m ≤ Z.of_nat (length Y)) →
  ∃ fuel1 σ1 out fuel2 σ2 back,
    run fuel1 block_copy_fn
      [ASize n; ASize m; ABuf (Some <$> X); ASize is_; ABuf (Some <$> O); ASize os_;
       AInt trans1] = Done σ1
    ∧ mem σ1 "output" = Some out
    ∧ run fuel2 block_copy_fn
        [ASize n; ASize m; ABuf out; ASize os_; ABuf (Some <$> Y); ASize is_;
         AInt trans2] = Done σ2
    ∧ mem σ2 "output" = Some back
    ∧ (∀ i j, 0 ≤ i < n → 0 ≤ j < m →
              back !! Z.to_nat (i * is_ + j) = (Some <$> X) !! Z.to_nat (i * is_ + j))
    ∧ (∀ p, (∀ i j, 0 ≤ i < n ∧ 0 ≤ j < m → Z.to_nat (i * is_ + j) ≠ p) →
            back !! p = (Some <$> Y) !! p)
    ∧ (Y = X → back = Some <$> X).
Proof.
  intros Hn Hm His Hos Hmis Hmos Ht1 Ht2 HX HO HY Hsrc Hdst Hsrc'.
  destruct (BlockCopy.block_copy_runs n m is_ os_ trans1 X (Some <$> O)
              Hn Hm His Hos Ht1 HX)
    as (fuel1 & σ1 & Hrun1 & _ & _ & out & Hmem1 & Hlen1 & Hw1).
  { by rewrite length_fmap. }
  { done. }
  { by rewrite length_fmap. }
  specialize (Hw1 Hmos).
  destruct (block_written_full n m is_ os_ X O out) as (O1 & -> & HO1);
    [lia|lia|lia|done|done|].
  destruct (BlockCopy.block_copy_runs n m os_ is_ trans2 O1 (Some <$> Y)
              Hn Hm Hos His Ht2)
    as (fuel2 & σ2 & Hrun2 & _ & _ & back & Hmem2 & Hlen2 & Hw2).
  { by rewrite HO1. }
  { by rewrite length_fmap. }
  { by rewrite HO1. }
  { by rewrite length_fmap. }
  specialize (Hw2 Hmis). destruct Hw1 as (_ & Hin1 & _). destruct Hw2 as (Hl2 & Hin2 & Hrest2).
  assert (∀ i j, 0 ≤ i < n → 0 ≤ j < m →
            back !! Z.to_nat (i * is_ + j) = (Some <$> X) !! Z.to_nat (i * is_ + j)) as Hblock.
  { intros i j Hi Hj. rewrite (Hin2 i j) by done. by apply Hin1. }
  exists fuel1, σ1, (Some <$> O1), fuel2, σ2, back. split_and!; try done.
  intros ->. apply list_eq. intros p.
  destruct (block_cell_dec n m is_ p ltac:(lia) ltac:(lia)) as [(i & j & [Hi Hj] & <-)|Hno].
  - by apply Hblock.
  - by apply Hrest2.
Qed.

(** *** The properties at a 2-by-3 matrix *)

Lemma naive_transpose_twice_2x3 :
  ∃ fuel1 σ1 out fuel2 σ2 back,
    run fuel1 naive_transpose_fn
      [ASize 2; ASize 3; ABuf (Some <$> matrix_2x3); ABuf blank_2x3] = Done σ1
    ∧ mem σ1 "output" = Some out
    ∧ run fuel2 naive_transpose_fn [ASize 3; ASize 2; ABuf out; ABuf blank_2x3] = Done σ2
    ∧ mem σ2 "output" = Some back
    ∧ (∀ i j, 0 ≤ i < 2 → 0 ≤ j < 3 →
              back !! Z.to_nat (i * 3 + j) = (Some <$> matrix_2x3) !! Z.to_nat (i * 3 + j))
    ∧ (∀ p, 2 * 3 ≤ Z.of_nat p → back !! p = blank_2x3 !! p).
Proof.
  destruct Kernels.sizes_2x3 as (Hn & Hm & _ & _ & _ & Hnm & HX & Hout).
  exact (naive_transpose_twice 2 3 matrix_2x3 blank_2x3 blank_2x3
           Hn Hm Hnm HX eq_refl Hout).
Defined.

Lemma fast_transpose_twice_2x3 :
  ∃ fuel1 σ1 out fuel2 σ2 back,
    run fuel1 (fast_transpose_fn 2)
      [ASize 2; ASize 3; ABuf (Some <$> matrix_2x3); ABuf blank_2x3] = Done σ1
    ∧ mem σ1 "output" = Some out
    ∧ run fuel2 (fast_transpose_fn 4) [ASize 3; ASize 2; ABuf out; ABuf blank_2x3] = Done σ2
    ∧ mem σ2 "output" = Some back
    ∧ (∀ i j, 0 ≤ i < 2 → 0 ≤ j < 3 →
              back !! Z.to_nat (i * 3 + j) = (Some <$> matrix_2x3) !! Z.to_nat (i * 3 + j))
    ∧ (∀ p, 2 * 3 ≤ Z.of_nat p → back !! p = blank_2x3 !! p).
Proof.
  destruct Kernels.sizes_2x3 as (Hn & Hm & Ht & Htt & Hnm & _ & HX & Hout).
  assert (1 ≤ 4 ∧ addressable (4 * 4)) as [Ht4 Htt4]
      by (unfold addressable; rewrite size_mod_eq; lia).
  exact (fast_transpose_twice 2 3 2 4 matrix_2x3 blank_2x3 blank_2x3
           Hn Hm Hnm Ht Htt Ht4 Htt4 HX eq_refl Hout).
Defined.

Lemma transposes_count_copies_2x3 :
  ∃ fuel1 fuel2 σ1 σ2,
    run fuel1 (fast_transpose_fn 2)
      [ASize 2; ASize 3; ABuf (Some <$> matrix_2x3); ABuf blank_2x3] = Done σ1
    ∧ run fuel2 naive_transpose_fn
        [ASize 2; ASize 3; ABuf (Some <$> matrix_2x3); ABuf blank_2x3] = Done σ2
    ∧ Z.of_nat (length (trace σ1)) = 2 * (2 * 3)
    ∧ Z.of_nat (length (List.filter writes_output (trace σ1))) = 2 * 3
    ∧ Z.of_nat (length (trace σ2)) = 2 * 3.
Proof.
  destruct Kernels.sizes_2x3 as (Hn & Hm & Ht & Htt & Hnm & _ & HX & Hout).
  exact (transposes_count_copies 2 3 2 matrix_2x3 blank_2x3 Hn Hm Ht Htt Hnm HX Hout).
Defined.

Lemma fast_transpose_zero_tile_undefined_2x3 :
  In (Write "size_t nblocks = n / 0" None) (fast_transpose 0)
  ∧ undefined (fast_transpose_fn 0)
      [ASize 2; ASize 3; ABuf (Some <$> matrix_2x3); ABuf blank_2x3]
  ∧ ¬ undefined (fast_transpose_fn 2)
        [ASize 2; ASize 3; ABuf (Some <$> matrix_2x3); ABuf blank_2x3].
Proof.
  destruct Kernels.sizes_2x3 as (Hn & Hm & Ht & Htt & Hnm & _ & HX & Hout).
  pose proof (fast_transpose_zero_tile_undefined 2 3 (Some <$> matrix_2x3) blank_2x3 Hn Hm)
    as H.
  exact (conj (proj1 (proj2 H))
           (conj (proj1 (proj2 (proj2 (proj2 H))))
                 (proj2 (proj2 (proj2 (proj2 H))) 2 matrix_2x3 blank_2x3
                    Ht Htt Hnm HX Hout))).
Defined.

Lemma naive_transpose_stays_in_bounds_2x3 :
  (∃ fuel σ',
     run fuel naive_transpose_fn
       [ASize 2; ASize 3; ABuf (Some <$> matrix_2x3); ABuf blank_2x3] = Done σ'
     ∧ Forall (λ e, to e = "output" ∧ from e = "input"
                    ∧ 0 ≤ to_idx e < 2 * 3 ∧ 0 ≤ from_idx e < 2 * 3) (trace σ'))
  ∧ ∀ fuel,
      run fuel naive_transpose_fn
        [ASize 2; ASize 3; ABuf (Some <$> matrix_2x3); ABuf blank_2x3] ≠ Fault.
Proof.
  destruct Kernels.sizes_2x3 as (Hn & Hm & _ & _ & _ & Hnm & HX & Hout).
  exact (naive_transpose_stays_in_bounds 2 3 matrix_2x3 blank_2x3 Hn Hm Hnm HX Hout).
Defined.

Lemma block_sizes_2x3 :
  0 ≤ 2 < size_mod ∧ 0 ≤ 3 < size_mod ∧ 0 ≤ 4 < size_mod
  ∧ addressable (Z.of_nat (length matrix_2x3))
  ∧ addressable (Z.of_nat (length blank_2x4))
  ∧ (0 < 2 → 0 < 3 → (2 - 1) * 3 + 3 ≤ Z.of_nat (length matrix_2x3))
  ∧ (0 < 2 → 0 < 3 → (2 - 1) * 4 + 3 ≤ Z.of_nat (length blank_2x4)).
Proof.
  unfold addressable. rewrite size_mod_eq.
  change (length matrix_2x3) with 6%nat. change (length blank_2x4) with 8%nat. lia.
Qed.

Lemma block_copy_stays_in_bounds_2x3 :
  (∃ fuel σ',
     run fuel block_copy_fn
       [ASize 2; ASize 3; ABuf (Some <$> matrix_2x3); ASize 3; ABuf blank_2x4; ASize 4; AInt 0]
     = Done σ'
     ∧ Forall (λ e, to e = "output" ∧ from e = "input"
                    ∧ 0 ≤ to_idx e < (2 - 1) * 4 + 3
                    ∧ 0 ≤ from_idx e < (2 - 1) * 3 + 3) (trace σ')
     ∧ (2 = 0 ∨ 3 = 0 → trace σ' = []))
  ∧ ∀ fuel,
      run fuel block_copy_fn
        [ASize 2; ASize 3; ABuf (Some <$> matrix_2x3); ASize 3; ABuf blank_2x4; ASize 4; AInt 0]
      ≠ Fault.
Proof.
  destruct block_sizes_2x3 as (H2 & H3 & H4 & HX & HO & Hsrc & Hdst).
  assert (- 2 ^ 31 ≤ 0 < 2 ^ 31) as Ht by lia.
  exact (block_copy_stays_in_bounds 2 3 3 4 0 matrix_2x3 blank_2x4
           H2 H3 H3 H4 Ht HX HO Hsrc Hdst).
Defined.

Lemma fast_transpose_frame_2x3 :
  ∃ fuel σ' out,
    run fuel (fast_transpose_fn 2)
      [ASize 2; ASize 3; ABuf (Some <$> matrix_2x3); ABuf blank_2x3] = Done σ'
    ∧ mem σ' "input" = Some (Some <$> matrix_2x3)
    ∧ mem σ' "output" = Some out
    ∧ length out = length blank_2x3
    ∧ (∀ p, 2 * 3 ≤ Z.of_nat p → out !! p = blank_2x3 !! p)
    ∧ Forall (λ e, to e ≠ "input") (trace σ').
Proof.
  destruct Kernels.sizes_2x3 as (Hn & Hm & Ht & Htt & Hnm & _ & HX & Hout).
  exact (fast_transpose_frame 2 3 2 matrix_2x3 blank_2x3 Hn Hm Ht Htt Hnm HX Hout).
Defined.

Lemma block_copy_there_and_back_2x3 :
  ∃ fuel1 σ1 out fuel2 σ2 back,
    run fuel1 block_copy_fn
      [ASize 2; ASize 3; ABuf (Some <$> matrix_2x3); ASize 3;
       ABuf (Some <$> replicate 8 0); ASize 4; AInt 0] = Done σ1
    ∧ mem σ1 "output" = Some out
    ∧ run fuel2 block_copy_fn
        [ASize 2; ASize 3; ABuf out; ASize 4; ABuf (Some <$> matrix_2x3); ASize 3;
         AInt 1] = Done σ2
    ∧ mem σ2 "output" = Some back
    ∧ back = Some <$> matrix_2x3.
Proof.
  destruct block_sizes_2x3 as (H2 & H3 & H4 & HX & HO & Hsrc & Hdst).
  assert (- 2 ^ 31 ≤ 0 < 2 ^ 31 ∧ - 2 ^ 31 ≤ 1 < 2 ^ 31 ∧ 3 ≤ 3 ∧ 3 ≤ 4)
    as (Ht0 & Ht1 & H33 & H34) by lia.
  destruct (block_copy_there_and_back 2 3 3 4 0 1 matrix_2x3 (replicate 8 0) matrix_2x3
              H2 H3 H3 H4 H33 H34 Ht0 Ht1 HX HO HX Hsrc Hdst Hsrc)
    as (fuel1 & σ1 & out & fuel2 & σ2 & back & Hr1 & Hm1 & Hr2 & Hm2 & _ & _ & Hsame).
  exists fuel1, σ1, out, fuel2, σ2, back.
  exact (conj Hr1 (conj Hm1 (conj Hr2 (conj Hm2 (Hsame eq_refl))))).
Defined.

End KernelLaws.

(** * The wrappers: further properties *)

Module WrapperLaws.
Import Wrapper WrapperExec Contract WrapperChecks.













(** X10: when the wrapper issued by [pybind11_transpose] for the blocked
    transpose returns, the call it has made fits the buffers: for an input of
    shape [(n, m)] it passes [n] and [m], the output has the shape [(m, n)],
    and the routine issued by [fast_transpose], run on buffers as large as
    the shapes say, finishes and fills the whole output with the transpose
    (copying nothing when an extent is [0]). *)
Theorem transpose_wrapper_feeds_kernel {A : Type} (t : Z) (wrapper_name : string)
  (a : arguments) (X : list A) (out0 : list (option A)) (calls : list invocation) :
  TransposeContract.well_typed a → 1 ≤ t → Exec.addressable (t * t) →
  length X = Z.to_nat (dim a "arr_input" 0 * dim a "arr_input" 1) →
  length out0 = Z.to_nat (dim a "arr_output" 0 * dim a "arr_output" 1) →
  Exec.addressable (Z.of_nat (length X)) →
  call (pybind11_transpose_fn (Kernel.f_name (Kernel.fast_transpose_fn t)) wrapper_name) a
  = Returned calls →
  ∃ n m,
    arg_shape a "arr_input" = [n; m] ∧ arg_shape a "arr_output" = [m; n]
    ∧ calls = [ invoke "gg_fast_transpose"
                  [ VInt n; VInt m; VPtr "arr_input" [0; 0]; VPtr "arr_output" [0; 0] ] ]
    ∧ ∃ fuel σ' X1,
        Exec.run fuel (Kernel.fast_transpose_fn t)
          [ Exec.ASize n; Exec.ASize m; Exec.ABuf (Some <$> X); Exec.ABuf out0 ]
        = Exec.Done σ'
        ∧ Exec.mem σ' "output" = Some (Some <$> X1)
        ∧ length X1 = length X
        ∧ Layout.transposed n m X out0 (Some <$> X1)
        ∧ (n = 0 ∨ m = 0 → Exec.trace σ' = []).
Proof.
  intros Hwt Ht Htt HX Hout Haddr Hcall.
  rewrite (TransposeWrapper.pybind11_transpose_meets_contract _ _ _ Hwt) in Hcall.
  destruct Hwt as [Hin Houtr Hext].
  destruct (WrapperFacts.two_extents _ Hin) as (n & m & Ein).
  destruct (WrapperFacts.two_extents _ Houtr) as (p & q & Eout).
  assert (0 ≤ n < 2 ^ 63) as Hn by (apply (Hext "arr_input"); rewrite Ein; by left).
  assert (0 ≤ m < 2 ^ 63) as Hm
    by (apply (Hext "arr_input"); rewrite Ein; right; by left).
  unfold TransposeContract.transpose_contract, dim in *. rewrite Ein, Eout in *.
  change (default 0 ([n; m] !! 0%nat)) with n in *.
  change (default 0 ([n; m] !! 1%nat)) with m in *.
  change (default 0 ([p; q] !! 0%nat)) with p in *.
  change (default 0 ([p; q] !! 1%nat)) with q in *.
  destruct (Z.eqb_spec n q) as [<-|]; cbn [negb] in Hcall; [|done].
  destruct (Z.eqb_spec m p) as [<-|]; cbn [negb] in Hcall; [|done].
  injection Hcall as <-.
  exists n, m. split_and!; try done.
  pose proof LayoutFacts.size_mod_eq as Hmod.
  assert (Z.of_nat (length X) = n * m) as HXZ by (rewrite HX; nia).
  rewrite HXZ in Haddr.
  assert (length out0 = Z.to_nat (n * m)) as Hout' by (rewrite Hout; f_equal; lia).
  destruct (FastTranspose.fast_transpose_runs n m t X out0
              ltac:(lia) ltac:(lia) Ht Htt Haddr ltac:(lia) ltac:(lia))
    as (fuel & σ' & Hrun & Htr & _ & out & Hmem & Htp).
  destruct (KernelLaws.transposed_full n m X out0 out) as (X1 & -> & HX1);
    [lia|lia|lia|done|done|].
  exists fuel, σ', X1. split_and!; try done; [lia|].
  intros Hz. rewrite Htr. by apply MovesFacts.fast_moves_empty.
Qed.

Lemma transpose_wrapper_feeds_kernel_2x3 :
  ∃ n m,
    arg_shape shapes_2x3 "arr_input" = [n; m] ∧ arg_shape shapes_2x3 "arr_output" = [m; n]
    ∧ [ invoke "gg_fast_transpose"
          [ VInt 2; VInt 3; VPtr "arr_input" [0; 0]; VPtr "arr_output" [0; 0] ] ]
      = [ invoke "gg_fast_transpose"
            [ VInt n; VInt m; VPtr "arr_input" [0; 0]; VPtr "arr_output" [0; 0] ] ]
    ∧ ∃ fuel σ' X1,
        Exec.run fuel (Kernel.fast_transpose_fn 2)
          [ Exec.ASize n; Exec.ASize m; Exec.ABuf (Some <$> matrix_2x3);
            Exec.ABuf blank_2x3 ]
        = Exec.Done σ'
        ∧ Exec.mem σ' "output" = Some (Some <$> X1)
        ∧ length X1 = length matrix_2x3
        ∧ Layout.transposed n m matrix_2x3 blank_2x3 (Some <$> X1)
        ∧ (n = 0 ∨ m = 0 → Exec.trace σ' = []).
Proof.
  destruct Kernels.sizes_2x3 as (_ & _ & Ht & Htt & Hnm & _).
  exact (transpose_wrapper_feeds_kernel 2 "fast_transpose" shapes_2x3 matrix_2x3 blank_2x3
           [ invoke "gg_fast_transpose"
               [ VInt 2; VInt 3; VPtr "arr_input" [0; 0]; VPtr "arr_output" [0; 0] ] ]
           Wrappers.shapes_2x3_well_typed Ht Htt eq_refl eq_refl Hnm eq_refl).
Defined.

End WrapperLaws.
